(** * Incremental vector-index maintenance (Task6): a shallow embedding

    The development follows [Task6/update_index.py] (the incremental
    pipeline [AutoUpdateManager]), [Task6/build_index.py] (the full
    build [KnowledgeBaseIndexer]) and [Task6/scheduler.py]
    ([UpdateScheduler]).  Python dictionaries are finite maps, [try] /
    [except] blocks are computations in an error monad whose handler is
    written out, the logger is a list of records, and the mutable manager
    object is threaded explicitly through [run_update]. *)

From Stdlib Require Import ZArith Ascii String.
From stdpp Require Import gmap strings list pretty.

Local Open Scope Z_scope.
Local Open Scope nat_scope.

(** ** Python built-ins used by the code *)

Module Py.

(** [str.isspace] on the code points below 256. *)
Definition is_space (c : ascii) : bool :=
  let n := nat_of_ascii c in
  ((9 <=? n) && (n <=? 13)) || ((28 <=? n) && (n <=? 32))
  || (n =? 133) || (n =? 160).

Fixpoint lstrip_chars (l : list ascii) : list ascii :=
  match l with
  | c :: l' => if is_space c then lstrip_chars l' else l
  | [] => []
  end.

Definition rstrip_chars (l : list ascii) : list ascii :=
  reverse (lstrip_chars (reverse l)).

(** [s.strip()] *)
Definition strip (s : string) : string :=
  string_of_list_ascii (rstrip_chars (lstrip_chars (list_ascii_of_string s))).

(** [len(s)] *)
Definition len (s : string) : nat := String.length s.

(** [s.endswith(suffix)] *)
Definition endswith (s suffix : string) : bool :=
  let l := list_ascii_of_string s in
  let x := list_ascii_of_string suffix in
  bool_decide (drop (length l - length x) l = x).

(** [f"{i}"] for a non-negative integer. *)
Definition str_of_nat (i : nat) : string := pretty i.

End Py.

(** ** [pathlib]: paths relative to the script directory

    A path is kept as the string [str(file_path.relative_to(script_dir))],
    with ["/"] between the components. *)

Module PathLib.

Fixpoint split_slash (cur : list ascii) (l : list ascii) : list (list ascii) :=
  match l with
  | [] => [reverse cur]
  | c :: l' =>
      if Ascii.eqb c "/"%char then reverse cur :: split_slash [] l'
      else split_slash (c :: cur) l'
  end.

(** [path.parts] *)
Definition parts (p : string) : list string :=
  string_of_list_ascii <$>
    filter (λ x, x ≠ []) (split_slash [] (list_ascii_of_string p)).

(** [path.name] *)
Definition name (p : string) : string := List.last (parts p) "".

(** Index of the last ["."] of a name, as [str.rfind] gives it. *)
Fixpoint rfind_dot (i : nat) (l : list ascii) : option nat :=
  match l with
  | [] => None
  | c :: l' =>
      match rfind_dot (S i) l' with
      | Some j => Some j
      | None => if Ascii.eqb c "."%char then Some i else None
      end
  end.

(** [path.stem]: the name without its last suffix; a leading or a
    trailing dot does not start a suffix. *)
Definition stem (p : string) : string :=
  let l := list_ascii_of_string (name p) in
  match rfind_dot 0 l with
  | Some i =>
      if bool_decide (0 < i < length l - 1)
      then string_of_list_ascii (take i l) else name p
  | None => name p
  end.

End PathLib.

(** ** Exceptions *)

Inductive exn : Type :=
| IOError        (* the file cannot be opened or read *)
| KeyError       (* a mandatory configuration key is missing *)
| ValueError     (* a path does not lie below the script directory *)
| StoreError     (* the vector store or the embedding function failed *)
| ConfigError    (* the configuration file is missing or cannot be parsed *)
| SetupError.    (* logging or a component cannot be set up *)

Definition result (A : Type) : Type := exn + A.

Definition raise {A} (e : exn) : result A := inl e.

Global Instance result_ret : MRet result := λ _ a, inr a.
Global Instance result_bind : MBind result := λ _ _ k m,
  match m with
  | inl e => inl e
  | inr a => k a
  end.

(** ** Documents *)

Inductive value : Type :=
| VStr (s : string)
| VInt (n : nat).

Global Instance value_eq_dec : EqDecision value.
Proof. solve_decision. Defined.

(** [langchain_core.documents.Document(page_content=..., metadata=...)];
    the code never gives a document an [id]. *)
Record Document : Type := {
  page_content : string;
  metadata : gmap string value
}.

Global Instance Document_eq_dec : EqDecision Document.
Proof. solve_decision. Defined.

(** [chunk.metadata.update(new)] *)
Definition metadata_update (new : gmap string value) (chunk : Document) : Document :=
  {| page_content := page_content chunk; metadata := new ∪ metadata chunk |}.

(** The three keys both taggers write. *)
Definition chunk_fields (id : string) (i total : nat) : gmap string value :=
  {[ "chunk_id" := VStr id; "chunk_index" := VInt i; "total_chunks" := VInt total ]}.

Definition chunk_id_of (d : Document) : option value := metadata d !! "chunk_id".
Definition chunk_index_of (d : Document) : option value := metadata d !! "chunk_index".
Definition total_chunks_of (d : Document) : option value := metadata d !! "total_chunks".

(** ** Configuration ([auto_update_config.yaml])

    A field read with [dict.get(key, default)] is an [option] whose
    [None] stands for the missing key; [folder_config['path']] has no
    default and raises [KeyError] when the key is missing. *)

Record FolderConfig : Type := {
  fc_path : option string;
  fc_enabled : option bool;
  fc_watch_extensions : option (list string)
}.

Record Config : Type := {
  local_folders : list FolderConfig;
  chunk_size : option nat;
  chunk_overlap : option nat;
  min_chunk_size : option Z
}.

(** ** The file system seen by one run

    [fs_walk folder] lists what lies below a folder in traversal order,
    each entry with its path relative to the script directory and the
    answer of [is_file()]; it is [None] when the folder does not exist.
    [fs_read p] is the content of a file, [None] when it cannot be opened
    or read.  Bytes and decoded text are not told apart. *)

Record FileSystem : Type := {
  fs_walk : string → option (list (string * bool));
  fs_read : string → option string
}.

(** ** The logger: one constructor per message of the code *)

Inductive log_record : Type :=
| LogFolderMissing (folder : string)      (* warning, scan_for_new_files *)
| LogHashError (p : string)               (* error, _calculate_file_hash *)
| LogNewFile (p : string)                 (* info, scan_for_new_files *)
| LogFileEmpty (p : string)               (* warning, process_file *)
| LogFileProcessed (p : string) (n : nat) (* info, process_file *)
| LogProcessError (p : string)            (* error, process_file handler *)
| LogFileError (p : string)               (* error, per-file handler of run_update *)
| LogChunksAdded (n : nat)                (* info, update_vector_db *)
| LogStoreError                           (* error, update_vector_db handler *)
| LogCacheSaveError                       (* error, _save_processed_files *)
| LogNoNewFiles                           (* info, run_update *)
| LogFound (n : nat)                      (* info, run_update *)
| LogCritical.                            (* error, outer handler of run_update *)

Global Instance log_record_eq_dec : EqDecision log_record.
Proof. solve_decision. Defined.

(** ** The vector store

    [Chroma] is a class of the LangChain library.  Its [add_documents]
    stores every document it is given under the document's own [id], and
    under a newly generated identifier when the document has none; the
    documents of this pipeline never have one.  The generated identifiers
    are modelled by a counter.  The write fails as a whole when the store
    or the embedding function is unavailable. *)

Record VectorDB : Type := {
  db_entries : list (nat * Document);
  db_next_id : nat
}.

Definition add_documents (available : bool) (docs : list Document)
    (db : VectorDB) : result VectorDB :=
  if available
  then mret {| db_entries := db_entries db ++ zip (seq (db_next_id db) (length docs)) docs;
               db_next_id := db_next_id db + length docs |}
  else raise StoreError.

(** [collection.count()] *)
Definition db_count (db : VectorDB) : nat := length (db_entries db).

(** The fragment identifiers found in the metadata of the stored entries. *)
Definition db_chunk_ids (db : VectorDB) : list (option value) :=
  (λ e, chunk_id_of e.2) <$> db_entries db.

(** A store whose keys are pairwise different and below the counter. *)
Definition db_wf (db : VectorDB) : Prop :=
  NoDup (db_entries db).*1 ∧ Forall (λ e, e.1 < db_next_id db) (db_entries db).

(** ** Run statistics and the manager object *)

Record Stats : Type := {
  files_processed : nat;
  chunks_added : nat;
  errors : nat;
  new_files : list (string * nat)
}.

Definition stats_init : Stats :=
  {| files_processed := 0; chunks_added := 0; errors := 0; new_files := [] |}.

Definition stats_add_error (s : Stats) : Stats :=
  {| files_processed := files_processed s; chunks_added := chunks_added s;
     errors := errors s + 1; new_files := new_files s |}.

Definition stats_add_file (p : string) (n : nat) (s : Stats) : Stats :=
  {| files_processed := files_processed s + 1; chunks_added := chunks_added s;
     errors := errors s; new_files := new_files s ++ [(p, n)] |}.

Definition stats_set_chunks_added (n : nat) (s : Stats) : Stats :=
  {| files_processed := files_processed s; chunks_added := n;
     errors := errors s; new_files := new_files s |}.

(** [cache_file] is the content of [processed_files_cache.json], [None]
    while the file is absent or cannot be parsed. *)
Record Manager : Type := {
  script_dir : string;
  config : Config;
  processed_files_cache : gmap string string;
  vector_db : VectorDB;
  cache_file : option (gmap string string)
}.

(** What the surroundings decide during one run. *)
Record Env : Type := {
  env_fs : FileSystem;
  env_now : string;          (* datetime.now().isoformat() *)
  env_store_ok : bool;       (* the vector store accepts the write *)
  env_save_ok : bool;        (* the cache file can be written *)
  env_save_tears : bool      (* a save that fails has opened, and so emptied,
                                the file before it fails *)
}.

(** ** The pipeline

    [RecursiveCharacterTextSplitter] is a class of the LangChain library
    and [hashlib.md5] one of the standard library; both are taken as
    given, the splitter as the function of its configuration that cuts
    one text. *)

Section Pipeline.

Variable RecursiveCharacterTextSplitter :
  nat → nat → list string → string → list string.
Variable md5_hexdigest : string → string.

Definition separators : list string :=
  [String "010" (String "010" ""); String "010" ""; ". "; "! "; "? "; " "; ""].

(** [self.text_splitter], as [_initialize_components] builds it. *)
Definition text_splitter (cfg : Config) : string → list string :=
  RecursiveCharacterTextSplitter
    (default 2000 (chunk_size cfg)) (default 200 (chunk_overlap cfg)) separators.

(** [text_splitter.split_documents(docs)]: every piece becomes a
    document carrying a copy of the metadata of the document it was
    cut from. *)
Definition split_documents (split_text : string → list string)
    (docs : list Document) : list Document :=
  d ← docs;
  (λ t, {| page_content := t; metadata := metadata d |}) <$> split_text (page_content d).

(** *** The minimum-size filter and the tagging loop

    [for i, chunk in enumerate(chunks)]: [i] counts every chunk of
    [chunks], kept or not; [total] is [len(chunks)]. *)

Definition long_enough (min_size : Z) (chunk : Document) : bool :=
  bool_decide (min_size ≤ Z.of_nat (Py.len (Py.strip (page_content chunk))))%Z.

(** The body of the [if]: the chunk at position [i] with its three
    fields written. *)
Definition tagged (prefix : string) (total i : nat) (chunk : Document) : Document :=
  metadata_update (chunk_fields (prefix +:+ "_" +:+ Py.str_of_nat i) i total) chunk.

(** The positions, counted from [i], of the texts that pass the filter. *)
Fixpoint kept_positions (min_size : Z) (i : nat) (pieces : list string) : list nat :=
  match pieces with
  | [] => []
  | t :: rest =>
      if bool_decide (min_size ≤ Z.of_nat (Py.len (Py.strip t)))%Z
      then i :: kept_positions min_size (S i) rest
      else kept_positions min_size (S i) rest
  end.

Fixpoint tag_chunks (prefix : string) (total : nat) (min_size : Z)
    (i : nat) (chunks : list Document) : list Document :=
  match chunks with
  | [] => []
  | chunk :: rest =>
      if long_enough min_size chunk
      then tagged prefix total i chunk :: tag_chunks prefix total min_size (S i) rest
      else tag_chunks prefix total min_size (S i) rest
  end.

(** *** [AutoUpdateManager._calculate_file_hash] *)

Definition calculate_file_hash (fs : FileSystem) (p : string)
    : string * list log_record :=
  match fs_read fs p with
  | Some data => (md5_hexdigest data, [])
  | None => ("", [LogHashError p])
  end.

(** *** [AutoUpdateManager.scan_for_new_files] *)

Definition is_new_or_modified (cache : gmap string string)
    (file_key file_hash : string) : bool :=
  match cache !! file_key with
  | None => true
  | Some h => bool_decide (h ≠ file_hash)
  end.

(** The scan logs as it goes: when it raises, the records of what it
    met before are already written.  A scan leaves either the exception
    with these records, or the files it selected with all its records. *)
Definition scanned : Type :=
  (exn * list log_record) + (list (string * string) * list log_record).

(** Two parts of the scan, one after the other. *)
Definition scan_then (first next : scanned) : scanned :=
  match first with
  | inl r => inl r
  | inr (found, lg) =>
      match next with
      | inl (e, lg') => inl (e, lg ++ lg')
      | inr (found', lg') => inr (found ++ found', lg ++ lg')
      end
  end.

(** [str(file_path.relative_to(self.script_dir))].  A file below the
    script directory is known by its path from there.  A file that is
    not, found in a folder configured with an absolute path elsewhere,
    is known by its absolute path, which starts with ["/"]; for it
    [relative_to] raises [ValueError]. *)
Definition file_key (p : string) : option string :=
  if String.prefix "/" p then None else Some p.

(** The body of the loop over the files of one extension: the hash is
    computed first, then the key. *)
Definition scan_file (fs : FileSystem) (cache : gmap string string)
    (ext : string) (entry : string * bool) : scanned :=
  if Py.endswith (PathLib.name entry.1) ext && entry.2 then
    let '(file_hash, lgh) := calculate_file_hash fs entry.1 in
    match file_key entry.1 with
    | None => inl (ValueError, lgh)
    | Some key =>
        if is_new_or_modified cache key file_hash
        then inr ([(entry.1, file_hash)], lgh ++ [LogNewFile entry.1])
        else inr ([], lgh)
    end
  else inr ([], []).

(** [for file_path in folder_path.rglob(f"*{ext}")]: the entries whose
    name ends with [ext] (an extension without wildcard characters). *)
Fixpoint scan_entries (fs : FileSystem) (cache : gmap string string)
    (ext : string) (entries : list (string * bool)) : scanned :=
  match entries with
  | [] => inr ([], [])
  | entry :: rest =>
      scan_then (scan_file fs cache ext entry) (scan_entries fs cache ext rest)
  end.

(** [for ext in extensions] *)
Fixpoint scan_extensions (fs : FileSystem) (cache : gmap string string)
    (exts : list string) (entries : list (string * bool)) : scanned :=
  match exts with
  | [] => inr ([], [])
  | ext :: rest =>
      scan_then (scan_entries fs cache ext entries)
                (scan_extensions fs cache rest entries)
  end.

(** The body of the loop over the folders. *)
Definition scan_folder (fs : FileSystem) (cache : gmap string string)
    (fc : FolderConfig) : scanned :=
  if negb (default true (fc_enabled fc)) then inr ([], [])
  else
    match fc_path fc with
    | None => inl (KeyError, [])
    | Some folder =>
        match fs_walk fs folder with
        | None => inr ([], [LogFolderMissing folder])
        | Some entries =>
            scan_extensions fs cache
              (default [".txt"; ".md"] (fc_watch_extensions fc)) entries
        end
    end.

(** [for folder_config in local_folders] *)
Fixpoint scan_folders (fs : FileSystem) (cache : gmap string string)
    (folders : list FolderConfig) : scanned :=
  match folders with
  | [] => inr ([], [])
  | fc :: rest => scan_then (scan_folder fs cache fc) (scan_folders fs cache rest)
  end.

Definition scan_for_new_files (env : Env) (m : Manager) : scanned :=
  scan_folders (env_fs env) (processed_files_cache m) (local_folders (config m)).

(** *** [AutoUpdateManager.process_file] *)

Definition read_text (fs : FileSystem) (p : string) : result string :=
  match fs_read fs p with
  | Some data => mret data
  | None => raise IOError
  end.

(** [relative_path.parts[0] if len(relative_path.parts) > 1 else "root"] *)
Definition category (p : string) : string :=
  match PathLib.parts p with
  | first :: _ :: _ => first
  | _ => "root"
  end.

Definition file_metadata (env : Env) (m : Manager) (p file_hash content : string)
    : gmap string value :=
  {[ "source" := VStr p;
     "filename" := VStr (PathLib.name p);
     "file_path" := VStr (script_dir m +:+ "/" +:+ p);
     "file_size" := VInt (Py.len content);
     "file_hash" := VStr file_hash;
     "processed_at" := VStr (env_now env);
     "category" := VStr (category p) ]}.

(** [chunks]: the document built from the content, cut by the splitter. *)
Definition file_chunks (env : Env) (m : Manager) (p file_hash content : string)
    : list Document :=
  let document :=
    {| page_content := content;
       metadata := file_metadata env m p file_hash content |} in
  split_documents (text_splitter (config m)) [document].

(** [self.config.get('processing', {}).get('min_chunk_size', 10)] *)
Definition configured_min_size (cfg : Config) : Z :=
  default 10%Z (min_chunk_size cfg).

(** The segmentation of a file before the filter: what the splitter
    returns for the stripped content.  The splitter is not reached for
    a file that cannot be read or holds nothing but white space. *)
Definition segmentation (env : Env) (m : Manager) (p : string) : list string :=
  match fs_read (env_fs env) p with
  | Some raw =>
      if bool_decide (Py.strip raw = "") then []
      else text_splitter (config m) (Py.strip raw)
  | None => []
  end.

(** The [try] block. *)
Definition process_file_try (env : Env) (m : Manager) (p file_hash : string)
    : result (list Document * list log_record) :=
  raw ← read_text (env_fs env) p;
  let content := Py.strip raw in
  if bool_decide (content = "") then mret ([], [LogFileEmpty p])
  else
    let chunks := file_chunks env m p file_hash content in
    let min_size := configured_min_size (config m) in
    let filtered_chunks :=
      tag_chunks (PathLib.stem p) (length chunks) min_size 0 chunks in
    mret (filtered_chunks, [LogFileProcessed p (length filtered_chunks)]).

(** The whole method: [except Exception] logs and returns [[]]. *)
Definition process_file (env : Env) (m : Manager) (p file_hash : string)
    : list Document * list log_record :=
  match process_file_try env m p file_hash with
  | inr r => r
  | inl _ => ([], [LogProcessError p])
  end.

(** The one record [process_file] logs for a file it returns nothing
    for: the read failed, or the file was found empty before the
    splitter, or the splitter ran and the filter kept nothing. *)
Definition nothing_record (fs : FileSystem) (p : string) : log_record :=
  match fs_read fs p with
  | None => LogProcessError p
  | Some raw =>
      if bool_decide (Py.strip raw = "") then LogFileEmpty p
      else LogFileProcessed p 0
  end.

(** *** [AutoUpdateManager.update_vector_db] *)

Definition update_vector_db (env : Env) (new_chunks : list Document)
    (db : VectorDB) : nat * VectorDB * list log_record :=
  match new_chunks with
  | [] => (0, db, [])
  | _ =>
      match add_documents (env_store_ok env) new_chunks db with
      | inr db' => (length new_chunks, db', [LogChunksAdded (length new_chunks)])
      | inl _ => (0, db, [LogStoreError])
      end
  end.

(** *** [AutoUpdateManager._save_processed_files]

    [open(cache_file, 'w')] empties the file before [json.dump] writes
    into it: a save that fails at [open] leaves the file as it was, one
    that fails later leaves a file that cannot be parsed. *)

Definition save_processed_files (env : Env) (cache : gmap string string)
    (file : option (gmap string string))
    : option (gmap string string) * list log_record :=
  if env_save_ok env then (Some cache, [])
  else (if env_save_tears env then None else file, [LogCacheSaveError]).

(** *** [AutoUpdateManager.run_update] *)

(** What the loop over [new_files] mutates. *)
Record LoopState : Type := {
  ls_all_chunks : list Document;
  ls_stats : Stats;
  ls_cache : gmap string string;
  ls_log : list log_record
}.

(** The [try] block of one iteration. *)
Definition process_one_try (env : Env) (m : Manager) (st : LoopState)
    (f : string * string) : result LoopState :=
  let '(chunks, lg) := process_file env m f.1 f.2 in
  match chunks with
  | [] =>
      mret {| ls_all_chunks := ls_all_chunks st; ls_stats := ls_stats st;
              ls_cache := ls_cache st; ls_log := ls_log st ++ lg |}
  | _ =>
      mret {| ls_all_chunks := ls_all_chunks st ++ chunks;
              ls_stats := stats_add_file f.1 (length chunks) (ls_stats st);
              ls_cache := <[ f.1 := f.2 ]> (ls_cache st);
              ls_log := ls_log st ++ lg |}
  end.

(** One iteration with its handler, which counts an error. *)
Definition process_one (env : Env) (m : Manager) (st : LoopState)
    (f : string * string) : LoopState :=
  match process_one_try env m st f with
  | inr st' => st'
  | inl _ =>
      {| ls_all_chunks := ls_all_chunks st;
         ls_stats := stats_add_error (ls_stats st);
         ls_cache := ls_cache st;
         ls_log := ls_log st ++ [LogFileError f.1] |}
  end.

Fixpoint process_all (env : Env) (m : Manager) (st : LoopState)
    (files : list (string * string)) : LoopState :=
  match files with
  | [] => st
  | f :: rest => process_all env m (process_one env m st f) rest
  end.

(** The state the loop starts from: [all_chunks = []], fresh statistics,
    the cache as the manager holds it. *)
Definition loop_start (m : Manager) (lg : list log_record)
    (found : list (string * string)) : LoopState :=
  {| ls_all_chunks := []; ls_stats := stats_init;
     ls_cache := processed_files_cache m;
     ls_log := lg ++ [LogFound (length found)] |}.

(** The outer [try] block.  [get_index_stats], called last, only reads
    the store and catches what it raises; it is left out. *)
Definition run_update_try (env : Env) (m : Manager)
    : (exn * list log_record) + (Manager * Stats * list log_record) :=
  match scan_for_new_files env m with
  | inl raised => inl raised
  | inr ([], lg) => inr (m, stats_init, lg ++ [LogNoNewFiles])
  | inr (found, lg) =>
      let st := process_all env m (loop_start m lg found) found in
      let '(added, db, lgdb) :=
        match ls_all_chunks st with
        | [] => (chunks_added (ls_stats st), vector_db m, [])
        | all_chunks => update_vector_db env all_chunks (vector_db m)
        end in
      let '(file, lgsave) :=
        save_processed_files env (ls_cache st) (cache_file m) in
      inr ({| script_dir := script_dir m; config := config m;
              processed_files_cache := ls_cache st;
              vector_db := db; cache_file := file |},
           stats_set_chunks_added added (ls_stats st),
           ls_log st ++ lgdb ++ lgsave)
  end.

(** The whole method: the outer handler counts one error, after what
    the scan had logged before it raised. *)
Definition run_update (env : Env) (m : Manager)
    : Manager * Stats * list log_record :=
  match run_update_try env m with
  | inr r => r
  | inl (_, lg) => (m, stats_add_error stats_init, lg ++ [LogCritical])
  end.

(** The fragments one selected file contributes to the run. *)
Definition retained (env : Env) (m : Manager) (f : string * string) : list Document :=
  (process_file env m f.1 f.2).1.

(** The manager after several runs in a row. *)
Fixpoint run_many (envs : list Env) (m : Manager) : Manager :=
  match envs with
  | [] => m
  | env :: rest => run_many rest (run_update env m).1.1
  end.

(** *** [main] of [update_index.py]

    What the surroundings decide at process start and exit. *)
Record Startup : Type := {
  su_script_dir : string;
  su_config : option Config;    (* [None]: missing or not parseable *)
  su_components_ok : bool;      (* logging, embeddings and store open *)
  su_cache_file : option (gmap string string);
  su_vector_db : VectorDB;
  su_results_ok : bool          (* the result file can be written *)
}.

(** [AutoUpdateManager.__init__]; [_load_processed_files] starts from an
    empty cache when the file is absent or corrupt. *)
Definition manager_init (su : Startup) : result Manager :=
  match su_config su with
  | None => raise ConfigError
  | Some cfg =>
      if su_components_ok su
      then mret {| script_dir := su_script_dir su; config := cfg;
                   processed_files_cache := default ∅ (su_cache_file su);
                   vector_db := su_vector_db su;
                   cache_file := su_cache_file su |}
      else raise SetupError
  end.

Definition write_results (su : Startup) (results : Stats) : result () :=
  if su_results_ok su then mret () else raise IOError.

(** The [try] block; its value is the argument of [sys.exit], whose
    [SystemExit] is not an [Exception] and so passes the handler. *)
Definition main_try (su : Startup) (env : Env) : result nat :=
  manager ← manager_init su;
  let results := (run_update env manager).1.2 in
  _ ← write_results su results;
  if bool_decide (0 < errors results) then mret 1 else mret 0.

(** The exit code of the process. *)
Definition main (su : Startup) (env : Env) : nat :=
  match main_try su env with
  | inr code => code
  | inl _ => 1
  end.

(** *** [KnowledgeBaseIndexer] of [build_index.py] *)

(** The document [load_documents] builds for one file; paths are
    relative to the knowledge base. *)
Definition kb_document (base p content : string) : Document :=
  {| page_content := content;
     metadata := {[ "source" := VStr p;
                    "category" := VStr (category p);
                    "filename" := VStr (PathLib.name p);
                    "file_path" := VStr (base +:+ "/" +:+ p);
                    "file_size" := VInt (Py.len content) ]} |}.

(** [f"{doc.metadata['filename']}"] *)
Definition kb_filename (doc : Document) : result string :=
  match metadata doc !! "filename" with
  | Some (VStr s) => mret s
  | Some (VInt n) => mret (Py.str_of_nat n)
  | None => raise KeyError
  end.

(** The splitter of the full build is fixed at size 2000, overlap 200;
    its floor is the constant 10. *)
Definition kb_split_document (doc : Document) : result (list Document) :=
  let chunks := split_documents (RecursiveCharacterTextSplitter 2000 200 separators) [doc] in
  filename ← kb_filename doc;
  mret (tag_chunks filename (length chunks) 10%Z 0 chunks).

(** [KnowledgeBaseIndexer.split_documents]: [self.chunks] after the loop
    over [self.documents]. *)
Fixpoint kb_split_documents (documents : list Document) : result (list Document) :=
  match documents with
  | [] => mret []
  | doc :: rest =>
      filtered ← kb_split_document doc;
      chunks ← kb_split_documents rest;
      mret (filtered ++ chunks)
  end.

End Pipeline.

(** ** The recursive chunker

    The pipeline delegates segmentation to LangChain's
    [RecursiveCharacterTextSplitter], whose code is not part of the
    repository; the algorithm below is the one the specification gives
    for it (section 4.4, steps 1 to 6).  A text is a list of characters.
    Step 1 keeps the separator at the end of its piece; scenario A of
    section 8 has it at the front of the next piece; both splittings are
    given and the accumulation of steps 2 to 5 takes either. *)

Module Chunker.

Definition text : Type := list ascii.

(** Modelled from the spec: the configuration of section 4.4. *)
Record ChunkerConfig : Type := {
  cc_size : nat;                  (* S, the target fragment size *)
  cc_overlap : nat;               (* O, the overlap length *)
  cc_min_size : nat;              (* M, the minimum fragment size *)
  cc_separators : list text       (* from coarsest to finest *)
}.

(** Modelled from the spec: the splitting of step 1, absent from the
    repository.  The text is cut after every occurrence of the
    separator, which stays at the end of its piece; [cur] holds the
    characters of the current piece, last one first.  With the empty
    separator every character is a piece. *)
Fixpoint split_keep (sep_rev cur l : text) : list text :=
  match l with
  | [] => match cur with [] => [] | _ => [reverse cur] end
  | c :: l' =>
      if bool_decide (take (length sep_rev) (c :: cur) = sep_rev)
      then reverse (c :: cur) :: split_keep sep_rev [] l'
      else split_keep sep_rev (c :: cur) l'
  end.

(** Modelled from the spec: step 1, splitting [t] on one separator. *)
Definition split_on (sep t : text) : list text :=
  split_keep (reverse sep) [] t.

(** Modelled from the spec: the splitting that scenario A of section 8
    shows, absent from the repository.  The text is cut before every
    occurrence of the separator, which stays at the front of the piece
    that follows it; [lead] tells whether the current piece starts with
    the separator and [cur] holds the characters read after it, last one
    first. *)
Fixpoint split_lead (sep sep_rev : text) (lead : bool) (cur l : text) : list text :=
  let piece body := (if lead then sep else []) ++ reverse body in
  match l with
  | [] => match piece cur with [] => [] | whole => [whole] end
  | c :: l' =>
      if bool_decide (take (length sep_rev) (c :: cur) = sep_rev)
      then match piece (drop (length sep_rev) (c :: cur)) with
           | [] => split_lead sep sep_rev true [] l'
           | before => before :: split_lead sep sep_rev true [] l'
           end
      else split_lead sep sep_rev lead (c :: cur) l'
  end.

Definition split_before (sep t : text) : list text :=
  match sep with
  | [] => (λ c, [c]) <$> t
  | _ => split_lead sep (reverse sep) false [] t
  end.

(** Modelled from the spec: the trailing slice of step 4, of length [o]
    or the whole fragment when it is shorter. *)
Definition tail_slice (o : nat) (frag : text) : text :=
  drop (length frag - o) frag.

(** The working buffer and the fragments closed so far. *)
Record Acc : Type := {
  buffer : text;
  closed : list text
}.

Definition acc_init : Acc := {| buffer := []; closed := [] |}.

(** Modelled from the spec: steps 2 and 4, absent from the repository.
    Before a piece is appended, a non-empty buffer it would push over
    [size] is closed as a fragment and the next buffer is seeded with
    the trailing slice of that fragment. *)
Definition close_if_full (size overlap : nat) (piece : text) (a : Acc) : Acc :=
  if bool_decide (size < length (buffer a) + length piece)
     && bool_decide (buffer a ≠ [])
  then {| buffer := tail_slice overlap (buffer a);
          closed := closed a ++ [buffer a] |}
  else a.

(** Modelled from the spec: step 2, appending a piece to the buffer. *)
Definition append_piece (piece : text) (a : Acc) : Acc :=
  {| buffer := buffer a ++ piece; closed := closed a |}.

(** Modelled from the spec: steps 1 to 3, absent from the repository.
    The pieces of [t] on the first separator are accumulated in order;
    a piece longer than [size] is split further on the next separator;
    when no separator is left the piece is taken whole.  [split] is the
    splitting of step 1. *)
Fixpoint accumulate (split : text → text → list text) (size overlap : nat)
    (seps : list text) (t : text) (a : Acc) : Acc :=
  match seps with
  | [] => append_piece t a
  | sep :: seps' =>
      foldl (λ a piece,
               let a' := close_if_full size overlap piece a in
               if bool_decide (size < length piece)
               then accumulate split size overlap seps' piece a'
               else append_piece piece a')
            a (split sep t)
  end.

(** Modelled from the spec: step 5, closing the final non-empty buffer. *)
Definition finish (a : Acc) : list text :=
  match buffer a with
  | [] => closed a
  | _ => closed a ++ [buffer a]
  end.

(** Modelled from the spec: the segmentation of one document, steps 1
    to 5, for a given splitting of step 1. *)
Definition segment_with (split : text → text → list text)
    (cfg : ChunkerConfig) (t : text) : list text :=
  finish (accumulate split (cc_size cfg) (cc_overlap cfg) (cc_separators cfg)
            t acc_init).

(** Modelled from the spec: the segmentation with step 1 as it is
    written, the separator kept at the end of its piece. *)
Definition segment (cfg : ChunkerConfig) (t : text) : list text :=
  segment_with split_on cfg t.

Definition trimmed_length (frag : text) : nat :=
  length (Py.rstrip_chars (Py.lstrip_chars frag)).

(** Modelled from the spec: step 6, the filter applied to the finished
    segmentation. *)
Definition chunk (cfg : ChunkerConfig) (t : text) : list text :=
  filter (λ frag, cc_min_size cfg ≤ trimmed_length frag) (segment cfg t).

(** The overlap relation between a fragment and its successor. *)
Definition overlaps (o : nat) (frag next : text) : Prop :=
  tail_slice o frag = take (min o (length frag)) next.

(** Every fragment of the list overlaps its successor. *)
Fixpoint chained (o : nat) (frags : list text) : Prop :=
  match frags with
  | frag :: ((next :: _) as rest) => overlaps o frag next ∧ chained o rest
  | _ => True
  end.

(** What holds of the accumulator throughout: the closed fragments are
    chained, and the buffer starts with the trailing slice of the last
    of them. *)
Definition acc_ok (overlap : nat) (a : Acc) : Prop :=
  chained overlap (closed a)
  ∧ ∀ frag, last (closed a) = Some frag → tail_slice overlap frag `prefix_of` buffer a.

(** The chunker as a splitter of strings, in the shape the pipeline
    expects of its splitter. *)
Definition splitter (size overlap : nat) (seps : list string) (s : string)
    : list string :=
  string_of_list_ascii <$>
    segment {| cc_size := size; cc_overlap := overlap; cc_min_size := 0;
               cc_separators := list_ascii_of_string <$> seps |}
            (list_ascii_of_string s).

End Chunker.

(** ** The scheduler ([scheduler.py])

    [interval_worker] runs on its own thread and shares the flag
    [self.running] with the thread that calls [stop].  The worker is a
    transition system over its program points; the surroundings decide
    whether the cycle in flight raises. *)

Module Scheduler.

Inductive point : Type :=
| AtWhile            (* about to test [while self.running] *)
| InCycle            (* inside the [try], from [run_update_script()] to
                        the evaluation of [range(interval_seconds)] *)
| AtFor (k : nat)    (* about to start one of the [k] iterations left *)
| InSleep (k : nat)  (* inside [time.sleep(1)], [k] iterations left after it *)
| InPause            (* inside [time.sleep(60)] of the handler *)
| Returned.          (* the worker function has returned *)

Inductive event : Type :=
| CycleStarted
| CycleFinished
| ExceptionCaught
| Slept (seconds : nat).

Global Instance point_eq_dec : EqDecision point.
Proof. solve_decision. Defined.
Global Instance event_eq_dec : EqDecision event.
Proof. solve_decision. Defined.

Record UpdateScheduler : Type := {
  running : bool;
  interval_seconds : nat;     (* interval_minutes * 60 *)
  at_point : point
}.

Definition goto (s : UpdateScheduler) (p : point) : UpdateScheduler :=
  {| running := running s; interval_seconds := interval_seconds s; at_point := p |}.

(** One step of [interval_worker]; [raises] tells whether the cycle in
    flight ends with an exception. *)
Definition worker_step (raises : bool) (s : UpdateScheduler)
    : UpdateScheduler * list event :=
  match at_point s with
  | AtWhile =>
      if running s then (goto s InCycle, [CycleStarted]) else (goto s Returned, [])
  | InCycle =>
      if raises then (goto s InPause, [ExceptionCaught])
      else (goto s (AtFor (interval_seconds s)), [CycleFinished])
  | AtFor 0 => (goto s AtWhile, [])
  | AtFor (S k) =>
      if running s then (goto s (InSleep k), []) else (goto s AtWhile, [])
  | InSleep k => (goto s (AtFor k), [Slept 1])
  | InPause => (goto s AtWhile, [Slept 60])
  | Returned => (s, [])
  end.

(** [UpdateScheduler.stop], seen from the worker: the flag is cleared. *)
Definition stop (s : UpdateScheduler) : UpdateScheduler :=
  if running s
  then {| running := false; interval_seconds := interval_seconds s;
          at_point := at_point s |}
  else s.

(** What happens next: the worker moves, or the other thread stops it. *)
Inductive action : Type :=
| Worker (raises : bool)
| Stop.

Fixpoint exec (acts : list action) (s : UpdateScheduler)
    : UpdateScheduler * list event :=
  match acts with
  | [] => (s, [])
  | Worker raises :: rest =>
      let '(s', evs) := worker_step raises s in
      let '(s'', evs') := exec rest s' in
      (s'', evs ++ evs')
  | Stop :: rest => exec rest (stop s)
  end.

(** The worker left alone for [n] steps, no cycle raising. *)
Definition run_quiet (n : nat) (s : UpdateScheduler) : UpdateScheduler * list event :=
  exec (replicate n (Worker false)) s.

(** Seconds slept in a trace. *)
Fixpoint slept (evs : list event) : nat :=
  match evs with
  | [] => 0
  | Slept n :: rest => n + slept rest
  | _ :: rest => slept rest
  end.

Definition cycles_started (evs : list event) : nat :=
  length (filter (λ e, e = CycleStarted) evs).

End Scheduler.

(** ** A small knowledge base, used by the examples *)

Module Sample.

Definition nl : string := String "010" "".

(** A stand-in for the digest in the examples. *)
Definition digest (data : string) : string := "md5:" +:+ data.

Definition guide : string :=
  "Alpha alpha alpha." +:+ nl +:+ nl +:+ "B." +:+ nl +:+ nl +:+ "Gamma gamma gamma.".

Definition cfg : Config :=
  {| local_folders :=
       [ {| fc_path := Some "docs"; fc_enabled := None; fc_watch_extensions := None |} ];
     chunk_size := Some 20; chunk_overlap := Some 2; min_chunk_size := None |}.

(** One ordinary file, one holding only white space, one that cannot
    be read, one too short to keep, and a directory with a watched
    suffix. *)
Definition fs : FileSystem :=
  {| fs_walk := λ folder,
       if bool_decide (folder = "docs")
       then Some [("docs/guide.txt", true); ("docs/empty.txt", true);
                  ("docs/locked.txt", true); ("docs/tiny.md", true);
                  ("docs/old.txt", false)]
       else None;
     fs_read := λ p,
       if bool_decide (p = "docs/guide.txt") then Some guide
       else if bool_decide (p = "docs/empty.txt") then Some ("  " +:+ nl)
       else if bool_decide (p = "docs/tiny.md") then Some "Hi."
       else None |}.

Definition env : Env :=
  {| env_fs := fs; env_now := "2025-01-01T06:00:00";
     env_store_ok := true; env_save_ok := true;
     env_save_tears := false |}.

Definition empty_db : VectorDB := {| db_entries := []; db_next_id := 0 |}.

Definition manager : Manager :=
  {| script_dir := "/srv/task6"; config := cfg; processed_files_cache := ∅;
     vector_db := empty_db; cache_file := None |}.

Definition run (e : Env) (m : Manager) : Manager * Stats * list log_record :=
  run_update Chunker.splitter digest e m.

(** The same files a day later, and the same files after [guide.txt] has
    been edited. *)
Definition env_later : Env :=
  {| env_fs := fs; env_now := "2025-01-02T06:00:00";
     env_store_ok := true; env_save_ok := true;
     env_save_tears := false |}.

Definition fs_edited : FileSystem :=
  {| fs_walk := fs_walk fs;
     fs_read := λ p,
       if bool_decide (p = "docs/guide.txt") then Some (guide +:+ " Delta.")
       else fs_read fs p |}.

Definition env_edited : Env :=
  {| env_fs := fs_edited; env_now := "2025-01-02T06:00:00";
     env_store_ok := true; env_save_ok := true;
     env_save_tears := false |}.

Definition startup : Startup :=
  {| su_script_dir := "/srv/task6"; su_config := Some cfg;
     su_components_ok := true; su_cache_file := None;
     su_vector_db := empty_db; su_results_ok := true |}.

(** The document and the configuration of scenario A. *)
Definition scenario_a : Chunker.text :=
  list_ascii_of_string ("Alpha." +:+ nl +:+ nl +:+ "Beta." +:+ nl +:+ nl +:+ "Gamma.").

Definition scenario_a_cfg : Chunker.ChunkerConfig :=
  {| Chunker.cc_size := 12; Chunker.cc_overlap := 3; Chunker.cc_min_size := 1;
     Chunker.cc_separators := [list_ascii_of_string (nl +:+ nl); []] |}.

(** A splitter that returns one long fragment whatever it is given. *)
Definition one_fragment : nat → nat → list string → string → list string :=
  λ _ _ _ _, ["one fragment, long enough to be kept"].

End Sample.

(** * Further code of [Task6] *)

(** ** More of Python's strings *)

Module PyStr.

Definition newline : ascii := "010"%char.

(** [sub in s] *)
Fixpoint contains (sub s : string) : bool :=
  String.prefix sub s
  || match s with
     | EmptyString => false
     | String _ s' => contains sub s'
     end.

(** [s.split('\n')] *)
Fixpoint split_lines (s : string) : list string :=
  match s with
  | EmptyString => [EmptyString]
  | String c s' =>
      if Ascii.eqb c newline then EmptyString :: split_lines s'
      else match split_lines s' with
           | line :: rest => String c line :: rest
           | [] => [String c EmptyString]
           end
  end.

(** ['\n'.join(lines)] *)
Fixpoint join_lines (lines : list string) : string :=
  match lines with
  | [] => EmptyString
  | [line] => line
  | line :: rest => line +:+ String newline (join_lines rest)
  end.

(** A text without a line break. *)
Definition one_line (s : string) : Prop := contains (String newline EmptyString) s = false.

(** [path.relative_to(base)] on paths written with ["/"]: what follows
    [base/], and [None] for the [ValueError] of a path that does not lie
    below [base]. *)
Fixpoint strip_prefix (pre s : string) : option string :=
  match pre, s with
  | EmptyString, _ => Some s
  | String a pre', String b s' =>
      if Ascii.eqb a b then strip_prefix pre' s' else None
  | String _ _, EmptyString => None
  end.

Definition relative_to (base p : string) : option string :=
  strip_prefix (base +:+ "/") p.

End PyStr.

(** ** [KnowledgeBaseIndexer.load_documents] of [build_index.py] *)

Module KnowledgeBase.

(** The warning printed for a file that could not be loaded. *)
Inductive kb_log : Type :=
| LoadError (p : string).

(** The loop over [knowledge_base_path.rglob("*.txt")]; the entries come
    with their path from the script directory and are recorded under
    their path from the knowledge base. *)
Fixpoint load_entries (fs : FileSystem) (base : string)
    (entries : list (string * bool)) : list Document * list kb_log :=
  match entries with
  | [] => ([], [])
  | (q, is_file) :: rest =>
      let '(docs, lg) := load_entries fs base rest in
      if Py.endswith (PathLib.name q) ".txt" && is_file then
        match fs_read fs q with
        | None => (docs, LoadError q :: lg)
        | Some raw =>
            let content := Py.strip raw in
            if bool_decide (content = "") then (docs, lg)
            else match PyStr.relative_to base q with
                 | None => (docs, LoadError q :: lg)
                 | Some rel => (kb_document base rel content :: docs, lg)
                 end
        end
      else (docs, lg)
  end.

(** [self.documents] after [load_documents]; a knowledge base that does
    not exist has nothing to walk. *)
Definition load_documents (fs : FileSystem) (base : string)
    : list Document * list kb_log :=
  match fs_walk fs base with
  | Some entries => load_entries fs base entries
  | None => ([], [])
  end.

End KnowledgeBase.

(** ** [SimpleAutoUpdateManager] of [update_index_simple.py]

    The simple manager shares the scan and the cache file with
    [AutoUpdateManager]; instead of cutting a new file itself it copies it
    into [knowledge_base/incoming] and starts the full build. *)

Module Simple.

(** [incoming] is the folder [knowledge_base/incoming]: the content of
    each file in it, by file name. *)
Record SimpleAutoUpdateManager : Type := {
  config : Config;
  processed_files_cache : gmap string string;
  incoming : gmap string string;
  cache_file : option (gmap string string)
}.

Record Env : Type := {
  env_fs : FileSystem;
  env_mkdir_ok : bool;            (* [knowledge_base/incoming] can be made *)
  env_write_ok : string → bool;   (* the copy of that name can be written *)
  env_build_ok : bool;            (* [run_build_index()] returns [True] *)
  env_save_ok : bool;             (* the cache file can be written *)
  env_save_tears : bool           (* a save that fails has emptied the file *)
}.

Inductive log_record : Type :=
| LogFileEmpty (p : string)       (* warning *)
| LogCopied (p name : string)     (* info *)
| LogFileError (p : string).      (* error *)

Record Stats : Type := {
  files_processed : nat;
  files_copied : nat;
  index_updated : bool;
  errors : nat;
  new_files : list string
}.

Definition stats_init : Stats :=
  {| files_processed := 0; files_copied := 0; index_updated := false;
     errors := 0; new_files := [] |}.

(** What the copy loop mutates. *)
Record CopyState : Type := {
  cs_cache : gmap string string;
  cs_incoming : gmap string string;
  cs_copied : nat;
  cs_log : list log_record
}.

(** One iteration of the loop of [copy_files_to_knowledge_base], with
    its handler. *)
Definition copy_one (env : Env) (st : CopyState) (f : string * string) : CopyState :=
  let failed :=
    {| cs_cache := cs_cache st; cs_incoming := cs_incoming st;
       cs_copied := cs_copied st; cs_log := cs_log st ++ [LogFileError f.1] |} in
  match fs_read (env_fs env) f.1 with
  | None => failed
  | Some raw =>
      let content := Py.strip raw in
      if bool_decide (content = "")
      then {| cs_cache := cs_cache st; cs_incoming := cs_incoming st;
              cs_copied := cs_copied st; cs_log := cs_log st ++ [LogFileEmpty f.1] |}
      else
        let name := PathLib.name f.1 in
        if env_write_ok env name
        then {| cs_cache := <[ f.1 := f.2 ]> (cs_cache st);
                cs_incoming := <[ name := content ]> (cs_incoming st);
                cs_copied := cs_copied st + 1;
                cs_log := cs_log st ++ [LogCopied f.1 name] |}
        else failed
  end.

Fixpoint copy_all (env : Env) (st : CopyState) (files : list (string * string))
    : CopyState :=
  match files with
  | [] => st
  | f :: rest => copy_all env (copy_one env st f) rest
  end.

(** The files the loop copies: readable, more than white space, and the
    copy can be written. *)
Definition copies (env : Env) (f : string * string) : bool :=
  match fs_read (env_fs env) f.1 with
  | Some raw =>
      negb (bool_decide (Py.strip raw = "")) && env_write_ok env (PathLib.name f.1)
  | None => false
  end.

Definition copy_start (m : SimpleAutoUpdateManager) : CopyState :=
  {| cs_cache := processed_files_cache m; cs_incoming := incoming m;
     cs_copied := 0; cs_log := [] |}.

(** [copy_files_to_knowledge_base(new_files)]: [cs_copied] is what it
    returns.  It raises when the target folder cannot be made. *)
Definition copy_files_to_knowledge_base (env : Env) (m : SimpleAutoUpdateManager)
    (found : list (string * string)) : result CopyState :=
  match found with
  | [] => mret (copy_start m)
  | _ =>
      if env_mkdir_ok env then mret (copy_all env (copy_start m) found)
      else raise IOError
  end.

Section SimpleRun.

Variable md5_hexdigest : string → string.

(** [SimpleAutoUpdateManager.run_update]: the manager and the statistics
    it returns. *)
Definition run_update (env : Env) (m : SimpleAutoUpdateManager)
    : SimpleAutoUpdateManager * Stats :=
  match scan_folders md5_hexdigest (env_fs env) (processed_files_cache m)
          (local_folders (config m)) with
  | inl _ =>
      (m, {| files_processed := 0; files_copied := 0; index_updated := false;
             errors := 1; new_files := [] |})
  | inr ([], _) => (m, stats_init)
  | inr (found, _) =>
      match copy_files_to_knowledge_base env m found with
      | inl _ =>
          (m, {| files_processed := 0; files_copied := 0; index_updated := false;
                 errors := 1; new_files := [] |})
      | inr st =>
          let built := bool_decide (0 < cs_copied st) && env_build_ok env in
          ({| config := config m;
              processed_files_cache := cs_cache st;
              incoming := cs_incoming st;
              cache_file :=
                if env_save_ok env then Some (cs_cache st)
                else if env_save_tears env then None else cache_file m |},
           {| files_processed := length found;
              files_copied := cs_copied st;
              index_updated := built;
              errors := if built then 0 else 1;
              new_files := found.*1 |})
      end
  end.

End SimpleRun.

(** The manager of the next process: [__init__] reads the cache back
    from its file, and starts empty when there is none. *)
Definition reload (m : SimpleAutoUpdateManager) : SimpleAutoUpdateManager :=
  {| config := config m;
     processed_files_cache := default ∅ (cache_file m);
     incoming := incoming m;
     cache_file := cache_file m |}.

End Simple.

(** ** The command line of [scheduler.py] *)

Module Cli.

Definition marker : string := "Auto-update RAG index".
Definition script_name : string := "update_index.py".

(** [UpdateScheduler.generate_cron_entry]; [expression] is the
    [cron_expression] of the configuration, [None] when the key is
    missing. *)
Definition generate_cron_entry (expression : option string)
    (script_dir executable : string) : string :=
  default "0 6 * * *" expression +:+ " cd " +:+ script_dir +:+ " && "
  +:+ executable +:+ " " +:+ (script_dir +:+ "/" +:+ script_name)
  +:+ " >> " +:+ (script_dir +:+ "/logs/cron.log") +:+ " 2>&1".

(** What the host decides: [os.name], whether the [crontab] command can
    be started at all, and whether [crontab -] accepts its input. *)
Record Host : Type := {
  posix : bool;
  crontab_starts : bool;
  crontab_accepts : bool
}.

(** The text [install_cron] appends. *)
Definition installed_lines (entry : string) : string :=
  String PyStr.newline ("# " +:+ marker) +:+ String PyStr.newline entry
  +:+ String PyStr.newline EmptyString.

(** [UpdateScheduler.install_cron]: its result and the crontab it leaves.
    The crontab is [None] while [crontab -l] exits with an error. *)
Definition install_cron (host : Host) (entry : string) (crontab : option string)
    : bool * option string :=
  if negb (posix host) then (false, crontab)
  else if negb (crontab_starts host) then (false, crontab)
  else
    let current_crontab := default EmptyString crontab in
    if PyStr.contains script_name current_crontab then (true, crontab)
    else
      let new_crontab := current_crontab +:+ installed_lines entry in
      if crontab_accepts host then (true, Some new_crontab) else (false, crontab).

(** The loop of [remove_cron] over the lines, with its flag. *)
Fixpoint remove_lines (skip_next : bool) (lines : list string) : list string :=
  match lines with
  | [] => []
  | line :: rest =>
      if PyStr.contains marker line then remove_lines true rest
      else if skip_next && PyStr.contains script_name line then remove_lines false rest
      else if negb (PyStr.contains script_name line)
           then line :: remove_lines skip_next rest
           else remove_lines skip_next rest
  end.

(** [UpdateScheduler.remove_cron] *)
Definition remove_cron (host : Host) (crontab : option string)
    : bool * option string :=
  if negb (posix host) then (false, crontab)
  else if negb (crontab_starts host) then (false, crontab)
  else
    match crontab with
    | None => (true, None)
    | Some current_crontab =>
        let new_crontab :=
          PyStr.join_lines (remove_lines false (PyStr.split_lines current_crontab)) in
        if crontab_accepts host then (true, Some new_crontab) else (false, crontab)
    end.

(** How the subprocess of [run_update_script] ended. *)
Inductive script_outcome : Type :=
| Exited (code : nat)
| TimedOut
| LaunchFailed.

Inductive log_record : Type :=
| LogStarting
| LogSucceeded
| LogFailed (code : nat)
| LogTimeout
| LogLaunchError.

(** [UpdateScheduler.run_update_script]: it returns nothing, and logs. *)
Definition run_update_script (outcome : script_outcome) : list log_record :=
  match outcome with
  | Exited 0 => [LogStarting; LogSucceeded]
  | Exited code => [LogStarting; LogFailed code]
  | TimedOut => [LogStarting; LogTimeout]
  | LaunchFailed => [LogStarting; LogLaunchError]
  end.

Inductive command : Type :=
| RunOnce
| StartInterval
| InstallCron
| RemoveCron
| ShowCron.

(** [main] of [scheduler.py] once the scheduler object exists: the exit
    code of the process, what it logged and the crontab it leaves.
    [start-interval] is taken at the point where the loop has been
    stopped. *)
Definition main (cmd : command) (host : Host) (entry : string)
    (outcome : script_outcome) (crontab : option string)
    : nat * list log_record * option string :=
  match cmd with
  | RunOnce => (0, run_update_script outcome, crontab)
  | StartInterval => (0, [], crontab)
  | InstallCron =>
      let r := install_cron host entry crontab in
      (if r.1 then 0 else 1, [], r.2)
  | RemoveCron =>
      let r := remove_cron host crontab in
      (if r.1 then 0 else 1, [], r.2)
  | ShowCron => (0, [], crontab)
  end.

End Cli.

(** ** Notions used to state what the scan does *)

(** A folder the scan walks: enabled, with a path. *)
Definition folder_enabled (fc : FolderConfig) : Prop :=
  default true (fc_enabled fc) = true.


(** A path the scan looks at: a regular file below an enabled folder
    that exists, whose name ends with one of the folder's extensions. *)
Definition watched (fs : FileSystem) (folders : list FolderConfig) (p : string) : Prop :=
  ∃ fc folder entries ext,
    fc ∈ folders ∧ folder_enabled fc ∧ fc_path fc = Some folder
    ∧ fs_walk fs folder = Some entries ∧ (p, true) ∈ entries
    ∧ ext ∈ default [".txt"; ".md"] (fc_watch_extensions fc)
    ∧ Py.endswith (PathLib.name p) ext = true.

(** ** Notions used to state what a run does *)

(** The selected files that contribute fragments to the run. *)
Definition contributing
    (Splitter : nat → nat → list string → string → list string)
    (env : Env) (m : Manager) (found : list (string * string))
    : list (string * string) :=
  filter (λ f, retained Splitter env m f ≠ []) found.

(** The start of the next process: it finds the cache file and the
    vector store as the manager of the last one left them. *)
Definition restart (su : Startup) (m : Manager) : Startup :=
  {| su_script_dir := su_script_dir su; su_config := su_config su;
     su_components_ok := su_components_ok su;
     su_cache_file := cache_file m; su_vector_db := vector_db m;
     su_results_ok := su_results_ok su |}.

(** ** More fixtures for the examples *)

Module Fixtures.







(** A run of the sample during which the vector store is down. *)
Definition env_store_down : Env :=
  {| env_fs := Sample.fs; env_now := "2025-01-01T06:00:00";
     env_store_ok := false; env_save_ok := true;
     env_save_tears := false |}.

(** A run of the sample whose save fails after the cache file has been
    opened for writing. *)
Definition env_save_torn : Env :=
  {| env_fs := Sample.fs; env_now := "2025-01-01T06:00:00";
     env_store_ok := true; env_save_ok := false; env_save_tears := true |}.

(** A cache that remembers a file that is no longer there. *)
Definition manager_stale : Manager :=
  {| script_dir := "/srv/task6"; config := Sample.cfg;
     processed_files_cache := {[ "docs/gone.txt" := "md5:gone" ]};
     vector_db := Sample.empty_db; cache_file := None |}.

(** A knowledge base for the full build: one file in a category, one
    holding only white space, one that cannot be read, one that is no
    [.txt] file and a directory named like one. *)
Definition kb_fs : FileSystem :=
  {| fs_walk := λ folder,
       if bool_decide (folder = "knowledge_base")
       then Some [("knowledge_base/heroes/xarn.txt", true);
                  ("knowledge_base/blank.txt", true);
                  ("knowledge_base/locked.txt", true);
                  ("knowledge_base/notes.md", true);
                  ("knowledge_base/old.txt", false)]
       else None;
     fs_read := λ p,
       if bool_decide (p = "knowledge_base/heroes/xarn.txt")
       then Some ("  Xarn Velgor commands the Synth Flux." +:+ Sample.nl)
       else if bool_decide (p = "knowledge_base/blank.txt") then Some (" " +:+ Sample.nl)
       else if bool_decide (p = "knowledge_base/notes.md") then Some "Notes."
       else None |}.

(** Two watched folders that each hold a file named [guide.txt]. *)
Definition cfg_twins : Config :=
  {| local_folders :=
       [ {| fc_path := Some "docs"; fc_enabled := None; fc_watch_extensions := None |};
         {| fc_path := Some "notes"; fc_enabled := None; fc_watch_extensions := None |} ];
     chunk_size := Some 20; chunk_overlap := Some 2; min_chunk_size := None |}.

Definition fs_twins : FileSystem :=
  {| fs_walk := λ folder,
       if bool_decide (folder = "docs") then Some [("docs/guide.txt", true)]
       else if bool_decide (folder = "notes") then Some [("notes/guide.txt", true)]
       else None;
     fs_read := λ p,
       if bool_decide (p = "docs/guide.txt") then Some Sample.guide
       else if bool_decide (p = "notes/guide.txt") then Some "Notes of the same name."
       else None |}.

Definition env_twins : Env :=
  {| env_fs := fs_twins; env_now := "2025-01-01T06:00:00";
     env_store_ok := true; env_save_ok := true;
     env_save_tears := false |}.

Definition manager_twins : Manager :=
  {| script_dir := "/srv/task6"; config := cfg_twins; processed_files_cache := ∅;
     vector_db := Sample.empty_db; cache_file := None |}.

(** The sample configuration with its folder listed twice. *)
Definition docs_folder : FolderConfig :=
  {| fc_path := Some "docs"; fc_enabled := None; fc_watch_extensions := None |}.

Definition manager_doubled : Manager :=
  {| script_dir := "/srv/task6";
     config := {| local_folders := [docs_folder] ++ [docs_folder];
                  chunk_size := Some 20; chunk_overlap := Some 2;
                  min_chunk_size := None |};
     processed_files_cache := ∅;
     vector_db := Sample.empty_db; cache_file := None |}.

Definition simple_manager : Simple.SimpleAutoUpdateManager :=
  {| Simple.config := cfg_twins; Simple.processed_files_cache := ∅;
     Simple.incoming := ∅; Simple.cache_file := None |}.

(** A run of the simple manager during which the full build fails. *)
Definition simple_env_build_fails : Simple.Env :=
  {| Simple.env_fs := fs_twins; Simple.env_mkdir_ok := true;
     Simple.env_write_ok := λ _, true; Simple.env_build_ok := false;
     Simple.env_save_ok := true; Simple.env_save_tears := false |}.

Definition simple_env : Simple.Env :=
  {| Simple.env_fs := fs_twins; Simple.env_mkdir_ok := true;
     Simple.env_write_ok := λ _, true; Simple.env_build_ok := true;
     Simple.env_save_ok := true; Simple.env_save_tears := false |}.

(** A crontab with one job of its own, and a host on which [crontab]
    works. *)
Definition crontab_before : string :=
  "0 3 * * * /usr/bin/backup" +:+ Sample.nl.

Definition host_ok : Cli.Host :=
  {| Cli.posix := true; Cli.crontab_starts := true; Cli.crontab_accepts := true |}.

Definition cron_entry : string :=
  Cli.generate_cron_entry None "/srv/task6" "/usr/bin/python3".

End Fixtures.

(** * Properties *)

(** ** The tagging loop *)

Section Tagging.

Lemma chunk_id_of_update id i total chunk :
  chunk_id_of (metadata_update (chunk_fields id i total) chunk) = Some (VStr id).
Proof.
  unfold chunk_id_of, metadata_update, chunk_fields; simpl.
  apply lookup_union_Some_l. by rewrite lookup_insert_eq.
Qed.

Lemma chunk_index_of_update id i total chunk :
  chunk_index_of (metadata_update (chunk_fields id i total) chunk) = Some (VInt i).
Proof.
  unfold chunk_index_of, metadata_update, chunk_fields; simpl.
  apply lookup_union_Some_l.
  rewrite lookup_insert_ne by done. by rewrite lookup_insert_eq.
Qed.

Lemma total_chunks_of_update id i total chunk :
  total_chunks_of (metadata_update (chunk_fields id i total) chunk) = Some (VInt total).
Proof.
  unfold total_chunks_of, metadata_update, chunk_fields; simpl.
  apply lookup_union_Some_l.
  do 2 (rewrite lookup_insert_ne by done). by rewrite lookup_singleton_eq.
Qed.

(** The output of the loop is exactly the long-enough chunks, each
    tagged with its position in the input. *)
Lemma elem_of_tag_chunks prefix total min_size chunks : ∀ i d,
  d ∈ tag_chunks prefix total min_size i chunks ↔
  ∃ j chunk, chunks !! j = Some chunk ∧ long_enough min_size chunk = true
             ∧ d = tagged prefix total (i + j) chunk.
Proof.
  induction chunks as [|c rest IH]; intros i d; simpl.
  - split; [by intros ?%elem_of_nil | by intros (j & ? & ? & _)].
  - destruct (long_enough min_size c) eqn:Hc.
    + rewrite elem_of_cons, IH. split.
      * intros [-> | (j & chunk & Hj & Hl & ->)].
        -- exists 0, c. by rewrite Nat.add_0_r.
        -- exists (S j), chunk. by rewrite Nat.add_succ_r.
      * intros ([|j] & chunk & Hj & Hl & ->); simpl in Hj.
        -- left. injection Hj as <-. by rewrite Nat.add_0_r.
        -- right. exists j, chunk. by rewrite Nat.add_succ_r.
    + rewrite IH. split.
      * intros (j & chunk & Hj & Hl & ->).
        exists (S j), chunk. by rewrite Nat.add_succ_r.
      * intros ([|j] & chunk & Hj & Hl & ->); simpl in Hj.
        -- injection Hj as <-. congruence.
        -- exists j, chunk. by rewrite Nat.add_succ_r.
Qed.

Lemma str_of_nat_inj i j : Py.str_of_nat i = Py.str_of_nat j → i = j.
Proof. unfold Py.str_of_nat. apply pretty_nat_inj. Qed.

Lemma chunk_id_inj prefix i j :
  prefix +:+ "_" +:+ Py.str_of_nat i = prefix +:+ "_" +:+ Py.str_of_nat j → i = j.
Proof. intros H. by apply String.app_inj, String.app_inj, str_of_nat_inj in H. Qed.

(** The identifiers written by one pass of the loop are pairwise
    different. *)
Lemma tag_chunks_ids_NoDup prefix total min_size chunks : ∀ i,
  NoDup (chunk_id_of <$> tag_chunks prefix total min_size i chunks).
Proof.
  induction chunks as [|c rest IH]; intros i; simpl; [constructor|].
  destruct (long_enough min_size c); [|apply IH].
  rewrite fmap_cons. constructor; [|apply IH].
  unfold tagged at 1. rewrite chunk_id_of_update. intros (d & Hid & Hd)%list_elem_of_fmap.
  apply elem_of_tag_chunks in Hd as (j & chunk & _ & _ & ->).
  unfold tagged in Hid. rewrite chunk_id_of_update in Hid.
  injection Hid as Hid. apply chunk_id_inj in Hid. lia.
Qed.

Lemma tag_chunks_ids prefix total min_size chunks : ∀ i,
  chunk_id_of <$> tag_chunks prefix total min_size i chunks
  = (λ j, Some (VStr (prefix +:+ "_" +:+ Py.str_of_nat j)))
      <$> kept_positions min_size i (page_content <$> chunks).
Proof.
  induction chunks as [|c rest IH]; intros i; simpl; [done|].
  unfold long_enough. case_bool_decide; simpl; [|apply IH].
  unfold tagged at 1. rewrite chunk_id_of_update. f_equal. apply IH.
Qed.

Lemma tag_chunks_indices prefix total min_size chunks : ∀ i,
  chunk_index_of <$> tag_chunks prefix total min_size i chunks
  = (λ j, Some (VInt j)) <$> kept_positions min_size i (page_content <$> chunks).
Proof.
  induction chunks as [|c rest IH]; intros i; simpl; [done|].
  unfold long_enough. case_bool_decide; simpl; [|apply IH].
  unfold tagged at 1. rewrite chunk_index_of_update. f_equal. apply IH.
Qed.

Lemma tag_chunks_totals prefix total min_size chunks : ∀ i,
  Forall (λ d, total_chunks_of d = Some (VInt total))
         (tag_chunks prefix total min_size i chunks).
Proof.
  induction chunks as [|c rest IH]; intros i; simpl; [constructor|].
  destruct (long_enough min_size c); [|apply IH].
  constructor; [apply total_chunks_of_update | apply IH].
Qed.

(** The texts that leave the loop are the texts that pass the filter,
    in their order. *)
Lemma tag_chunks_texts prefix total min_size chunks : ∀ i,
  page_content <$> tag_chunks prefix total min_size i chunks
  = filter (λ t, (min_size ≤ Z.of_nat (Py.len (Py.strip t)))%Z)
           (page_content <$> chunks).
Proof.
  induction chunks as [|c rest IH]; intros i; simpl; [done|].
  unfold long_enough. rewrite filter_cons.
  case_bool_decide as Hc; rewrite decide_bool_decide;
    [rewrite bool_decide_eq_true_2 by done | rewrite bool_decide_eq_false_2 by done];
    simpl; [f_equal|]; apply IH.
Qed.

Lemma kept_positions_texts min_size pieces : ∀ i,
  Forall2 (λ j t, pieces !! (j - i) = Some t)
    (kept_positions min_size i pieces)
    (filter (λ t, (min_size ≤ Z.of_nat (Py.len (Py.strip t)))%Z) pieces).
Proof.
  induction pieces as [|t rest IH]; intros i; simpl; [constructor|].
  rewrite filter_cons.
  assert (Hshift : ∀ l l', Forall2 (λ j t0, rest !! (j - S i) = Some t0) l l' →
                           Forall (λ j, S i ≤ j) l →
                           Forall2 (λ j t0, (t :: rest) !! (j - i) = Some t0) l l').
  { intros l l' H2 Hge. induction H2 as [|j t0 l l' Hj H2 IH2]; [constructor|].
    apply Forall_cons in Hge as [Hji Hge]. constructor; [|by apply IH2].
    replace (j - i) with (S (j - S i)) by lia. done. }
  assert (Hge : ∀ l k, Forall (λ j, k ≤ j) (kept_positions min_size k l)).
  { clear. intros l. induction l as [|t rest IH]; intros k; simpl; [constructor|].
    assert (Forall (λ j, k ≤ j) (kept_positions min_size (S k) rest)).
    { eapply Forall_impl; [apply IH|]. simpl; lia. }
    case_bool_decide; [constructor|]; done. }
  case_bool_decide as Hc; rewrite decide_bool_decide;
    [rewrite bool_decide_eq_true_2 by done | rewrite bool_decide_eq_false_2 by done];
    simpl.
  - constructor; [by rewrite Nat.sub_diag|]. apply Hshift; [apply IH | apply Hge].
  - apply Hshift; [apply IH | apply Hge].
Qed.

(** Fewer elements pass a filter than there are exactly when one fails
    it. *)
Lemma filter_length_lt {A} (P : A → Prop) `{!∀ x, Decision (P x)} (l : list A) :
  length (filter P l) < length l ↔ Exists (λ x, ¬ P x) l.
Proof.
  induction l as [|x l IH]; simpl.
  - split; [lia | by intros ?%Exists_nil].
  - rewrite filter_cons, Exists_cons. pose proof (length_filter P l).
    destruct (decide (P x)); simpl.
    + rewrite <- Nat.succ_lt_mono, IH. split; [auto | by intros [?|?]].
    + split; [auto | lia].
Qed.

End Tagging.

(** ** One file through [process_file] *)

Section ProcessFile.

Variable Splitter : nat → nat → list string → string → list string.

Lemma split_documents_texts split_text doc :
  page_content <$> split_documents split_text [doc] = split_text (page_content doc).
Proof.
  unfold split_documents; simpl. rewrite app_nil_r, <- list_fmap_compose.
  by rewrite <- (list_fmap_id (split_text _)) at 2.
Qed.

Lemma file_chunks_texts env m p h content :
  page_content <$> file_chunks Splitter env m p h content
  = text_splitter Splitter (config m) content.
Proof. unfold file_chunks. by rewrite split_documents_texts. Qed.

(** The three ways through [process_file]. *)
Lemma process_file_unreadable env m p h :
  fs_read (env_fs env) p = None →
  process_file Splitter env m p h = ([], [LogProcessError p]).
Proof.
  intros Hr. unfold process_file, process_file_try, read_text.
  by rewrite Hr.
Qed.

Lemma process_file_empty env m p h raw :
  fs_read (env_fs env) p = Some raw → Py.strip raw = "" →
  process_file Splitter env m p h = ([], [LogFileEmpty p]).
Proof.
  intros Hr He. unfold process_file, process_file_try, read_text.
  rewrite Hr; simpl. by rewrite He.
Qed.

Lemma process_file_content env m p h raw :
  fs_read (env_fs env) p = Some raw → Py.strip raw ≠ "" →
  process_file Splitter env m p h =
    (let chunks := file_chunks Splitter env m p h (Py.strip raw) in
     let kept := tag_chunks (PathLib.stem p) (length chunks)
                   (configured_min_size (config m)) 0 chunks in
     (kept, [LogFileProcessed p (length kept)])).
Proof.
  intros Hr He. unfold process_file, process_file_try, read_text.
  rewrite Hr; simpl. by rewrite bool_decide_eq_false_2.
Qed.

(** [process_file] returns the tagging loop run over chunks whose texts
    are the segmentation of the file. *)
Lemma process_file_docs env m p h :
  ∃ chunks,
    page_content <$> chunks = segmentation Splitter env m p
    ∧ (process_file Splitter env m p h).1
      = tag_chunks (PathLib.stem p) (length chunks)
          (configured_min_size (config m)) 0 chunks.
Proof.
  unfold segmentation.
  destruct (fs_read (env_fs env) p) as [raw|] eqn:Hr.
  - case_bool_decide as He.
    + exists []. by rewrite (process_file_empty env m p h raw).
    + exists (file_chunks Splitter env m p h (Py.strip raw)).
      rewrite (process_file_content env m p h raw) by done.
      split; [apply file_chunks_texts | done].
  - exists []. by rewrite process_file_unreadable.
Qed.

(** The texts [process_file] returns are the finished segmentation put
    through the filter. *)
Lemma process_file_texts env m p h :
  page_content <$> (process_file Splitter env m p h).1
  = filter (λ t, (configured_min_size (config m) ≤ Z.of_nat (Py.len (Py.strip t)))%Z)
           (segmentation Splitter env m p).
Proof.
  destruct (process_file_docs env m p h) as (chunks & Hseg & ->).
  by rewrite tag_chunks_texts, Hseg.
Qed.

(** The same for one document of the full build, whose prefix is the
    file name and whose floor is 10. *)
Lemma kb_split_document_docs base p content :
  ∃ chunks,
    page_content <$> chunks = Splitter 2000 200 separators content
    ∧ kb_split_document Splitter (kb_document base p content)
      = inr (tag_chunks (PathLib.name p) (length chunks) 10%Z 0 chunks).
Proof.
  exists (split_documents (Splitter 2000 200 separators)
            [kb_document base p content]).
  split; [apply split_documents_texts|].
  unfold kb_split_document, kb_filename, kb_document; simpl.
  rewrite lookup_insert_ne by done. rewrite lookup_insert_ne by done.
  by rewrite lookup_insert_eq.
Qed.

End ProcessFile.

(** ** Fragment metadata *)

(** The test of the minimum-size filter on a text. *)
Local Abbreviation passes min_size :=
  (λ t : string, (min_size ≤ Z.of_nat (Py.len (Py.strip t)))%Z).

(** The identifiers the two pipelines write.  The incremental pipeline
    gives the fragment at position [i] of a file's segmentation the
    identifier "stem_i", the full build gives it "name_i" with the
    extension of the file name kept; [i] is the 0-based position before
    the filter. In both, the identifiers of one file are pairwise
    different, and processing a file again whose content is the same
    gives the same identifiers. *)
Theorem chunk_id_by_position
    (Splitter : nat → nat → list string → string → list string) :
  (∀ env m p h,
     let docs := (process_file Splitter env m p h).1 in
     chunk_id_of <$> docs
       = (λ i, Some (VStr (PathLib.stem p +:+ "_" +:+ Py.str_of_nat i)))
           <$> kept_positions (configured_min_size (config m)) 0
                 (segmentation Splitter env m p)
     ∧ NoDup (chunk_id_of <$> docs)
     ∧ ∀ env' h',
         fs_read (env_fs env') p = fs_read (env_fs env) p →
         chunk_id_of <$> (process_file Splitter env' m p h').1 = chunk_id_of <$> docs)
  ∧ (∀ base p content,
       ∃ docs,
         kb_split_document Splitter (kb_document base p content) = inr docs
         ∧ chunk_id_of <$> docs
           = (λ i, Some (VStr (PathLib.name p +:+ "_" +:+ Py.str_of_nat i)))
               <$> kept_positions 10 0 (Splitter 2000 200 separators content)
         ∧ NoDup (chunk_id_of <$> docs)).
Proof.
  split.
  - intros env m p h docs.
    assert (Hids : ∀ env0 h0,
      chunk_id_of <$> (process_file Splitter env0 m p h0).1
      = (λ i, Some (VStr (PathLib.stem p +:+ "_" +:+ Py.str_of_nat i)))
          <$> kept_positions (configured_min_size (config m)) 0
                (segmentation Splitter env0 m p)).
    { intros env0 h0.
      destruct (process_file_docs Splitter env0 m p h0) as (chunks & Hseg & ->).
      by rewrite tag_chunks_ids, Hseg. }
    split; [apply Hids|]. split.
    + subst docs. destruct (process_file_docs Splitter env m p h) as (chunks & _ & ->).
      apply tag_chunks_ids_NoDup.
    + intros env' h' Hsame. subst docs. rewrite !Hids. f_equal.
      unfold segmentation. by rewrite Hsame.
  - intros base p content.
    destruct (kb_split_document_docs Splitter base p content) as (chunks & Hseg & Hk).
    eexists; split; [exact Hk|]. split.
    + by rewrite tag_chunks_ids, Hseg.
    + apply tag_chunks_ids_NoDup.
Qed.

(** C6.  Every fragment [process_file] returns has a trimmed length of
    at least the configured minimum, and the texts returned are the
    finished segmentation put through the filter; the full build does the
    same with its floor of 10. *)
Theorem min_size_filter_after_segmentation
    (Splitter : nat → nat → list string → string → list string) :
  (∀ env m p h,
     let docs := (process_file Splitter env m p h).1 in
     Forall (λ d, passes (configured_min_size (config m)) (page_content d)) docs
     ∧ page_content <$> docs
       = filter (passes (configured_min_size (config m))) (segmentation Splitter env m p))
  ∧ (∀ base p content,
       ∃ docs,
         kb_split_document Splitter (kb_document base p content) = inr docs
         ∧ Forall (λ d, passes 10 (page_content d)) docs
         ∧ page_content <$> docs
           = filter (passes 10) (Splitter 2000 200 separators content)).
Proof.
  assert (Hall : ∀ prefix total min_size chunks,
    Forall (λ d, passes min_size (page_content d))
           (tag_chunks prefix total min_size 0 chunks)).
  { intros. apply Forall_fmap with (f := page_content) (P := passes min_size).
    rewrite tag_chunks_texts. apply Forall_forall. by intros t [? _]%list_elem_of_filter. }
  split.
  - intros env m p h docs. subst docs.
    destruct (process_file_docs Splitter env m p h) as (chunks & Hseg & ->).
    split; [apply Hall|]. by rewrite tag_chunks_texts, Hseg.
  - intros base p content.
    destruct (kb_split_document_docs Splitter base p content) as (chunks & Hseg & Hk).
    eexists; split; [exact Hk|]. split; [apply Hall|].
    by rewrite tag_chunks_texts, Hseg.
Qed.

(** C10.  [total_chunks] is the length of the segmentation before the
    filter and [chunk_index] the position in it; what is kept can be
    fewer than [total_chunks] (exactly when a fragment is dropped) and
    its indices can skip, as for the sample file, whose fragments 0 and 2
    of 3 are kept. *)
Theorem chunk_index_counts_before_filter :
  (∀ (Splitter : nat → nat → list string → string → list string) env m p h,
     let docs := (process_file Splitter env m p h).1 in
     let seg := segmentation Splitter env m p in
     let min_size := configured_min_size (config m) in
     Forall (λ d, total_chunks_of d = Some (VInt (length seg))) docs
     ∧ chunk_index_of <$> docs = (λ i, Some (VInt i)) <$> kept_positions min_size 0 seg
     ∧ Forall2 (λ i d, seg !! i = Some (page_content d)) (kept_positions min_size 0 seg) docs
     ∧ (length docs < length seg ↔ Exists (λ t, ¬ passes min_size t) seg))
  ∧ (∀ (Splitter : nat → nat → list string → string → list string) base p content,
       ∃ docs,
         let seg := Splitter 2000 200 separators content in
         kb_split_document Splitter (kb_document base p content) = inr docs
         ∧ Forall (λ d, total_chunks_of d = Some (VInt (length seg))) docs
         ∧ chunk_index_of <$> docs = (λ i, Some (VInt i)) <$> kept_positions 10 0 seg)
  ∧ (let docs := (process_file Chunker.splitter Sample.env Sample.manager
                    "docs/guide.txt" (Sample.digest Sample.guide)).1 in
     chunk_index_of <$> docs = [Some (VInt 0); Some (VInt 2)]
     ∧ total_chunks_of <$> docs = [Some (VInt 3); Some (VInt 3)]).
Proof.
  split; [|split].
  - intros Splitter env m p h docs seg min_size. subst docs seg min_size.
    destruct (process_file_docs Splitter env m p h) as (chunks & Hseg & ->).
    rewrite <- Hseg, length_fmap. split; [apply tag_chunks_totals|].
    split; [apply tag_chunks_indices|]. split.
    + apply (Forall2_fmap_r page_content
               (λ i t, (page_content <$> chunks) !! i = Some t)).
      rewrite tag_chunks_texts.
      eapply Forall2_impl; [apply kept_positions_texts|].
      intros i t Hit; simpl in Hit. by rewrite Nat.sub_0_r in Hit.
    + rewrite <- (length_fmap page_content), tag_chunks_texts.
      rewrite <- (length_fmap page_content chunks). apply filter_length_lt.
  - intros Splitter base p content.
    destruct (kb_split_document_docs Splitter base p content) as (chunks & Hseg & Hk).
    eexists; simpl; split; [exact Hk|]. rewrite <- Hseg, length_fmap.
    split; [apply tag_chunks_totals | apply tag_chunks_indices].
  - by vm_compute.
Qed.

(** The sample file through the three statements. *)
Lemma chunk_id_by_position_sample :
  chunk_id_of <$> (process_file Chunker.splitter Sample.env Sample.manager
                     "docs/guide.txt" "h").1
  = [Some (VStr "guide_0"); Some (VStr "guide_2")]
  ∧ chunk_id_of <$> (process_file Chunker.splitter
                       {| env_fs := Sample.fs; env_now := "2025-01-02T06:00:00";
                          env_store_ok := false; env_save_ok := true;
                          env_save_tears := false |}
                       Sample.manager "docs/guide.txt" "h'").1
    = chunk_id_of <$> (process_file Chunker.splitter Sample.env Sample.manager
                         "docs/guide.txt" "h").1.
Proof.
  destruct (chunk_id_by_position Chunker.splitter) as [H _].
  destruct (H Sample.env Sample.manager "docs/guide.txt" "h") as (Hid & _ & Hsame).
  split.
  - rewrite Hid. vm_compute. reflexivity.
  - apply Hsame. reflexivity.
Defined.

Lemma min_size_filter_sample :
  page_content <$> (process_file Chunker.splitter Sample.env Sample.manager
                      "docs/guide.txt" "h").1
  = [ "Alpha alpha alpha." +:+ Sample.nl +:+ Sample.nl;
      Sample.nl +:+ Sample.nl +:+ "Gamma gamma gamma." ].
Proof.
  destruct (min_size_filter_after_segmentation Chunker.splitter) as [H _].
  destruct (H Sample.env Sample.manager "docs/guide.txt" "h") as (_ & Htexts).
  rewrite Htexts. vm_compute. reflexivity.
Defined.

Lemma chunk_index_sample :
  length (process_file Chunker.splitter Sample.env Sample.manager
            "docs/guide.txt" "h").1
  < length (segmentation Chunker.splitter Sample.env Sample.manager "docs/guide.txt").
Proof.
  destruct chunk_index_counts_before_filter as [H _].
  destruct (H Chunker.splitter Sample.env Sample.manager "docs/guide.txt" "h")
    as (_ & _ & _ & Hlt).
  apply Hlt, Exists_exists. exists (Sample.nl +:+ Sample.nl +:+ "B." +:+ Sample.nl +:+ Sample.nl).
  split.
  - apply list_elem_of_In. vm_compute. tauto.
  - intros Hp. apply Hp. vm_compute. reflexivity.
Defined.

(** C5, at the failing input.  The full build formats the identifier
    from the file name, not from the stem as [process_file] does: the
    first fragment of [guide.txt] gets "guide.txt_0", which keeps the
    extension and so is "stem_i" for no [i]. *)
Lemma chunk_id_full_build_keeps_extension :
  ∃ docs,
    kb_split_document Chunker.splitter
      (kb_document "knowledge_base" "guide.txt" Sample.guide) = inr docs
    ∧ chunk_id_of <$> docs = [Some (VStr "guide.txt_0")]
    ∧ ∀ i, Some (VStr "guide.txt_0")
           ≠ Some (VStr (PathLib.stem "guide.txt" +:+ "_" +:+ Py.str_of_nat i)).
Proof.
  eexists. split; [reflexivity|]. split; [by vm_compute|].
  intros i Heq. injection Heq as Hchars. discriminate.
Qed.

(** ** The scan *)

Section Scan.

Variable md5_hexdigest : string → string.

Local Abbreviation selects cache :=
  (λ f : string * string, is_new_or_modified cache f.1 f.2 = true).

Local Abbreviation hashed fs :=
  (λ f : string * string, f.2 = (calculate_file_hash md5_hexdigest fs f.1).1).

Lemma is_new_or_modified_empty p h : is_new_or_modified ∅ p h = true.
Proof. unfold is_new_or_modified. by rewrite lookup_empty. Qed.

Lemma is_new_or_modified_false cache p h :
  is_new_or_modified cache p h = false ↔ cache !! p = Some h.
Proof.
  unfold is_new_or_modified. destruct (cache !! p) as [h'|]; [|done].
  rewrite bool_decide_eq_false. split; [intros Hn | intros [= ->]; auto].
  f_equal. by destruct (decide (h' = h)).
Qed.

(** What a scan finds is what it would find with an empty cache, less
    the files the cache already holds with their present hash; and it
    raises with one cache exactly when it raises with another. *)
Local Abbreviation filtered cache all part :=
  (match (all : scanned), (part : scanned) with
   | inr (cands, _), inr (found, _) => found = filter (selects cache) cands
   | inl _, inl _ => True
   | _, _ => False
   end).

Local Abbreviation all_found P s :=
  (match (s : scanned) with
   | inr (found, _) => Forall P found
   | inl _ => True
   end).

Lemma scan_then_inr first next found lg :
  scan_then first next = inr (found, lg) ↔
  ∃ f1 lg1 f2 lg2,
    first = inr (f1, lg1) ∧ next = inr (f2, lg2)
    ∧ found = f1 ++ f2 ∧ lg = lg1 ++ lg2.
Proof.
  unfold scan_then. destruct first as [r|[f1 lg1]].
  - split; [done | by intros (? & ? & ? & ? & ? & _)].
  - destruct next as [[e lg2]|[f2 lg2]].
    + split; [done | by intros (? & ? & ? & ? & _ & ? & _)].
    + split.
      * intros [= <- <-]. by exists f1, lg1, f2, lg2.
      * by intros (? & ? & ? & ? & [= <- <-] & [= <- <-] & -> & ->).
Qed.


Lemma scan_then_filter cache all part all' part' :
  filtered cache all part → filtered cache all' part' →
  filtered cache (scan_then all all') (scan_then part part').
Proof.
  unfold scan_then.
  destruct all as [?|[c1 ?]], part as [?|[f1 ?]]; try done.
  destruct all' as [[? ?]|[c2 ?]], part' as [[? ?]|[f2 ?]]; try done.
  intros -> ->. by rewrite filter_app.
Qed.

Lemma scan_then_all P first next :
  all_found P first → all_found P next → all_found P (scan_then first next).
Proof.
  unfold scan_then. destruct first as [?|[f1 ?]]; [done|].
  destruct next as [[? ?]|[f2 ?]]; [done|].
  intros. by apply Forall_app.
Qed.

Lemma file_key_Some p key : file_key p = Some key → key = p.
Proof. unfold file_key. by destruct (String.prefix "/" p); intros [= <-]. Qed.

Lemma scan_file_filter fs cache ext entry :
  filtered cache (scan_file md5_hexdigest fs ∅ ext entry)
                 (scan_file md5_hexdigest fs cache ext entry).
Proof.
  unfold scan_file.
  destruct (Py.endswith (PathLib.name entry.1) ext && entry.2); [|done].
  destruct (calculate_file_hash md5_hexdigest fs entry.1) as [h lgh].
  destruct (file_key entry.1) as [key|] eqn:Hk; [|done].
  apply file_key_Some in Hk as ->.
  rewrite is_new_or_modified_empty, filter_cons. simpl.
  by destruct (is_new_or_modified cache entry.1 h) eqn:Hn.
Qed.

Lemma scan_file_hashed fs cache ext entry :
  all_found (hashed fs) (scan_file md5_hexdigest fs cache ext entry).
Proof.
  unfold scan_file.
  destruct (Py.endswith (PathLib.name entry.1) ext && entry.2); [|constructor].
  destruct (calculate_file_hash md5_hexdigest fs entry.1) as [h lgh] eqn:Hh.
  destruct (file_key entry.1) as [key|]; [|done].
  destruct (is_new_or_modified cache key h); [|constructor].
  constructor; [simpl; by rewrite Hh | constructor].
Qed.

Lemma scan_entries_filter fs cache ext entries :
  filtered cache (scan_entries md5_hexdigest fs ∅ ext entries)
                 (scan_entries md5_hexdigest fs cache ext entries).
Proof.
  induction entries as [|entry rest IH]; [done|].
  apply scan_then_filter; [apply scan_file_filter | exact IH].
Qed.

Lemma scan_entries_hashed fs cache ext entries :
  all_found (hashed fs) (scan_entries md5_hexdigest fs cache ext entries).
Proof.
  induction entries as [|entry rest IH]; [constructor|].
  apply scan_then_all; [apply scan_file_hashed | exact IH].
Qed.

Lemma scan_extensions_filter fs cache exts entries :
  filtered cache (scan_extensions md5_hexdigest fs ∅ exts entries)
                 (scan_extensions md5_hexdigest fs cache exts entries).
Proof.
  induction exts as [|ext rest IH]; [done|].
  apply scan_then_filter; [apply scan_entries_filter | exact IH].
Qed.

Lemma scan_extensions_hashed fs cache exts entries :
  all_found (hashed fs) (scan_extensions md5_hexdigest fs cache exts entries).
Proof.
  induction exts as [|ext rest IH]; [constructor|].
  apply scan_then_all; [apply scan_entries_hashed | exact IH].
Qed.

Lemma scan_folder_filter fs cache fc :
  filtered cache (scan_folder md5_hexdigest fs ∅ fc)
                 (scan_folder md5_hexdigest fs cache fc).
Proof.
  unfold scan_folder.
  destruct (negb (default true (fc_enabled fc))); [done|].
  destruct (fc_path fc) as [folder|]; [|done].
  destruct (fs_walk fs folder) as [entries|]; [|done].
  apply scan_extensions_filter.
Qed.

Lemma scan_folder_hashed fs cache fc :
  all_found (hashed fs) (scan_folder md5_hexdigest fs cache fc).
Proof.
  unfold scan_folder.
  destruct (negb (default true (fc_enabled fc))); [constructor|].
  destruct (fc_path fc) as [folder|]; [|done].
  destruct (fs_walk fs folder) as [entries|]; [|constructor].
  apply scan_extensions_hashed.
Qed.

(** The scan raises with one cache exactly when it raises with another. *)
Lemma scan_folders_filter fs cache folders :
  match scan_folders md5_hexdigest fs ∅ folders,
        scan_folders md5_hexdigest fs cache folders with
  | inr (cands, _), inr (found, _) => found = filter (selects cache) cands
  | inl _, inl _ => True
  | _, _ => False
  end.
Proof.
  induction folders as [|fc rest IH]; [done|].
  apply scan_then_filter; [apply scan_folder_filter | exact IH].
Qed.

Lemma scan_folders_hashed fs cache folders found lg :
  scan_folders md5_hexdigest fs cache folders = inr (found, lg) →
  Forall (hashed fs) found.
Proof.
  intros Hs.
  assert (all_found (hashed fs) (scan_folders md5_hexdigest fs cache folders)) as H.
  { clear Hs. induction folders as [|fc rest IH]; [constructor|].
    apply scan_then_all; [apply scan_folder_hashed | exact IH]. }
  by rewrite Hs in H.
Qed.

End Scan.

(** ** The loop over the selected files *)

Section Loop.

Variable Splitter : nat → nat → list string → string → list string.
Variable md5_hexdigest : string → string.

Local Abbreviation hashed fs :=
  (λ f : string * string, f.2 = (calculate_file_hash md5_hexdigest fs f.1).1).

(** The handler of the per-file [try] is never entered: [process_file]
    has caught every exception itself. *)
Lemma process_one_try_returns env m st f :
  ∃ st', process_one_try Splitter env m st f = inr st'.
Proof.
  unfold process_one_try. destruct (process_file Splitter env m f.1 f.2) as [[|c chunks] lg];
    eauto.
Qed.

Lemma process_one_empty env m st f :
  retained Splitter env m f = [] →
  process_one Splitter env m st f
  = {| ls_all_chunks := ls_all_chunks st; ls_stats := ls_stats st;
       ls_cache := ls_cache st;
       ls_log := ls_log st ++ (process_file Splitter env m f.1 f.2).2 |}.
Proof.
  unfold retained, process_one, process_one_try.
  destruct (process_file Splitter env m f.1 f.2) as [chunks lg]; simpl. by intros ->.
Qed.

Lemma process_one_chunks env m st f :
  retained Splitter env m f ≠ [] →
  process_one Splitter env m st f
  = {| ls_all_chunks := ls_all_chunks st ++ retained Splitter env m f;
       ls_stats := stats_add_file f.1 (length (retained Splitter env m f)) (ls_stats st);
       ls_cache := <[ f.1 := f.2 ]> (ls_cache st);
       ls_log := ls_log st ++ (process_file Splitter env m f.1 f.2).2 |}.
Proof.
  unfold retained, process_one, process_one_try.
  destruct (process_file Splitter env m f.1 f.2) as [[|c chunks] lg]; simpl; done.
Qed.

(** No iteration counts an error. *)
Lemma process_all_errors env m files : ∀ st,
  errors (ls_stats (process_all Splitter env m st files)) = errors (ls_stats st).
Proof.
  induction files as [|f rest IH]; intros st; simpl; [done|]. rewrite IH.
  destruct (decide (retained Splitter env m f = [])) as [He|He].
  - by rewrite process_one_empty.
  - by rewrite process_one_chunks.
Qed.

Lemma process_all_chunks_added env m files : ∀ st,
  chunks_added (ls_stats (process_all Splitter env m st files))
  = chunks_added (ls_stats st).
Proof.
  induction files as [|f rest IH]; intros st; simpl; [done|]. rewrite IH.
  destruct (decide (retained Splitter env m f = [])) as [He|He].
  - by rewrite process_one_empty.
  - by rewrite process_one_chunks.
Qed.

(** Files that contribute nothing leave the chunks, the statistics and
    the cache as they were. *)
Lemma process_all_nothing env m files : ∀ st,
  Forall (λ f, retained Splitter env m f = []) files →
  let st' := process_all Splitter env m st files in
  ls_all_chunks st' = ls_all_chunks st ∧ ls_stats st' = ls_stats st
  ∧ ls_cache st' = ls_cache st.
Proof.
  induction files as [|f rest IH]; intros st Hall; simpl; [done|].
  apply Forall_cons in Hall as [Hf Hrest].
  destruct (IH (process_one Splitter env m st f) Hrest) as (-> & -> & ->).
  by rewrite process_one_empty.
Qed.

(** The frame of the loop: a cache entry that differs afterwards was
    written for a selected file that contributed fragments. *)
Lemma process_all_cache_frame env m files k : ∀ st,
  ls_cache (process_all Splitter env m st files) !! k ≠ ls_cache st !! k →
  ∃ f, f ∈ files ∧ f.1 = k ∧ retained Splitter env m f ≠ []
       ∧ ls_cache (process_all Splitter env m st files) !! k = Some f.2.
Proof.
  induction files as [|f rest IH]; intros st; simpl; [done|]. intros Hne.
  destruct (decide (ls_cache (process_all Splitter env m (process_one Splitter env m st f) rest) !! k
                    = ls_cache (process_one Splitter env m st f) !! k)) as [Heq|Hneq].
  - rewrite Heq in *.
    destruct (decide (retained Splitter env m f = [])) as [He|He].
    + rewrite process_one_empty in Hne by done. done.
    + rewrite process_one_chunks in * by done. simpl in *.
      destruct (decide (f.1 = k)) as [Hk|Hk].
      * exists f. subst k. rewrite lookup_insert_eq. split; [left|]; done.
      * by rewrite lookup_insert_ne in Hne.
  - destruct (IH _ Hneq) as (f' & Hin & Hk & Hr & Hl).
    exists f'. split; [by right | done].
Qed.

(** A file whose present hash the cache holds, or that contributes
    fragments in this loop, is in the cache with that hash afterwards. *)
Lemma process_all_cache_holds env m files p : ∀ st,
  Forall (hashed (env_fs env)) files →
  ls_cache st !! p = Some (calculate_file_hash md5_hexdigest (env_fs env) p).1
  ∨ (∃ f, f ∈ files ∧ f.1 = p ∧ retained Splitter env m f ≠ []) →
  ls_cache (process_all Splitter env m st files) !! p
  = Some (calculate_file_hash md5_hexdigest (env_fs env) p).1.
Proof.
  induction files as [|f rest IH]; intros st Hh Hor; simpl.
  - destruct Hor as [|(f & Hin & _)]; [done | by apply elem_of_nil in Hin].
  - apply Forall_cons in Hh as [Hf Hrest]. apply IH; [done|].
    destruct (decide (retained Splitter env m f = [])) as [He|He].
    + rewrite process_one_empty by done; simpl.
      destruct Hor as [|(f' & [->|Hin]%elem_of_cons & Hk & Hr)]; eauto; done.
    + rewrite process_one_chunks by done; simpl.
      destruct (decide (f.1 = p)) as [<-|Hk].
      * left. rewrite lookup_insert_eq. by rewrite Hf.
      * rewrite lookup_insert_ne by done.
        destruct Hor as [|(f' & [->|Hin]%elem_of_cons & Hk' & Hr)]; eauto; done.
Qed.

(** Whether a file contributes fragments depends on its content and on
    the configuration only. *)
Lemma retained_nil_same env env' m m' f h' :
  env_fs env' = env_fs env → config m' = config m →
  retained Splitter env m f = [] → retained Splitter env' m' (f.1, h') = [].
Proof.
  intros Hfs Hcfg He. unfold retained in *; simpl.
  pose proof (process_file_texts Splitter env m f.1 f.2) as Ht.
  rewrite He in Ht. apply fmap_nil_inv with (f := page_content).
  rewrite process_file_texts. unfold segmentation. rewrite Hfs, Hcfg.
  exact (eq_sym Ht).
Qed.

End Loop.

(** ** One run *)

Section Run.

Variable Splitter : nat → nat → list string → string → list string.
Variable md5_hexdigest : string → string.

Local Abbreviation scan := (scan_for_new_files md5_hexdigest).
Local Abbreviation run := (run_update Splitter md5_hexdigest).
Local Abbreviation loop := (process_all Splitter).

Lemma run_update_raises env m r :
  scan env m = inl r →
  run env m = (m, stats_add_error stats_init, r.2 ++ [LogCritical]).
Proof.
  intros Hs. unfold run_update, run_update_try. rewrite Hs. by destruct r.
Qed.

Lemma run_update_nothing env m lg :
  scan env m = inr ([], lg) → run env m = (m, stats_init, lg ++ [LogNoNewFiles]).
Proof. intros Hs. unfold run_update, run_update_try. by rewrite Hs. Qed.

Lemma update_vector_db_nil env db :
  update_vector_db env [] db = (0, db, []).
Proof. done. Qed.

Local Arguments update_vector_db : simpl never.
Local Arguments save_processed_files : simpl never.

(** A run whose scan found files: the loop, then one write, then the
    cache file. *)
Lemma run_update_found env m found lg :
  scan env m = inr (found, lg) → found ≠ [] →
  let st := loop env m (loop_start m lg found) found in
  let w := update_vector_db env (ls_all_chunks st) (vector_db m) in
  let sv := save_processed_files env (ls_cache st) (cache_file m) in
  run env m
  = ({| script_dir := script_dir m; config := config m;
        processed_files_cache := ls_cache st;
        vector_db := w.1.2; cache_file := sv.1 |},
     stats_set_chunks_added w.1.1 (ls_stats st),
     ls_log st ++ w.2 ++ sv.2).
Proof.
  intros Hs Hne. unfold run_update, run_update_try. rewrite Hs; simpl.
  destruct found as [|f rest]; [done|].
  set (st := process_all Splitter env m (loop_start m lg (f :: rest)) (f :: rest)).
  pose proof (process_all_chunks_added Splitter env m (f :: rest)
                (loop_start m lg (f :: rest))) as Hadded.
  fold st in Hadded. simpl in Hadded.
  destruct (ls_all_chunks st) as [|c all] eqn:Hall.
  - rewrite update_vector_db_nil; simpl. rewrite Hadded.
    destruct (save_processed_files env (ls_cache st) (cache_file m)); reflexivity.
  - destruct (update_vector_db env (c :: all) (vector_db m)) as [[added db] lgdb].
    destruct (save_processed_files env (ls_cache st) (cache_file m)); reflexivity.
Qed.

(** The configuration is not touched by a run. *)
Lemma run_update_config env m :
  config (run env m).1.1 = config m ∧ script_dir (run env m).1.1 = script_dir m.
Proof.
  destruct (scan env m) as [e|[found lg]] eqn:Hs.
  - by rewrite (run_update_raises env m e).
  - destruct (decide (found = [])) as [->|Hne].
    + by rewrite (run_update_nothing env m lg).
    + by rewrite (run_update_found env m found lg).
Qed.

(** The cache after a run is the cache the loop leaves. *)
Lemma run_update_cache env m found lg :
  scan env m = inr (found, lg) →
  processed_files_cache (run env m).1.1
  = ls_cache (loop env m (loop_start m lg found) found).
Proof.
  intros Hs. destruct (decide (found = [])) as [->|Hne].
  - by rewrite (run_update_nothing env m lg).
  - by rewrite (run_update_found env m found lg).
Qed.

(** The error count of a run is 1 when the scan raised and 0 otherwise:
    nothing that happens to a single file is counted. *)
Lemma run_update_errors env m :
  errors (run env m).1.2
  = match scan env m with inl _ => 1 | inr _ => 0 end.
Proof.
  destruct (scan env m) as [e|[found lg]] eqn:Hs.
  - by rewrite (run_update_raises env m e).
  - destruct (decide (found = [])) as [->|Hne].
    + by rewrite (run_update_nothing env m lg).
    + rewrite (run_update_found env m found lg) by done. simpl.
      by rewrite process_all_errors.
Qed.

(** The scan of a later run over the same files: it raises exactly when
    the first did, and it selects from the same candidates. *)
Lemma scan_same_files env env' m m' :
  env_fs env' = env_fs env → config m' = config m →
  match scan_folders md5_hexdigest (env_fs env) ∅ (local_folders (config m)),
        scan env' m' with
  | inr (cands, _), inr (found, _) =>
      found = filter (λ f, is_new_or_modified (processed_files_cache m') f.1 f.2 = true) cands
      ∧ Forall (λ f, f.2 = (calculate_file_hash md5_hexdigest (env_fs env) f.1).1) cands
  | inl _, inl _ => True
  | _, _ => False
  end.
Proof.
  intros Hfs Hcfg. unfold scan_for_new_files. rewrite Hfs, Hcfg.
  pose proof (scan_folders_filter md5_hexdigest (env_fs env)
                (processed_files_cache m') (local_folders (config m))) as Hf.
  destruct (scan_folders md5_hexdigest (env_fs env) ∅ _) as [e|[cands lg0]] eqn:Hc,
           (scan_folders md5_hexdigest (env_fs env) (processed_files_cache m') _)
             as [e'|[found lg]]; try done.
  split; [done|]. by eapply scan_folders_hashed.
Qed.

(** In a second run over the same files, every file the scan still
    selects contributes nothing. *)
Lemma second_scan_retains_nothing env1 env2 m found2 lg2 :
  env_fs env2 = env_fs env1 →
  scan env2 (run env1 m).1.1 = inr (found2, lg2) →
  Forall (λ f, retained Splitter env2 (run env1 m).1.1 f = []) found2.
Proof.
  intros Hfs Hs2. set (m1 := (run env1 m).1.1) in *.
  pose proof (run_update_config env1 m) as [Hcfg _]. fold m1 in Hcfg.
  pose proof (scan_same_files env1 env1 m m eq_refl eq_refl) as H1.
  pose proof (scan_same_files env1 env2 m m1 Hfs Hcfg) as H2.
  rewrite Hs2 in H2.
  destruct (scan_folders md5_hexdigest (env_fs env1) ∅ _) as [e|[cands lg0]]; [done|].
  destruct (scan env1 m) as [e1|[found1 lg1]] eqn:Hs1; [done|].
  destruct H1 as [Hf1 Hh], H2 as [Hf2 _].
  apply Forall_forall. intros [p h] Hin.
  rewrite Hf2 in Hin. apply list_elem_of_filter in Hin as [Hsel Hc]. simpl in Hsel.
  destruct (decide (retained Splitter env1 m (p, h) = [])) as [He|He].
  { exact (retained_nil_same Splitter env1 env2 m m1 (p, h) h Hfs Hcfg He). }
  exfalso.
  assert (Hp : h = (calculate_file_hash md5_hexdigest (env_fs env1) p).1).
  { by apply (proj1 (Forall_forall _ _) Hh (p, h)). }
  assert (Hm1 : processed_files_cache m1 !! p = Some h).
  { unfold m1. rewrite (run_update_cache env1 m found1 lg1 Hs1). rewrite Hp.
    apply process_all_cache_holds.
    - rewrite Hf1. apply Forall_forall. intros x [_ Hx]%list_elem_of_filter.
      by apply (proj1 (Forall_forall _ _) Hh x).
    - destruct (is_new_or_modified (processed_files_cache m) p h) eqn:Hn.
      + right. exists (p, h). split; [|done].
        rewrite Hf1. by apply list_elem_of_filter.
      + left. simpl. rewrite <- Hp. by apply is_new_or_modified_false. }
  apply is_new_or_modified_false in Hm1. congruence.
Qed.

(** C2.  A second run over the same files adds no fragment and leaves
    the cache and the vector store as the first run left them; an
    up-to-date cache file too, unless the second run writes it again and
    that save fails after it has emptied the file. *)
Theorem second_run_adds_nothing env1 env2 m :
  env_fs env2 = env_fs env1 →
  let m1 := (run env1 m).1.1 in
  chunks_added (run env2 m1).1.2 = 0
  ∧ processed_files_cache (run env2 m1).1.1 = processed_files_cache m1
  ∧ vector_db (run env2 m1).1.1 = vector_db m1
  ∧ (cache_file m1 = Some (processed_files_cache m1) →
     cache_file (run env2 m1).1.1 = cache_file m1
     ∨ (env_save_ok env2 = false ∧ env_save_tears env2 = true
        ∧ cache_file (run env2 m1).1.1 = None)).
Proof.
  intros Hfs m1.
  destruct (scan env2 m1) as [e2|[found2 lg2]] eqn:Hs2.
  { rewrite (run_update_raises env2 m1 e2) by done. simpl. repeat split; auto. }
  destruct (decide (found2 = [])) as [->|Hne].
  { rewrite (run_update_nothing env2 m1 lg2) by done. simpl. repeat split; auto. }
  rewrite (run_update_found env2 m1 found2 lg2) by done.
  destruct (process_all_nothing Splitter env2 m1 found2 (loop_start m1 lg2 found2))
    as (Hall & Hstats & Hcache).
  { by eapply second_scan_retains_nothing. }
  simpl in *. rewrite Hall, Hcache, update_vector_db_nil. simpl.
  repeat split; [done..|].
  intros Hsync. unfold save_processed_files.
  destruct (env_save_ok env2); simpl; [by left|].
  destruct (env_save_tears env2); simpl; [by right | by left].
Qed.

(** *** Which cache entries a run writes *)

Local Abbreviation hashed fs :=
  (λ f : string * string, f.2 = (calculate_file_hash md5_hexdigest fs f.1).1).

Lemma scan_hashed env m found lg :
  scan env m = inr (found, lg) → Forall (hashed (env_fs env)) found.
Proof. apply scan_folders_hashed. Qed.

(** An entry that differs after a run was written for a selected file
    that contributed fragments. *)
Lemma run_update_cache_frame env m k :
  processed_files_cache (run env m).1.1 !! k ≠ processed_files_cache m !! k →
  ∃ found lg f,
    scan env m = inr (found, lg) ∧ f ∈ found ∧ f.1 = k
    ∧ retained Splitter env m f ≠ []
    ∧ processed_files_cache (run env m).1.1 !! k = Some f.2.
Proof.
  intros Hne. destruct (scan env m) as [e|[found lg]] eqn:Hs.
  { by rewrite (run_update_raises env m e) in Hne. }
  rewrite (run_update_cache env m found lg Hs) in *.
  apply process_all_cache_frame in Hne as (f & Hin & Hk & Hr & Hl).
  by exists found, lg, f.
Qed.

(** A file that contributes nothing keeps its entry, or its lack of one,
    through a run over the same files. *)
Lemma run_update_keeps_unrecorded env env' m f :
  env_fs env' = env_fs env → hashed (env_fs env) f →
  retained Splitter env m f = [] →
  processed_files_cache (run env' m).1.1 !! f.1 = processed_files_cache m !! f.1.
Proof.
  intros Hfs Hf He.
  destruct (decide (processed_files_cache (run env' m).1.1 !! f.1
                    = processed_files_cache m !! f.1)) as [|Hne]; [done|].
  apply run_update_cache_frame in Hne as (found & lg & f' & Hs & Hin & Hk & Hr & _).
  exfalso. apply Hr.
  assert (Hf' : hashed (env_fs env') f').
  { by apply (proj1 (Forall_forall _ _) (scan_hashed env' m found lg Hs) f'). }
  simpl in *. rewrite Hfs, Hk, <- Hf in Hf'.
  destruct f as [p h], f' as [p' h']; simpl in *; subst p' h'.
  exact (retained_nil_same Splitter env env' m m (p, h) h Hfs eq_refl He).
Qed.

Lemma run_many_config envs : ∀ m,
  config (run_many Splitter md5_hexdigest envs m) = config m.
Proof.
  induction envs as [|e rest IH]; intros m; simpl; [done|].
  rewrite IH. apply run_update_config.
Qed.

Lemma run_many_keeps_unrecorded env envs f : ∀ m,
  Forall (λ e, env_fs e = env_fs env) envs → hashed (env_fs env) f →
  retained Splitter env m f = [] →
  processed_files_cache (run_many Splitter md5_hexdigest envs m) !! f.1
  = processed_files_cache m !! f.1.
Proof.
  induction envs as [|e rest IH]; intros m Hall Hf He; simpl; [done|].
  apply Forall_cons in Hall as [Hfs Hrest].
  rewrite IH; [by apply (run_update_keeps_unrecorded env) | done..|].
  destruct f as [p h].
  apply (retained_nil_same Splitter env env m (run e m).1.1 (p, h) h eq_refl);
    [apply run_update_config | done].
Qed.

(** *** What a run logs for a selected file *)

Lemma process_all_log env m files : ∀ st,
  ls_log (loop env m st files)
  = ls_log st ++ (files ≫= λ f, (process_file Splitter env m f.1 f.2).2).
Proof.
  induction files as [|f rest IH]; intros st; simpl; [by rewrite app_nil_r|].
  rewrite IH. destruct (decide (retained Splitter env m f = [])) as [He|He].
  - rewrite process_one_empty by done. simpl. by rewrite <- app_assoc.
  - rewrite process_one_chunks by done. simpl. by rewrite <- app_assoc.
Qed.

Lemma run_update_log_file env m found lg f r :
  scan env m = inr (found, lg) → f ∈ found →
  r ∈ (process_file Splitter env m f.1 f.2).2 → r ∈ (run env m).2.
Proof.
  intros Hs Hin Hr.
  assert (Hne : found ≠ []) by (intros ->; by apply elem_of_nil in Hin).
  rewrite (run_update_found env m found lg Hs Hne). simpl.
  rewrite process_all_log. apply elem_of_app; left. apply elem_of_app; right.
  apply list_elem_of_bind. by exists f.
Qed.

Lemma process_file_log_nothing env m p h :
  (process_file Splitter env m p h).1 = [] →
  (process_file Splitter env m p h).2 = [nothing_record (env_fs env) p].
Proof.
  unfold nothing_record. destruct (fs_read (env_fs env) p) as [raw|] eqn:Hr.
  - case_bool_decide as He.
    + by rewrite (process_file_empty Splitter env m p h raw).
    + rewrite (process_file_content Splitter env m p h raw) by done. simpl.
      by intros ->.
  - by rewrite process_file_unreadable.
Qed.

(** C9, in the form that holds of the code. A run changes a cache entry
    only for a selected file that contributed at least one fragment, and
    leaves every other entry as it was. A selected file that contributes
    nothing is therefore not recorded, and every later run over the same
    files selects it and reads it again: a file with content is segmented
    again and nothing is kept, an empty file is logged as empty before the
    splitter is reached, an unreadable one is logged as failed. *)
Theorem cache_entry_only_for_retained env m :
  (∀ k,
     processed_files_cache (run env m).1.1 !! k ≠ processed_files_cache m !! k →
     ∃ found lg f,
       scan env m = inr (found, lg) ∧ f ∈ found ∧ f.1 = k
       ∧ retained Splitter env m f ≠ []
       ∧ processed_files_cache (run env m).1.1 !! k = Some f.2)
  ∧ (∀ found lg f envs env',
       scan env m = inr (found, lg) → f ∈ found →
       retained Splitter env m f = [] →
       Forall (λ e, env_fs e = env_fs env) (env' :: envs) →
       let m' := run_many Splitter md5_hexdigest envs (run env m).1.1 in
       processed_files_cache m' !! f.1 = processed_files_cache m !! f.1
       ∧ (∃ found' lg', scan env' m' = inr (found', lg') ∧ f ∈ found')
       ∧ nothing_record (env_fs env) f.1 ∈ (run env' m').2).
Proof.
  split; [apply run_update_cache_frame|].
  intros found lg f envs env' Hs Hin He Hall m'.
  apply Forall_cons in Hall as [Hfs' Hall].
  assert (Hf : hashed (env_fs env) f).
  { by apply (proj1 (Forall_forall _ _) (scan_hashed env m found lg Hs) f). }
  assert (Hcfg : config m' = config m).
  { unfold m'. rewrite run_many_config. apply run_update_config. }
  assert (Hcache : processed_files_cache m' !! f.1 = processed_files_cache m !! f.1).
  { unfold m'. rewrite (run_many_keeps_unrecorded env envs f); [|done..|].
    - by apply (run_update_keeps_unrecorded env).
    - destruct f as [p h].
      apply (retained_nil_same Splitter env env m (run env m).1.1 (p, h) h eq_refl);
        [apply run_update_config | done]. }
  assert (He' : retained Splitter env' m' f = []).
  { destruct f as [p h].
    exact (retained_nil_same Splitter env env' m m' (p, h) h Hfs' Hcfg He). }
  pose proof (scan_same_files env env m m eq_refl eq_refl) as H1.
  pose proof (scan_same_files env env' m m' Hfs' Hcfg) as H2.
  rewrite Hs in H1.
  destruct (scan_folders md5_hexdigest (env_fs env) ∅ _) as [e|[cands lg0]]; [done|].
  destruct (scan env' m') as [e'|[found' lg']] eqn:Hs'; [done|].
  destruct H1 as [Hf1 _], H2 as [Hf2 _].
  assert (Hin' : f ∈ found').
  { rewrite Hf1 in Hin. apply list_elem_of_filter in Hin as [Hsel Hc].
    rewrite Hf2. apply list_elem_of_filter. split; [|done].
    unfold is_new_or_modified in *. by rewrite Hcache. }
  split; [done|]. split; [by exists found', lg'|].
  apply (run_update_log_file env' m' found' lg' f); [done..|].
  unfold retained in He'. rewrite (process_file_log_nothing env' m' _ _ He').
  rewrite Hfs'. by apply list_elem_of_singleton.
Qed.

End Run.

(** The sample knowledge base through two runs: the first adds the two
    fragments kept of [guide.txt], the second, a day later, adds none. *)
Lemma second_run_sample :
  chunks_added (Sample.run Sample.env Sample.manager).1.2 = 2
  ∧ chunks_added
      (Sample.run Sample.env_later (Sample.run Sample.env Sample.manager).1.1).1.2 = 0.
Proof.
  split; [by vm_compute|].
  apply (second_run_adds_nothing Chunker.splitter Sample.digest
           Sample.env Sample.env_later Sample.manager).
  reflexivity.
Defined.

(** [tiny.md], whose only fragment is too short, in the fourth run. *)
Lemma cache_entry_sample :
  let m' := run_many Chunker.splitter Sample.digest [Sample.env_later; Sample.env_later]
              (Sample.run Sample.env Sample.manager).1.1 in
  processed_files_cache m' !! "docs/tiny.md" = None
  ∧ LogFileProcessed "docs/tiny.md" 0 ∈ (Sample.run Sample.env_later m').2.
Proof.
  destruct (cache_entry_only_for_retained Chunker.splitter Sample.digest
              Sample.env Sample.manager) as [_ H].
  assert (∃ found lg,
            scan_for_new_files Sample.digest Sample.env Sample.manager = inr (found, lg)
            ∧ ("docs/tiny.md", Sample.digest "Hi.") ∈ found) as (found & lg & Hs & Hin).
  { eexists _, _. split; [reflexivity|]. apply list_elem_of_In. vm_compute. tauto. }
  destruct (H found lg ("docs/tiny.md", Sample.digest "Hi.")
              [Sample.env_later; Sample.env_later] Sample.env_later)
    as (Hcache & _ & Hlog).
  - exact Hs.
  - exact Hin.
  - by vm_compute.
  - by repeat constructor.
  - split; [exact Hcache | exact Hlog].
Defined.

(** The claim of C9 fails for an empty file: it is selected and read in
    every run but never handed to the splitter.  Even with a splitter
    that returns a long fragment for whatever it is given, the second run
    logs [empty.txt] as empty, never as processed, and returns nothing
    for it. *)
Lemma empty_file_is_not_segmented :
  let run := run_update Sample.one_fragment Sample.digest in
  let m1 := (run Sample.env Sample.manager).1.1 in
  let log2 := (run Sample.env_later m1).2 in
  LogNewFile "docs/empty.txt" ∈ log2
  ∧ LogFileEmpty "docs/empty.txt" ∈ log2
  ∧ (∀ n, LogFileProcessed "docs/empty.txt" n ∉ log2)
  ∧ process_file Sample.one_fragment Sample.env_later m1 "docs/empty.txt"
      (Sample.digest ("  " +:+ Sample.nl))
    = ([], [LogFileEmpty "docs/empty.txt"]).
Proof.
  assert ((run_update Sample.one_fragment Sample.digest Sample.env_later
             (run_update Sample.one_fragment Sample.digest Sample.env Sample.manager).1.1).2
          = [LogNewFile "docs/empty.txt"; LogHashError "docs/locked.txt";
             LogNewFile "docs/locked.txt"; LogFound 2;
             LogFileEmpty "docs/empty.txt"; LogProcessError "docs/locked.txt"]) as Hlog
    by (by vm_compute).
  cbv zeta. rewrite Hlog. split; [|split; [|split]].
  - apply list_elem_of_In. simpl. tauto.
  - apply list_elem_of_In. simpl. tauto.
  - intros n Hin%list_elem_of_In. simpl in Hin. intuition discriminate.
  - by vm_compute.
Qed.

(** C3, at the sample.  [locked.txt] cannot be read: the failure is
    logged, the run goes on to the next file and leaves the file out of
    the cache, and the next run selects it again; but the error count of
    the run stays 0 and the process exits with 0. *)
Theorem unreadable_file_is_not_counted :
  let r1 := Sample.run Sample.env Sample.manager in
  let r2 := Sample.run Sample.env_later r1.1.1 in
  fs_read Sample.fs "docs/locked.txt" = None
  ∧ LogProcessError "docs/locked.txt" ∈ r1.2
  ∧ LogFileProcessed "docs/tiny.md" 0 ∈ r1.2
  ∧ processed_files_cache r1.1.1 !! "docs/locked.txt" = None
  ∧ LogNewFile "docs/locked.txt" ∈ r2.2
  ∧ errors r1.1.2 = 0
  ∧ main Chunker.splitter Sample.digest Sample.startup Sample.env = 0.
Proof.
  assert (Hin_of : ∀ (r : log_record) l, In r l → r ∈ l).
  { intros r l. apply list_elem_of_In. }
  cbv zeta. repeat split; try (by vm_compute);
    apply Hin_of; vm_compute; tauto.
Qed.

(** ** The index writer *)

Lemma update_vector_db_ok env new_chunks db :
  new_chunks ≠ [] → env_store_ok env = true →
  update_vector_db env new_chunks db
  = (length new_chunks,
     {| db_entries :=
          db_entries db ++ zip (seq (db_next_id db) (length new_chunks)) new_chunks;
        db_next_id := db_next_id db + length new_chunks |},
     [LogChunksAdded (length new_chunks)]).
Proof.
  intros Hne Hok. unfold update_vector_db. rewrite Hok.
  by destruct new_chunks.
Qed.

Lemma update_vector_db_failed env new_chunks db :
  new_chunks = [] ∨ env_store_ok env = false →
  (update_vector_db env new_chunks db).1 = (0, db).
Proof.
  unfold update_vector_db. intros [->|Hok]; [done|]. rewrite Hok.
  by destruct new_chunks.
Qed.

Lemma update_vector_db_wf env new_chunks db :
  db_wf db → db_wf (update_vector_db env new_chunks db).1.2.
Proof.
  intros [Hnd Hlt].
  destruct (decide (new_chunks = [])) as [He|He];
    [by rewrite update_vector_db_failed by auto|].
  destruct (env_store_ok env) eqn:Hok;
    [|by rewrite update_vector_db_failed by auto].
  rewrite update_vector_db_ok by done. unfold db_wf; simpl. split.
  - rewrite fmap_app, fst_zip by (by rewrite length_seq).
    apply NoDup_app. split; [done|]. split; [|apply NoDup_seq].
    intros k (e & -> & Hin)%list_elem_of_fmap Hk%elem_of_seq.
    apply (proj1 (Forall_forall _ _) Hlt) in Hin. lia.
  - apply Forall_app. split.
    + eapply Forall_impl; [exact Hlt|]. simpl; lia.
    + apply Forall_forall. intros [k d] Hin. simpl.
      apply elem_of_zip_l, elem_of_seq in Hin. lia.
Qed.

(** C1, in the form that holds of the code. The index writer appends. A
    write that succeeds adds every fragment it is given as a new entry
    under a key the store generates, and leaves the entries already stored
    as they are, whatever fragment identifiers their metadata carry; a
    write that fails, or has nothing to write, changes nothing. The stored
    entries stay unique per store key, not per fragment identifier, and a
    run only ever extends the store. *)
Theorem index_writer_appends :
  (∀ env new_chunks db,
     let w := update_vector_db env new_chunks db in
     (new_chunks ≠ [] → env_store_ok env = true →
        w.1.1 = length new_chunks
        ∧ db_entries w.1.2
          = db_entries db ++ zip (seq (db_next_id db) (length new_chunks)) new_chunks
        ∧ db_count w.1.2 = db_count db + length new_chunks
        ∧ db_chunk_ids w.1.2 = db_chunk_ids db ++ (chunk_id_of <$> new_chunks))
     ∧ (new_chunks = [] ∨ env_store_ok env = false → w.1.1 = 0 ∧ w.1.2 = db)
     ∧ (db_wf db → db_wf w.1.2))
  ∧ (∀ Splitter md5_hexdigest env m,
       ∃ added,
         db_entries (vector_db (run_update Splitter md5_hexdigest env m).1.1)
         = db_entries (vector_db m) ++ added).
Proof.
  split.
  - intros env new_chunks db w. subst w. split; [|split].
    + intros Hne Hok. rewrite update_vector_db_ok by done. simpl.
      split; [done|]. split; [done|]. split.
      * unfold db_count; simpl.
        rewrite length_app, length_zip, length_seq. lia.
      * unfold db_chunk_ids; simpl. rewrite fmap_app. f_equal.
        transitivity (chunk_id_of <$> (zip (seq (db_next_id db) (length new_chunks))
                                           new_chunks).*2).
        -- by rewrite <- list_fmap_compose.
        -- by rewrite snd_zip by (by rewrite length_seq).
    + intros Hor. by rewrite update_vector_db_failed.
    + apply update_vector_db_wf.
  - intros Splitter md5_hexdigest env m.
    destruct (scan_for_new_files md5_hexdigest env m) as [e|[found lg]] eqn:Hs.
    { exists []. by rewrite (run_update_raises Splitter md5_hexdigest env m e),
        app_nil_r. }
    destruct (decide (found = [])) as [->|Hne].
    { exists []. by rewrite (run_update_nothing Splitter md5_hexdigest env m lg),
        app_nil_r. }
    rewrite (run_update_found Splitter md5_hexdigest env m found lg) by done. simpl.
    set (all := ls_all_chunks _).
    destruct (decide (all = [])) as [He|He];
      [exists []; by rewrite update_vector_db_failed, app_nil_r by auto|].
    destruct (env_store_ok env) eqn:Hok;
      [|exists []; by rewrite update_vector_db_failed, app_nil_r by auto].
    rewrite update_vector_db_ok by done. simpl. eauto.
Qed.

(** Writing the fragments of the edited [guide.txt] next to those of
    the first run. *)
Lemma index_writer_sample :
  let m1 := (Sample.run Sample.env Sample.manager).1.1 in
  let chunks := retained Chunker.splitter Sample.env_edited m1
                  ("docs/guide.txt", Sample.digest (Sample.guide +:+ " Delta.")) in
  db_count (update_vector_db Sample.env_edited chunks (vector_db m1)).1.2 = 4.
Proof.
  cbv zeta.
  destruct index_writer_appends as [H _].
  edestruct H as [Hok _]. destruct Hok as (_ & _ & -> & _).
  - by vm_compute.
  - reflexivity.
  - by vm_compute.
Defined.

(** The claim of C1 fails once a file is edited: the second run writes
    the first fragment of [guide.txt] again, and the store then holds two
    entries with the fragment identifier "guide_0". *)
Lemma edited_file_is_stored_twice :
  let m1 := (Sample.run Sample.env Sample.manager).1.1 in
  let m2 := (Sample.run Sample.env_edited m1).1.1 in
  db_chunk_ids (vector_db m1) = [Some (VStr "guide_0"); Some (VStr "guide_2")]
  ∧ db_chunk_ids (vector_db m2)
    = [Some (VStr "guide_0"); Some (VStr "guide_2");
       Some (VStr "guide_0"); Some (VStr "guide_4")]
  ∧ db_count (vector_db m2) = 4
  ∧ ¬ NoDup (db_chunk_ids (vector_db m2)).
Proof.
  cbv zeta.
  assert (db_chunk_ids
            (vector_db (Sample.run Sample.env_edited
                          (Sample.run Sample.env Sample.manager).1.1).1.1)
          = [Some (VStr "guide_0"); Some (VStr "guide_2");
             Some (VStr "guide_0"); Some (VStr "guide_4")]) as Hids
    by (by vm_compute).
  split; [by vm_compute|]. split; [done|]. split; [by vm_compute|].
  rewrite Hids. intros Hnd. apply NoDup_cons in Hnd as [Hnotin _].
  apply Hnotin. apply list_elem_of_In. simpl. tauto.
Qed.

(** ** The exit code *)

Section Main.

Variable Splitter : nat → nat → list string → string → list string.
Variable md5_hexdigest : string → string.

Local Abbreviation run := (run_update Splitter md5_hexdigest).
Local Abbreviation exit_code := (main Splitter md5_hexdigest).

Lemma main_fatal_init su env e :
  manager_init su = inl e → exit_code su env = 1.
Proof. intros Hi. unfold main, main_try. by rewrite Hi. Qed.

Lemma main_fatal_results su env m :
  manager_init su = inr m → su_results_ok su = false → exit_code su env = 1.
Proof.
  intros Hi Hw. unfold main, main_try, write_results. rewrite Hi; simpl.
  by rewrite Hw.
Qed.

Lemma main_finished su env m :
  manager_init su = inr m → su_results_ok su = true →
  exit_code su env = if bool_decide (0 < errors (run env m).1.2) then 1 else 0.
Proof.
  intros Hi Hw. unfold main, main_try, write_results. rewrite Hi; simpl.
  rewrite Hw; simpl. by case_bool_decide.
Qed.

(** C7, in the form that holds of the code. The process exits with 0
    exactly when no exception reached [main] (the manager was built and
    the result file written) and the run counted no error; in every other
    case it exits with 1, in particular whenever the run counted an error. *)
Theorem exit_code_reports_errors su env :
  (exit_code su env = 0 ↔
     ∃ m, manager_init su = inr m ∧ su_results_ok su = true
          ∧ errors (run env m).1.2 = 0)
  ∧ (exit_code su env = 0 ∨ exit_code su env = 1)
  ∧ (∀ m, manager_init su = inr m → 0 < errors (run env m).1.2 →
          exit_code su env = 1).
Proof.
  destruct (manager_init su) as [e|m] eqn:Hi.
  { rewrite (main_fatal_init su env e Hi).
    split; [split; [done | by intros (m & [=] & _)]|]. split; [auto | done]. }
  destruct (su_results_ok su) eqn:Hw.
  - rewrite (main_finished su env m Hi Hw). case_bool_decide as He.
    + split; [split; [done | intros (m' & [= <-] & _ & H0); lia]|]. auto.
    + split; [split; [intros _; exists m; repeat split; lia | done]|].
      split; [auto|]. intros m' [= <-] Hlt. lia.
  - rewrite (main_fatal_results su env m Hi Hw).
    split; [split; [done | by intros (m' & _ & [=] & _)]|]. auto.
Qed.

End Main.

Lemma exit_code_sample :
  main Chunker.splitter Sample.digest Sample.startup Sample.env = 0.
Proof.
  apply (exit_code_reports_errors Chunker.splitter Sample.digest).
  exists Sample.manager. split; [reflexivity|]. split; [reflexivity|]. by vm_compute.
Defined.

(** The claim of C7 fails when the result file cannot be written: the
    run of the sample counts no error, yet the process exits with 1. *)
Lemma unwritten_results_exit_1 :
  let su := {| su_script_dir := "/srv/task6"; su_config := Some Sample.cfg;
               su_components_ok := true; su_cache_file := None;
               su_vector_db := Sample.empty_db; su_results_ok := false |} in
  manager_init su = inr Sample.manager
  ∧ errors (Sample.run Sample.env Sample.manager).1.2 = 0
  ∧ main Chunker.splitter Sample.digest su Sample.env = 1.
Proof. cbv zeta. repeat split; by vm_compute. Qed.

(** ** The overlap between consecutive fragments *)

Section Overlap.

Import Chunker.

Variable size overlap : nat.

Lemma tail_slice_length frag :
  length (tail_slice overlap frag) = min overlap (length frag).
Proof. unfold tail_slice. rewrite length_drop. lia. Qed.

(** A successor that starts with the trailing slice overlaps. *)
Lemma prefix_overlaps frag next :
  tail_slice overlap frag `prefix_of` next → overlaps overlap frag next.
Proof.
  intros [k ->]. unfold overlaps.
  by rewrite <- tail_slice_length, take_app_length.
Qed.

Lemma chained_snoc frags next :
  chained overlap frags →
  (∀ frag, last frags = Some frag → overlaps overlap frag next) →
  chained overlap (frags ++ [next]).
Proof.
  induction frags as [|a [|b rest] IH]; intros Hc Hl; simpl in *; [done|..].
  - split; [by apply Hl | done].
  - destruct Hc as [Hab Hc]. split; [done|]. by apply IH.
Qed.

Lemma chained_lookup frags i a b :
  chained overlap frags → frags !! i = Some a → frags !! S i = Some b →
  overlaps overlap a b.
Proof.
  revert i. induction frags as [|x [|y rest] IH]; intros i Hc Ha Hb; [done|..].
  - by destruct i.
  - destruct Hc as [Hxy Hc]. destruct i as [|i]; simpl in *.
    + by simplify_eq.
    + by apply (IH i).
Qed.

Lemma acc_init_ok : acc_ok overlap acc_init.
Proof. by split. Qed.

Lemma append_piece_ok piece a :
  acc_ok overlap a → acc_ok overlap (append_piece piece a).
Proof.
  intros [Hc Hp]. split; [done|]. intros frag Hl; simpl.
  by apply prefix_app_r, Hp.
Qed.

Lemma close_if_full_ok piece a :
  acc_ok overlap a → acc_ok overlap (close_if_full size overlap piece a).
Proof.
  intros [Hc Hp]. unfold close_if_full.
  destruct (bool_decide _ && bool_decide _); [|done]. split; simpl.
  - apply chained_snoc; [done|]. intros frag Hl. by apply prefix_overlaps, Hp.
  - intros frag. rewrite last_snoc. by intros [= <-].
Qed.

(** Whatever the pieces of step 1 are. *)
Lemma accumulate_ok split seps : ∀ t a,
  acc_ok overlap a → acc_ok overlap (accumulate split size overlap seps t a).
Proof.
  induction seps as [|sep seps IH]; intros t a Ha; simpl.
  - by apply append_piece_ok.
  - generalize (split sep t). intros pieces. revert a Ha.
    induction pieces as [|piece pieces IHp]; intros a Ha; simpl; [done|].
    apply IHp. case_bool_decide.
    + by apply IH, close_if_full_ok.
    + by apply append_piece_ok, close_if_full_ok.
Qed.

Lemma finish_chained a : acc_ok overlap a → chained overlap (finish a).
Proof.
  intros [Hc Hp]. unfold finish. destruct (buffer a) as [|c buf] eqn:Hb; [done|].
  apply chained_snoc; [done|]. intros frag Hl. by apply prefix_overlaps, Hp.
Qed.

End Overlap.

(** C4.  In the segmentation of any text, every fragment ends with the
    characters its successor starts with: the last [O] characters of
    fragment [i] are the first [O] of fragment [i+1], and the whole of
    fragment [i] when it is shorter than [O].  This is about the
    fragments of steps 1 to 5, before the filter of step 6, and holds
    wherever step 1 cuts the text. *)
Theorem consecutive_fragments_overlap (split : Chunker.text → Chunker.text → list Chunker.text)
    (cfg : Chunker.ChunkerConfig) (t : Chunker.text) (i : nat)
    (frag next : Chunker.text) :
  Chunker.segment_with split cfg t !! i = Some frag →
  Chunker.segment_with split cfg t !! S i = Some next →
  drop (length frag - Chunker.cc_overlap cfg) frag
  = take (min (Chunker.cc_overlap cfg) (length frag)) next.
Proof.
  intros Hi Hn.
  apply (chained_lookup (Chunker.cc_overlap cfg)
           (Chunker.segment_with split cfg t) i); [|done..].
  apply finish_chained, accumulate_ok, acc_init_ok.
Qed.

(** Scenario A, with the separator kept at the front of the piece that
    follows it: the three fragments are those the scenario gives, and the
    first two share "ha.". *)
Lemma overlap_sample :
  let frag := list_ascii_of_string "Alpha." in
  let next := list_ascii_of_string ("ha." +:+ Sample.nl +:+ Sample.nl +:+ "Beta.") in
  let last := list_ascii_of_string ("ta." +:+ Sample.nl +:+ Sample.nl +:+ "Gamma.") in
  Chunker.segment_with Chunker.split_before Sample.scenario_a_cfg Sample.scenario_a
  = [frag; next; last]
  ∧ drop (length frag - 3) frag = take (min 3 (length frag)) next.
Proof.
  intros frag next last.
  assert (Hseg : Chunker.segment_with Chunker.split_before
                   Sample.scenario_a_cfg Sample.scenario_a = [frag; next; last])
    by (by vm_compute).
  split; [exact Hseg|].
  apply (consecutive_fragments_overlap Chunker.split_before
           Sample.scenario_a_cfg Sample.scenario_a 0 frag next);
    by rewrite Hseg.
Defined.

(** With the separator kept at the end of its piece, as step 1 is
    written, the fragments of scenario A are cut elsewhere and overlap
    all the same. *)
Lemma overlap_sample_step_1 :
  Chunker.segment Sample.scenario_a_cfg Sample.scenario_a
  = list_ascii_of_string <$>
      [ "Alpha." +:+ Sample.nl +:+ Sample.nl;
        "." +:+ Sample.nl +:+ Sample.nl +:+ "Beta." +:+ Sample.nl +:+ Sample.nl;
        "." +:+ Sample.nl +:+ Sample.nl +:+ "Gamma." ].
Proof. by vm_compute. Qed.

(** ** The interval loop *)

Section IntervalLoop.

Import Scheduler.

(** The worker returns from one place only: the [while] test, with the
    flag cleared. *)
Lemma worker_returns_at_while raises s :
  at_point (worker_step raises s).1 = Returned →
  at_point s = Returned ∨ (at_point s = AtWhile ∧ running s = false).
Proof.
  unfold worker_step. destruct s as [r n pt]; simpl.
  destruct pt as [| |[|k]|k| |]; simpl; try destruct r; try destruct raises;
    simpl; auto; discriminate.
Qed.

Lemma worker_step_flag raises s :
  running (worker_step raises s).1 = running s
  ∧ interval_seconds (worker_step raises s).1 = interval_seconds s.
Proof.
  unfold worker_step. destruct s as [r n pt]; simpl.
  by destruct pt as [| |[|k]|k| |]; simpl; try destruct r; try destruct raises.
Qed.

Lemma exec_worker r acts s :
  exec (Worker r :: acts) s
  = ((exec acts (worker_step r s).1).1,
     (worker_step r s).2 ++ (exec acts (worker_step r s).1).2).
Proof.
  cbn [exec]. destruct (worker_step r s) as [s' evs]. cbn [fst snd].
  destruct (exec acts s'); reflexivity.
Qed.

(** While nobody stops it, the worker never returns. *)
Lemma worker_keeps_running raises : ∀ s,
  running s = true → at_point s ≠ Returned →
  at_point (exec (Worker <$> raises) s).1 ≠ Returned
  ∧ running (exec (Worker <$> raises) s).1 = true.
Proof.
  induction raises as [|r rest IH]; intros s Hr Hp; [done|].
  rewrite fmap_cons, exec_worker. simpl. apply IH.
  - pose proof (worker_step_flag r s) as [Hf _]. congruence.
  - intros Hret. destruct (worker_returns_at_while r s Hret) as [|[_ ?]]; congruence.
Qed.

(** With the flag cleared, no cycle is ever started again. *)
Lemma worker_step_stopped raises s :
  running s = false → cycles_started (worker_step raises s).2 = 0.
Proof.
  unfold worker_step. destruct s as [r n pt]; simpl. intros ->.
  by destruct pt as [| |[|k]|k| |]; simpl; try destruct raises.
Qed.

Lemma cycles_started_app evs evs' :
  cycles_started (evs ++ evs') = cycles_started evs + cycles_started evs'.
Proof. unfold cycles_started. by rewrite filter_app, length_app. Qed.

Lemma stop_clears s : running (stop s) = false.
Proof. unfold stop. by destruct (running s) eqn:Hr. Qed.

Lemma no_cycle_once_stopped acts : ∀ s,
  running s = false → cycles_started (exec acts s).2 = 0.
Proof.
  induction acts as [|[r|] rest IH]; intros s Hr; [done|..].
  - rewrite exec_worker. simpl. rewrite cycles_started_app.
    rewrite worker_step_stopped by done. apply IH.
    pose proof (worker_step_flag r s) as [Hf _]. congruence.
  - simpl. apply IH, stop_clears.
Qed.

(** The interval loop under exceptions and [stop]. An exception inside a
    cycle is caught: the worker pauses for 60 seconds and tests the flag again, and
    as long as nobody stops it it never returns. Once the flag is cleared
    the worker starts no new cycle and returns within three steps. Between
    cycles it has then slept at most the one second of the increment in
    progress; in the pause after an exception it sleeps the 60 seconds
    through before it sees the flag, and a cycle in flight is finished
    first. *)
Theorem interval_worker_survives_and_stops :
  (∀ s r r',
     at_point s = InCycle → running s = true →
     exec [Worker true; Worker r; Worker r'] s
     = (goto s InCycle, [ExceptionCaught; Slept 60; CycleStarted]))
  ∧ (∀ raises s,
       running s = true → at_point s ≠ Returned →
       at_point (exec (Worker <$> raises) s).1 ≠ Returned)
  ∧ (∀ acts s, cycles_started (exec acts (stop s)).2 = 0)
  ∧ (∀ s r1 r2 r3,
       let after := exec [Worker r1; Worker r2; Worker r3] (stop s) in
       at_point after.1 = Returned
       ∧ slept after.2
         = match at_point s with
           | InPause => 60
           | InCycle => if r1 then 60 else 0
           | InSleep _ => 1
           | _ => 0
           end).
Proof.
  split; [|split; [|split]].
  - intros [r n pt] r0 r'; simpl. intros -> ->. reflexivity.
  - intros raises s Hr Hp. by apply worker_keeps_running.
  - intros acts s. apply no_cycle_once_stopped, stop_clears.
  - intros [r n pt] r1 r2 r3. unfold stop; simpl.
    destruct r, pt as [| |[|k]|[|k]| |], r1; simpl; try done;
      destruct n; simpl; done.
Qed.

End IntervalLoop.

(** A worker waiting between two cycles is stopped: it returns after the
    second in progress, without a new cycle. *)
Lemma interval_worker_sample :
  let s := {| Scheduler.running := true; Scheduler.interval_seconds := 3600;
              Scheduler.at_point := Scheduler.InSleep 1800 |} in
  Scheduler.exec [Scheduler.Stop; Scheduler.Worker false; Scheduler.Worker false;
                  Scheduler.Worker false] s
  = ({| Scheduler.running := false; Scheduler.interval_seconds := 3600;
        Scheduler.at_point := Scheduler.Returned |}, [Scheduler.Slept 1])
  ∧ Scheduler.at_point
      (Scheduler.exec (Scheduler.Worker <$> [false; false; true; false]) s).1
    ≠ Scheduler.Returned.
Proof.
  intros s. split; [reflexivity|].
  apply interval_worker_survives_and_stops; [reflexivity | discriminate].
Defined.

(** C8, at the failing input.  The pause of the handler is one
    [time.sleep(60)], not polled as the wait between cycles is: the flag
    is cleared as soon as the exception is caught, and the worker still
    sleeps 60 seconds, not one increment of 1 second, before it sees the
    flag and returns. *)
Lemma stop_during_pause_waits_60 :
  let s := {| Scheduler.running := true; Scheduler.interval_seconds := 3600;
              Scheduler.at_point := Scheduler.InCycle |} in
  let caught := Scheduler.exec [Scheduler.Worker true; Scheduler.Stop] s in
  let after := Scheduler.exec [Scheduler.Worker false; Scheduler.Worker false] caught.1 in
  caught.2 = [Scheduler.ExceptionCaught]
  ∧ Scheduler.running caught.1 = false
  ∧ Scheduler.at_point (Scheduler.exec [Scheduler.Worker false] caught.1).1
    ≠ Scheduler.Returned
  ∧ Scheduler.at_point after.1 = Scheduler.Returned
  ∧ after.2 = [Scheduler.Slept 60]
  ∧ ¬ Scheduler.slept after.2 ≤ 1.
Proof. cbv zeta. repeat split; try done. simpl. lia. Qed.

(** * Further properties *)

(** ** What the scan selects *)

Section ScanFacts.

Variable md5_hexdigest : string → string.

Local Abbreviation hash_of fs p := ((calculate_file_hash md5_hexdigest fs p).1).

(** A path that does not lie below the script directory. *)
Local Abbreviation outside p := (file_key p = None).

Lemma scan_then_assoc a b c :
  scan_then (scan_then a b) c = scan_then a (scan_then b c).
Proof.
  unfold scan_then. destruct a as [?|[f1 l1]]; [done|].
  destruct b as [[? ?]|[f2 l2]]; [done|].
  destruct c as [[? ?]|[f3 l3]]; by rewrite !app_assoc.
Qed.

Lemma scan_then_nil_l s : scan_then (inr ([], [])) s = s.
Proof. by destruct s as [[? ?]|[? ?]]. Qed.

Lemma elem_of_scan_then first next found lg (x : string * string) P Q :
  scan_then first next = inr (found, lg) →
  (∀ f l, first = inr (f, l) → x ∈ f ↔ P) →
  (∀ f l, next = inr (f, l) → x ∈ f ↔ Q) →
  x ∈ found ↔ P ∨ Q.
Proof.
  intros (f1 & l1 & f2 & l2 & -> & -> & -> & ->)%scan_then_inr H1 H2.
  by rewrite elem_of_app, (H1 f1 l1), (H2 f2 l2).
Qed.

Lemma elem_of_scan_file fs cache ext entry found lg p h :
  scan_file md5_hexdigest fs cache ext entry = inr (found, lg) →
  (p, h) ∈ found ↔
  entry = (p, true) ∧ Py.endswith (PathLib.name p) ext = true
  ∧ h = hash_of fs p ∧ is_new_or_modified cache p h = true.
Proof.
  unfold scan_file. destruct entry as [q is_file]; simpl.
  destruct (Py.endswith (PathLib.name q) ext) eqn:He, is_file; simpl.
  - destruct (calculate_file_hash md5_hexdigest fs q) as [hq lgq] eqn:Hq.
    destruct (file_key q) as [key|] eqn:Hk; [|done].
    apply file_key_Some in Hk as ->.
    destruct (is_new_or_modified cache q hq) eqn:Hn; intros [= <- <-].
    + rewrite list_elem_of_singleton. split.
      * intros [= -> ->]. by rewrite Hq.
      * intros ([= ->] & _ & -> & _). by rewrite Hq.
    + split; [by intros ?%elem_of_nil|].
      intros ([= ->] & _ & -> & Hnew). rewrite Hq in Hnew. simpl in Hnew. congruence.
  - intros [= <- <-]. split; [by intros ?%elem_of_nil | by intros ([=] & _)].
  - intros [= <- <-]. split; [by intros ?%elem_of_nil|].
    intros ([= ->] & ? & _). congruence.
  - intros [= <- <-]. split; [by intros ?%elem_of_nil | by intros ([=] & _)].
Qed.


Lemma elem_of_scan_entries fs cache ext entries : ∀ found lg p h,
  scan_entries md5_hexdigest fs cache ext entries = inr (found, lg) →
  (p, h) ∈ found ↔
  (p, true) ∈ entries ∧ Py.endswith (PathLib.name p) ext = true
  ∧ h = hash_of fs p ∧ is_new_or_modified cache p h = true.
Proof.
  induction entries as [|entry rest IH]; intros found lg p h; simpl.
  - intros [= <- <-]. split; [by intros ?%elem_of_nil | by intros [?%elem_of_nil _]].
  - intros Hs.
    rewrite (elem_of_scan_then _ _ _ _ _ _ _ Hs
               (λ f l Hf, elem_of_scan_file fs cache ext entry f l p h Hf)
               (λ f l Hf, IH f l p h Hf)).
    rewrite elem_of_cons. split.
    + intros [(-> & ?)|(? & ?)]; auto.
    + intros ([[= <-]|?] & ?); auto.
Qed.


Lemma elem_of_scan_extensions fs cache exts entries : ∀ found lg p h,
  scan_extensions md5_hexdigest fs cache exts entries = inr (found, lg) →
  (p, h) ∈ found ↔
  ∃ ext, ext ∈ exts ∧ (p, true) ∈ entries
         ∧ Py.endswith (PathLib.name p) ext = true
         ∧ h = hash_of fs p ∧ is_new_or_modified cache p h = true.
Proof.
  induction exts as [|ext rest IH]; intros found lg p h; simpl.
  - intros [= <- <-].
    split; [by intros ?%elem_of_nil | by intros (? & ?%elem_of_nil & _)].
  - intros Hs.
    rewrite (elem_of_scan_then _ _ _ _ _ _ _ Hs
               (λ f l Hf, elem_of_scan_entries fs cache ext entries f l p h Hf)
               (λ f l Hf, IH f l p h Hf)).
    split.
    + intros [?|(ext' & ? & ?)]; [exists ext | exists ext']; rewrite elem_of_cons; auto.
    + intros (ext' & [->|Hin]%elem_of_cons & ?); [by left | right; by exists ext'].
Qed.


(** The paths one folder entry makes the scan look at. *)
Lemma watched_cons fs fc rest p :
  watched fs (fc :: rest) p ↔ watched fs [fc] p ∨ watched fs rest p.
Proof.
  unfold watched. split.
  - intros (fc' & fd & es & ext & [->|?]%elem_of_cons & ?).
    + left. exists fc, fd, es, ext. split; [by left | done].
    + right. by exists fc', fd, es, ext.
  - intros [(fc' & fd & es & ext & ->%list_elem_of_singleton & ?)
           |(fc' & fd & es & ext & ? & ?)].
    + exists fc, fd, es, ext. split; [by left | done].
    + exists fc', fd, es, ext. split; [by right | done].
Qed.

Lemma watched_app fs l1 l2 p :
  watched fs (l1 ++ l2) p ↔ watched fs l1 p ∨ watched fs l2 p.
Proof.
  induction l1 as [|fc l1 IH]; simpl.
  - split; [by right|]. intros [(? & ? & ? & ? & ?%elem_of_nil & _)|?]; done.
  - rewrite watched_cons, IH, (watched_cons fs fc l1). tauto.
Qed.

Lemma elem_of_scan_folder fs cache fc found lg p h :
  scan_folder md5_hexdigest fs cache fc = inr (found, lg) →
  (p, h) ∈ found ↔
  watched fs [fc] p ∧ h = hash_of fs p ∧ is_new_or_modified cache p h = true.
Proof.
  unfold scan_folder, watched, folder_enabled.
  destruct (default true (fc_enabled fc)) eqn:Hen; simpl.
  - destruct (fc_path fc) as [folder|] eqn:Hp; [|done].
    destruct (fs_walk fs folder) as [entries|] eqn:Hw.
    + intros Hs. rewrite (elem_of_scan_extensions fs cache _ entries found lg p h Hs).
      split.
      * intros (ext & ? & ? & ? & ? & ?). split; [|done].
        exists fc, folder, entries, ext. rewrite list_elem_of_singleton. by auto 10.
      * intros ((fc' & fd & es & ext & ->%list_elem_of_singleton & _ & Hp' & Hw'
                 & ? & ? & ?) & ? & ?).
        exists ext. simplify_eq. by auto.
    + intros [= <- <-]. split; [by intros ?%elem_of_nil|].
      intros ((fc' & fd & es & ext & ->%list_elem_of_singleton & _ & Hp' & Hw' & _) & _).
      congruence.
  - intros [= <- <-]. split; [by intros ?%elem_of_nil|].
    intros ((fc' & fd & es & ext & ->%list_elem_of_singleton & ? & _) & _).
    congruence.
Qed.



Lemma elem_of_scan_folders fs cache folders : ∀ found lg p h,
  scan_folders md5_hexdigest fs cache folders = inr (found, lg) →
  (p, h) ∈ found ↔
  watched fs folders p ∧ h = hash_of fs p ∧ is_new_or_modified cache p h = true.
Proof.
  induction folders as [|fc rest IH]; intros found lg p h; simpl.
  - intros [= <- <-]. split; [by intros ?%elem_of_nil|].
    by intros [(? & ? & ? & ? & ?%elem_of_nil & _) _].
  - intros Hs.
    rewrite (elem_of_scan_then _ _ _ _ _ _ _ Hs
               (λ f l Hf, elem_of_scan_folder fs cache fc f l p h Hf)
               (λ f l Hf, IH f l p h Hf)).
    rewrite (watched_cons fs fc rest). tauto.
Qed.

(** The scan of a list of folders is the scan of its first part, then
    that of the rest. *)
Lemma scan_folders_app fs cache l1 l2 :
  scan_folders md5_hexdigest fs cache (l1 ++ l2)
  = scan_then (scan_folders md5_hexdigest fs cache l1)
              (scan_folders md5_hexdigest fs cache l2).
Proof.
  induction l1 as [|fc l1 IH].
  - symmetry. apply scan_then_nil_l.
  - cbn [app scan_folders]. by rewrite IH, scan_then_assoc.
Qed.

End ScanFacts.

Lemma is_new_or_modified_true cache p h :
  is_new_or_modified cache p h = true ↔ cache !! p ≠ Some h.
Proof.
  rewrite <- is_new_or_modified_false.
  destruct (is_new_or_modified cache p h); split; congruence.
Qed.

(** X1.  When the scan does not raise, it selects exactly the watched
    files whose present hash the cache does not hold: regular files below
    an enabled folder that exists, with a watched extension, each paired
    with its hash. *)
Theorem scan_selects_exactly (md5_hexdigest : string → string) env m found lg p h :
  scan_for_new_files md5_hexdigest env m = inr (found, lg) →
  (p, h) ∈ found ↔
  watched (env_fs env) (local_folders (config m)) p
  ∧ h = (calculate_file_hash md5_hexdigest (env_fs env) p).1
  ∧ processed_files_cache m !! p ≠ Some h.
Proof.
  intros Hs. rewrite <- is_new_or_modified_true.
  by apply (elem_of_scan_folders md5_hexdigest _ _ _ found lg).
Qed.

Lemma scan_selects_sample :
  ∃ found lg,
    scan_for_new_files Sample.digest Sample.env Sample.manager = inr (found, lg)
    ∧ ("docs/tiny.md", Sample.digest "Hi.") ∈ found
    ∧ watched Sample.fs (local_folders Sample.cfg) "docs/tiny.md".
Proof.
  eexists _, _. split; [reflexivity|].
  assert (Hin : ("docs/tiny.md", Sample.digest "Hi.")
                ∈ [("docs/guide.txt", Sample.digest Sample.guide);
                   ("docs/empty.txt", Sample.digest ("  " +:+ Sample.nl));
                   ("docs/locked.txt", ""); ("docs/tiny.md", Sample.digest "Hi.")]).
  { apply list_elem_of_In. simpl. tauto. }
  split; [exact Hin|].
  eapply (scan_selects_exactly Sample.digest Sample.env Sample.manager);
    [reflexivity | exact Hin].
Defined.



(** ** What a fragment carries *)

Section Metadata.

Variable Splitter : nat → nat → list string → string → list string.

(** Tagging writes its three keys and leaves every other key alone. *)
Lemma tagged_other_key prefix total i chunk k :
  k ≠ "chunk_id" → k ≠ "chunk_index" → k ≠ "total_chunks" →
  metadata (tagged prefix total i chunk) !! k = metadata chunk !! k.
Proof.
  intros H1 H2 H3. unfold tagged, metadata_update, chunk_fields; simpl.
  apply lookup_union_r.
  do 2 (rewrite lookup_insert_ne by done). by rewrite lookup_singleton_ne.
Qed.

Lemma tag_chunks_other_key prefix total min_size k v chunks : ∀ i,
  k ≠ "chunk_id" → k ≠ "chunk_index" → k ≠ "total_chunks" →
  Forall (λ c, metadata c !! k = Some v) chunks →
  Forall (λ d, metadata d !! k = Some v) (tag_chunks prefix total min_size i chunks).
Proof.
  induction chunks as [|c rest IH]; intros i H1 H2 H3 Hall; simpl; [constructor|].
  apply Forall_cons in Hall as [Hc Hrest].
  destruct (long_enough min_size c); [|by apply IH].
  constructor; [by rewrite tagged_other_key | by apply IH].
Qed.

Lemma file_chunks_metadata env m p h content :
  Forall (λ c, metadata c = file_metadata env m p h content)
         (file_chunks Splitter env m p h content).
Proof.
  unfold file_chunks, split_documents; simpl. rewrite app_nil_r.
  apply Forall_fmap, Forall_forall. by intros t _.
Qed.

(** The value every fragment of a file has under a key of the file's
    metadata. *)
Lemma process_file_key env m p h k v :
  k ≠ "chunk_id" → k ≠ "chunk_index" → k ≠ "total_chunks" →
  (∀ content, file_metadata env m p h content !! k = Some v) →
  Forall (λ d, metadata d !! k = Some v) (process_file Splitter env m p h).1.
Proof.
  intros H1 H2 H3 Hk.
  destruct (fs_read (env_fs env) p) as [raw|] eqn:Hr.
  - destruct (decide (Py.strip raw = "")) as [He|He].
    + rewrite (process_file_empty Splitter env m p h raw) by done. constructor.
    + rewrite (process_file_content Splitter env m p h raw) by done. simpl.
      apply tag_chunks_other_key; [done..|].
      eapply Forall_impl; [apply file_chunks_metadata|].
      intros c ->. apply Hk.
  - rewrite process_file_unreadable by done. constructor.
Qed.

(** X3.  Every fragment [process_file] returns says where it comes
    from: its metadata hold the file's path from the script directory,
    its name, its category, the hash the scan computed and the time of
    processing; tagging has not overwritten any of them. *)
Theorem fragment_metadata_cites_origin env m p h :
  Forall (λ d,
            metadata d !! "source" = Some (VStr p)
            ∧ metadata d !! "filename" = Some (VStr (PathLib.name p))
            ∧ metadata d !! "file_path" = Some (VStr (script_dir m +:+ "/" +:+ p))
            ∧ metadata d !! "category" = Some (VStr (category p))
            ∧ metadata d !! "file_hash" = Some (VStr h)
            ∧ metadata d !! "processed_at" = Some (VStr (env_now env)))
         (process_file Splitter env m p h).1.
Proof.
  repeat (apply Forall_and; split);
    (apply process_file_key; [done..|]); intros content; unfold file_metadata.
  - by rewrite lookup_insert_eq.
  - rewrite lookup_insert_ne by done. by rewrite lookup_insert_eq.
  - do 2 (rewrite lookup_insert_ne by done). by rewrite lookup_insert_eq.
  - do 6 (rewrite lookup_insert_ne by done). by rewrite lookup_singleton_eq.
  - do 4 (rewrite lookup_insert_ne by done). by rewrite lookup_insert_eq.
  - do 5 (rewrite lookup_insert_ne by done). by rewrite lookup_insert_eq.
Qed.

End Metadata.

(** ** More about one run *)

Section RunFacts.

Variable Splitter : nat → nat → list string → string → list string.
Variable md5_hexdigest : string → string.

Local Abbreviation scan := (scan_for_new_files md5_hexdigest).
Local Abbreviation run := (run_update Splitter md5_hexdigest).
Local Abbreviation kept := (retained Splitter).

Local Arguments update_vector_db : simpl never.
Local Arguments save_processed_files : simpl never.

Lemma process_all_chunks env m files : ∀ st,
  ls_all_chunks (process_all Splitter env m st files)
  = ls_all_chunks st ++ (files ≫= kept env m).
Proof.
  induction files as [|f rest IH]; intros st; simpl; [by rewrite app_nil_r|].
  rewrite IH. destruct (decide (kept env m f = [])) as [He|He].
  - rewrite process_one_empty by done. simpl. by rewrite He.
  - rewrite process_one_chunks by done. simpl. by rewrite <- app_assoc.
Qed.

Lemma process_all_new_files env m files : ∀ st,
  new_files (ls_stats (process_all Splitter env m st files))
  = new_files (ls_stats st)
    ++ ((λ f, (f.1, length (kept env m f))) <$> contributing Splitter env m files)
  ∧ files_processed (ls_stats (process_all Splitter env m st files))
    = files_processed (ls_stats st) + length (contributing Splitter env m files).
Proof.
  unfold contributing.
  induction files as [|f rest IH]; intros st; simpl.
  - by rewrite app_nil_r, Nat.add_0_r.
  - destruct (IH (process_one Splitter env m st f)) as [-> ->].
    rewrite filter_cons. destruct (decide (kept env m f = [])) as [He|He].
    + rewrite process_one_empty by done. by rewrite decide_False by auto.
    + rewrite process_one_chunks by done. rewrite decide_True by done. simpl.
      rewrite <- app_assoc. split; [done | lia].
Qed.

Lemma bind_length_contributing env m files :
  length (files ≫= kept env m)
  = sum_list ((λ f, length (kept env m f)) <$> contributing Splitter env m files).
Proof.
  unfold contributing. induction files as [|f rest IH]; [done|].
  rewrite bind_cons, length_app, IH, filter_cons.
  destruct (decide (kept env m f = [])) as [He|He].
  - rewrite decide_False by auto. by rewrite He.
  - by rewrite decide_True by done.
Qed.

(** What a run whose scan did not raise writes: the fragments of all
    selected files, in one call. *)
Lemma run_update_write env m found lg :
  scan env m = inr (found, lg) →
  let w := update_vector_db env (found ≫= kept env m) (vector_db m) in
  chunks_added (run env m).1.2 = w.1.1
  ∧ vector_db (run env m).1.1 = w.1.2
  ∧ new_files (run env m).1.2
    = (λ f, (f.1, length (kept env m f))) <$> contributing Splitter env m found
  ∧ files_processed (run env m).1.2 = length (contributing Splitter env m found).
Proof.
  intros Hs w. subst w.
  destruct (decide (found = [])) as [->|Hne].
  { by rewrite (run_update_nothing Splitter md5_hexdigest env m lg Hs). }
  rewrite (run_update_found Splitter md5_hexdigest env m found lg Hs Hne). simpl.
  destruct (process_all_new_files env m found (loop_start m lg found)) as [-> ->].
  by rewrite process_all_chunks.
Qed.

(** X4.  The statistics of a run agree with what it did: [new_files]
    lists the selected files that contributed fragments, each with the
    number of its fragments, which is never 0; [files_processed] counts
    them; [chunks_added] is the sum of these numbers when the store took
    the write and 0 when it did not; and the store has grown by exactly
    [chunks_added] entries. *)
Theorem run_stats_consistent env m found lg :
  scan env m = inr (found, lg) →
  let stats := (run env m).1.2 in
  let files := contributing Splitter env m found in
  new_files stats = (λ f, (f.1, length (kept env m f))) <$> files
  ∧ files_processed stats = length files
  ∧ Forall (λ e, 0 < e.2) (new_files stats)
  ∧ chunks_added stats
    = (if env_store_ok env then sum_list (new_files stats).*2 else 0)
  ∧ db_count (vector_db (run env m).1.1) = db_count (vector_db m) + chunks_added stats.
Proof.
  intros Hs stats files. subst stats files.
  destruct (run_update_write env m found lg Hs) as (Hadded & Hdb & Hnew & Hcount).
  rewrite Hnew, Hcount, Hadded, Hdb.
  set (files := contributing Splitter env m found).
  assert (Hpos : Forall (λ e : string * nat, 0 < e.2)
                   ((λ f, (f.1, length (kept env m f))) <$> files)).
  { apply Forall_fmap, Forall_forall. intros f [Hf _]%list_elem_of_filter. simpl.
    destruct (kept env m f); [done | simpl; lia]. }
  assert (Hsum : sum_list ((λ f, (f.1, length (kept env m f))) <$> files).*2
                 = length (found ≫= kept env m)).
  { by rewrite bind_length_contributing, <- list_fmap_compose. }
  split; [done|]. split; [done|]. split; [done|]. rewrite Hsum.
  destruct (decide (found ≫= kept env m = [])) as [He|He].
  { rewrite He, update_vector_db_nil. simpl.
    split; [by destruct (env_store_ok env) | lia]. }
  destruct (env_store_ok env) eqn:Hok.
  - rewrite update_vector_db_ok by done. simpl. split; [done|].
    unfold db_count; simpl. rewrite length_app, length_zip, length_seq. lia.
  - rewrite update_vector_db_failed by auto. simpl. split; [done | lia].
Qed.

(** A run over the files of the one before it adds nothing and leaves
    cache and store alone. *)
Lemma rerun_adds_nothing env1 env2 m :
  env_fs env2 = env_fs env1 →
  let m1 := (run env1 m).1.1 in
  chunks_added (run env2 m1).1.2 = 0
  ∧ processed_files_cache (run env2 m1).1.1 = processed_files_cache m1
  ∧ vector_db (run env2 m1).1.1 = vector_db m1.
Proof.
  intros Hfs m1.
  destruct (scan env2 m1) as [e2|[found2 lg2]] eqn:Hs2.
  { by rewrite (run_update_raises Splitter md5_hexdigest env2 m1 e2). }
  destruct (decide (found2 = [])) as [->|Hne].
  { by rewrite (run_update_nothing Splitter md5_hexdigest env2 m1 lg2). }
  rewrite (run_update_found Splitter md5_hexdigest env2 m1 found2 lg2) by done.
  destruct (process_all_nothing Splitter env2 m1 found2 (loop_start m1 lg2 found2))
    as (Hall & Hstats & Hcache).
  { by eapply second_scan_retains_nothing. }
  simpl in *. by rewrite Hall, Hcache, update_vector_db_nil.
Qed.

(** X5.  A write the store refuses is lost for good.  The run reports
    no error and no fragment added, the store is as before, but the
    cache already holds every file that contributed fragments; so a later
    run over the same files selects none of them, adds nothing, and their
    fragments never reach the store. *)
Theorem failed_write_is_not_retried env1 env2 m found lg :
  scan env1 m = inr (found, lg) →
  env_store_ok env1 = false → env_fs env2 = env_fs env1 →
  let r1 := run env1 m in
  chunks_added r1.1.2 = 0 ∧ errors r1.1.2 = 0
  ∧ vector_db r1.1.1 = vector_db m
  ∧ files_processed r1.1.2 = length (contributing Splitter env1 m found)
  ∧ Forall (λ f, processed_files_cache r1.1.1 !! f.1 = Some f.2)
           (contributing Splitter env1 m found)
  ∧ chunks_added (run env2 r1.1.1).1.2 = 0
  ∧ vector_db (run env2 r1.1.1).1.1 = vector_db m.
Proof.
  intros Hs Hok Hfs r1. subst r1.
  destruct (run_update_write env1 m found lg Hs) as (Hadded & Hdb & _ & Hcount).
  destruct (rerun_adds_nothing env1 env2 m Hfs) as (Hadded2 & _ & Hdb2).
  rewrite update_vector_db_failed in Hadded, Hdb by auto. simpl in Hadded, Hdb.
  split; [done|]. split.
  { rewrite run_update_errors. by rewrite Hs. }
  split; [done|]. split; [done|]. split; [|by rewrite Hdb2, Hdb].
  apply Forall_forall. intros f [Hf Hin]%list_elem_of_filter.
  rewrite (run_update_cache Splitter md5_hexdigest env1 m found lg Hs).
  pose proof (scan_hashed md5_hexdigest env1 m found lg Hs) as Hh.
  rewrite (proj1 (Forall_forall _ _) Hh f Hin).
  apply (process_all_cache_holds Splitter md5_hexdigest); [done|].
  right. by exists f.
Qed.

End RunFacts.

Lemma run_stats_sample :
  new_files (Sample.run Sample.env Sample.manager).1.2 = [("docs/guide.txt", 2)]
  ∧ chunks_added (Sample.run Sample.env Sample.manager).1.2 = 2
  ∧ db_count (vector_db (Sample.run Sample.env Sample.manager).1.1) = 2.
Proof.
  assert (∃ found lg,
            scan_for_new_files Sample.digest Sample.env Sample.manager
            = inr (found, lg)) as (found & lg & Hs).
  { eexists _, _. reflexivity. }
  destruct (run_stats_consistent Chunker.splitter Sample.digest
              Sample.env Sample.manager found lg Hs) as (_ & _ & _ & Hadded & Hdb).
  assert (Hnew : new_files (Sample.run Sample.env Sample.manager).1.2
                 = [("docs/guide.txt", 2)]) by (by vm_compute).
  unfold Sample.run in *. rewrite Hdb, Hadded, Hnew.
  split; [reflexivity|]. split; reflexivity.
Defined.

Lemma failed_write_sample :
  let r1 := Sample.run Fixtures.env_store_down Sample.manager in
  processed_files_cache r1.1.1 !! "docs/guide.txt" = Some (Sample.digest Sample.guide)
  ∧ chunks_added (Sample.run Sample.env_later r1.1.1).1.2 = 0
  ∧ vector_db (Sample.run Sample.env_later r1.1.1).1.1 = Sample.empty_db.
Proof.
  cbv zeta.
  assert (∃ found lg,
            scan_for_new_files Sample.digest Fixtures.env_store_down Sample.manager
            = inr (found, lg)
            ∧ ("docs/guide.txt", Sample.digest Sample.guide)
              ∈ contributing Chunker.splitter Fixtures.env_store_down Sample.manager found)
    as (found & lg & Hs & Hin).
  { eexists _, _. split; [reflexivity|]. apply list_elem_of_In. vm_compute. tauto. }
  destruct (failed_write_is_not_retried Chunker.splitter Sample.digest
              Fixtures.env_store_down Sample.env_later Sample.manager found lg Hs
              eq_refl eq_refl) as (_ & _ & _ & _ & Hcache & Hadded & Hdb).
  split; [|split; [exact Hadded | exact Hdb]].
  exact (proj1 (Forall_forall _ _) Hcache _ Hin).
Defined.

(** ** The cache over many runs and over a restart *)

Section CacheFacts.

Variable Splitter : nat → nat → list string → string → list string.
Variable md5_hexdigest : string → string.

Local Abbreviation run := (run_update Splitter md5_hexdigest).
Local Abbreviation runs := (run_many Splitter md5_hexdigest).

Lemma run_update_cache_kept env m k :
  is_Some (processed_files_cache m !! k) →
  is_Some (processed_files_cache (run env m).1.1 !! k).
Proof.
  intros Hk.
  destruct (decide (processed_files_cache (run env m).1.1 !! k
                    = processed_files_cache m !! k)) as [->|Hne]; [done|].
  apply run_update_cache_frame in Hne as (found & lg & f & _ & _ & _ & _ & ->).
  eauto.
Qed.

(** A key no selected file has keeps its entry, or its lack of one. *)
Lemma run_update_unwatched env m k :
  ¬ watched (env_fs env) (local_folders (config m)) k →
  processed_files_cache (run env m).1.1 !! k = processed_files_cache m !! k.
Proof.
  intros Hk.
  destruct (decide (processed_files_cache (run env m).1.1 !! k
                    = processed_files_cache m !! k)) as [|Hne]; [done|].
  apply run_update_cache_frame in Hne as (found & lg & [p h] & Hs & Hin & <- & _).
  apply (elem_of_scan_folders md5_hexdigest _ _ _ found lg p h Hs) in Hin as [Hw _].
  done.
Qed.

(** X6.  The cache never forgets: an entry, once written, is there after
    any number of runs, and the entry of a file that is no longer watched
    (deleted, renamed, its folder disabled) keeps its old hash for ever. *)
Theorem cache_never_forgets envs : ∀ m k,
  (is_Some (processed_files_cache m !! k) →
   is_Some (processed_files_cache (runs envs m) !! k))
  ∧ (Forall (λ e, ¬ watched (env_fs e) (local_folders (config m)) k) envs →
     processed_files_cache (runs envs m) !! k = processed_files_cache m !! k).
Proof.
  induction envs as [|e rest IH]; intros m k; simpl; [done|].
  destruct (IH (run e m).1.1 k) as [IH1 IH2]. split.
  - intros Hk. by apply IH1, run_update_cache_kept.
  - intros [He Hrest]%Forall_cons. rewrite IH2.
    + by apply run_update_unwatched.
    + destruct (run_update_config Splitter md5_hexdigest e m) as [-> _]. done.
Qed.

(** X7.  What the next process starts from depends on how the run's
    save ended.  After a run that saved the cache, the next process starts
    as the manager the run left, and its run over the same files adds
    nothing.  After a save that failed at [open], it starts from the cache
    of before the run.  After a save that failed once the file was opened,
    and so emptied, it starts from an empty cache.  In both failures the
    store already holds the run's fragments. *)
Theorem restart_resumes_from_saved_cache su env1 env2 m :
  manager_init su = inr m →
  let m1 := (run env1 m).1.1 in
  (env_save_ok env1 = true → env_fs env2 = env_fs env1 →
     manager_init (restart su m1) = inr m1
     ∧ chunks_added (run env2 m1).1.2 = 0)
  ∧ (env_save_ok env1 = false → env_save_tears env1 = false →
     ∃ m', manager_init (restart su m1) = inr m'
           ∧ processed_files_cache m' = processed_files_cache m
           ∧ vector_db m' = vector_db m1)
  ∧ (env_save_ok env1 = false → env_save_tears env1 = true →
     ∀ found lg,
       scan_for_new_files md5_hexdigest env1 m = inr (found, lg) → found ≠ [] →
       ∃ m', manager_init (restart su m1) = inr m'
             ∧ processed_files_cache m' = ∅
             ∧ vector_db m' = vector_db m1).
Proof.
  intros Hinit m1. unfold manager_init in Hinit.
  destruct (su_config su) as [cfg|] eqn:Hcfg; [|done].
  destruct (su_components_ok su) eqn:Hok; [|done].
  injection Hinit as <-.
  set (m := {| script_dir := su_script_dir su; config := cfg;
               processed_files_cache := default ∅ (su_cache_file su);
               vector_db := su_vector_db su; cache_file := su_cache_file su |}) in *.
  assert (Hinit1 : manager_init (restart su m1)
                   = inr {| script_dir := su_script_dir su; config := cfg;
                            processed_files_cache := default ∅ (cache_file m1);
                            vector_db := vector_db m1; cache_file := cache_file m1 |}).
  { unfold manager_init, restart; simpl. by rewrite Hcfg, Hok. }
  destruct (scan_for_new_files md5_hexdigest env1 m) as [e|[found lg]] eqn:Hs.
  { assert (m1 = m) as Hm1.
    { unfold m1. by rewrite (run_update_raises Splitter md5_hexdigest env1 m e). }
    rewrite Hinit1, Hm1. split; [|split; [|done]].
    - intros _ Hfs. split; [done|].
      rewrite <- Hm1. by apply (rerun_adds_nothing Splitter md5_hexdigest env1 env2 m).
    - intros _ _. eauto. }
  destruct (decide (found = [])) as [->|Hne].
  { assert (m1 = m) as Hm1.
    { unfold m1. by rewrite (run_update_nothing Splitter md5_hexdigest env1 m lg). }
    rewrite Hinit1, Hm1. split; [|split].
    - intros _ Hfs. split; [done|].
      rewrite <- Hm1. by apply (rerun_adds_nothing Splitter md5_hexdigest env1 env2 m).
    - intros _ _. eauto.
    - by intros _ _ ? ? [= <- <-]. }
  assert (Hm1 : m1 = (run env1 m).1.1) by done.
  rewrite (run_update_found Splitter md5_hexdigest env1 m found lg Hs Hne) in Hm1.
  simpl in Hm1. unfold save_processed_files in Hm1. split; [|split].
  - intros Hsave Hfs. rewrite Hsave in Hm1. simpl in Hm1. split.
    + rewrite Hinit1. f_equal. rewrite Hm1. reflexivity.
    + by apply (rerun_adds_nothing Splitter md5_hexdigest env1 env2 m).
  - intros Hsave Htears. rewrite Hsave, Htears in Hm1. simpl in Hm1.
    eexists. split; [exact Hinit1|]. simpl. rewrite Hm1. done.
  - intros Hsave Htears _ _ _ _. rewrite Hsave, Htears in Hm1. simpl in Hm1.
    eexists. split; [exact Hinit1|]. simpl. rewrite Hm1. done.
Qed.

End CacheFacts.

Lemma cache_never_forgets_sample :
  processed_files_cache
    (run_many Chunker.splitter Sample.digest [Sample.env; Sample.env_later]
       Fixtures.manager_stale) !! "docs/gone.txt"
  = Some "md5:gone".
Proof.
  destruct (cache_never_forgets Chunker.splitter Sample.digest
              [Sample.env; Sample.env_later] Fixtures.manager_stale "docs/gone.txt")
    as [_ H].
  rewrite H; [reflexivity|].
  assert (Hno : ¬ watched Sample.fs (local_folders Sample.cfg) "docs/gone.txt").
  { intros (fc & folder & entries & ext & Hfc & _ & Hp & Hw & Hin & _).
    apply list_elem_of_singleton in Hfc as ->. simpl in Hp. injection Hp as <-.
    simpl in Hw. injection Hw as <-.
    apply list_elem_of_In in Hin. simpl in Hin. intuition discriminate. }
  by repeat constructor.
Defined.

Lemma restart_sample :
  (manager_init (restart Sample.startup (Sample.run Sample.env Sample.manager).1.1)
   = inr (Sample.run Sample.env Sample.manager).1.1
   ∧ chunks_added
       (Sample.run Sample.env_later (Sample.run Sample.env Sample.manager).1.1).1.2 = 0)
  ∧ ∃ m', manager_init
            (restart Sample.startup
               (Sample.run Fixtures.env_save_torn Sample.manager).1.1) = inr m'
          ∧ processed_files_cache m' = ∅
          ∧ vector_db m'
            = vector_db (Sample.run Fixtures.env_save_torn Sample.manager).1.1.
Proof.
  split.
  - apply (restart_resumes_from_saved_cache Chunker.splitter Sample.digest
             Sample.startup Sample.env Sample.env_later Sample.manager);
      reflexivity.
  - destruct (restart_resumes_from_saved_cache Chunker.splitter Sample.digest
                Sample.startup Fixtures.env_save_torn Sample.env_later Sample.manager
                eq_refl) as (_ & _ & H).
    eapply (H eq_refl eq_refl); [vm_compute; reflexivity | discriminate].
Defined.

(** ** Python's strings: lines, substrings and relative paths *)

Section StringFacts.

Import PyStr.

Lemma string_app_cons c a b : String c a +:+ b = String c (a +:+ b).
Proof. reflexivity. Qed.

Lemma string_app_nil_l b : "" +:+ b = b.
Proof. reflexivity. Qed.

Lemma string_app_assoc a b c : (a +:+ b) +:+ c = a +:+ (b +:+ c).
Proof.
  induction a as [|x a IH]; [done|].
  rewrite !string_app_cons. by rewrite IH.
Qed.

Lemma split_lines_not_nil s : split_lines s ≠ [].
Proof.
  destruct s as [|c s]; simpl; [done|].
  destruct (Ascii.eqb c newline); [done|]. by destruct (split_lines s).
Qed.

(** [s.split('\n')] cuts at every line break; ['\n'.join] undoes it. *)
Lemma join_split_lines s : join_lines (split_lines s) = s.
Proof.
  induction s as [|c s IH]; [done|]. simpl.
  destruct (Ascii.eqb c newline) eqn:Hc.
  - apply Ascii.eqb_eq in Hc as ->.
    pose proof (split_lines_not_nil s) as Hne.
    destruct (split_lines s) as [|l ls] eqn:Hs; [done|].
    change (join_lines ("" :: l :: ls)) with ("" +:+ String newline (join_lines (l :: ls))).
    by rewrite IH.
  - pose proof (split_lines_not_nil s) as Hne.
    destruct (split_lines s) as [|l ls] eqn:Hs; [done|].
    destruct ls as [|l' ls]; simpl in *; [by rewrite IH|].
    rewrite string_app_cons. by rewrite IH.
Qed.

Lemma split_lines_app a b :
  split_lines (a +:+ String newline b) = split_lines a ++ split_lines b.
Proof.
  induction a as [|c a IH].
  - reflexivity.
  - rewrite string_app_cons. simpl. destruct (Ascii.eqb c newline); [by rewrite IH|].
    rewrite IH. pose proof (split_lines_not_nil a).
    by destruct (split_lines a).
Qed.

Lemma contains_cons sub c s : contains sub s = true → contains sub (String c s) = true.
Proof. intros H. simpl. rewrite H. apply orb_true_r. Qed.

Lemma prefix_app sub s t : String.prefix sub s = true → String.prefix sub (s +:+ t) = true.
Proof.
  revert s. induction sub as [|x sub IH]; intros s.
  { intros _. by destruct (s +:+ t). }
  destruct s as [|y s]; simpl; [done|].
  destruct (ascii_dec x y); [apply IH | done].
Qed.

Lemma contains_app_r sub a b : contains sub b = true → contains sub (a +:+ b) = true.
Proof.
  intros H. induction a as [|c a IH]; [done|].
  rewrite string_app_cons. by apply contains_cons.
Qed.

Lemma contains_app_l sub a b : contains sub a = true → contains sub (a +:+ b) = true.
Proof.
  induction a as [|c a IH].
  - destruct sub; simpl; [intros _|done].
    destruct b; reflexivity.
  - rewrite string_app_cons. simpl. intros [H|H]%orb_true_iff.
    + apply (prefix_app _ (String c a) b) in H. rewrite string_app_cons in H.
      simpl in H. by rewrite H.
    + rewrite (IH H). apply orb_true_r.
Qed.

(** A line of a text holds no more than the text. *)
Lemma contains_line sub s line :
  line ∈ split_lines s → contains sub line = true → contains sub s = true.
Proof.
  revert line. induction s as [|c s IH]; intros line; simpl.
  - by intros ->%list_elem_of_singleton.
  - destruct (Ascii.eqb c newline) eqn:Hc.
    + intros [->|Hin]%elem_of_cons Hl.
      * destruct sub; [reflexivity | done].
      * rewrite (IH _ Hin Hl). apply orb_true_r.
    + pose proof (split_lines_not_nil s).
      destruct (split_lines s) as [|l ls] eqn:Hs; [done|].
      intros [->|Hin]%elem_of_cons Hl.
      * simpl in Hl. apply orb_true_iff in Hl as [Hl|Hl].
        -- destruct sub as [|x sub]; [reflexivity|].
           simpl in Hl. destruct (ascii_dec x c) as [->|]; [|done].
           assert (String.prefix sub s = true) as Hp.
           { rewrite <- (join_split_lines s), Hs.
             destruct ls; simpl; [done|]. by apply prefix_app. }
           simpl. destruct (ascii_dec c c); [|done]. by rewrite Hp.
        -- rewrite (IH l) by (by left || done). apply orb_true_r.
      * rewrite (IH line) by (by right || done). apply orb_true_r.
Qed.

Lemma prefix_cons x sub c s :
  String.prefix (String x sub) (String c s)
  = if ascii_dec x c then String.prefix sub s else false.
Proof. reflexivity. Qed.

Lemma prefix_nil s : String.prefix "" s = true.
Proof. by destruct s. Qed.

Lemma contains_unfold sub c s :
  contains sub (String c s) = String.prefix sub (String c s) || contains sub s.
Proof. reflexivity. Qed.

Lemma one_line_cons c s :
  one_line (String c s) ↔ c ≠ newline ∧ one_line s.
Proof.
  unfold one_line. rewrite contains_unfold, prefix_cons, prefix_nil.
  destruct (ascii_dec newline c) as [<-|Hc].
  - split; [done | by intros [? _]].
  - rewrite orb_false_l. split; [intros H; split; [congruence | done] | by intros [_ H]].
Qed.

Lemma split_lines_one_line s : one_line s → split_lines s = [s].
Proof.
  induction s as [|c s IH]; [done|].
  intros [Hc Hs]%one_line_cons. simpl.
  destruct (Ascii.eqb c newline) eqn:E; [by apply Ascii.eqb_eq in E|].
  by rewrite IH.
Qed.

Lemma join_lines_snoc ls l :
  ls ≠ [] → join_lines (ls ++ [l]) = join_lines ls +:+ String newline l.
Proof.
  induction ls as [|a ls IH]; [done|]. intros _.
  destruct ls as [|b ls]; [done|].
  change (join_lines ((a :: b :: ls) ++ [l]))
    with (a +:+ String newline (join_lines ((b :: ls) ++ [l]))).
  rewrite IH by done.
  change (join_lines (a :: b :: ls)) with (a +:+ String newline (join_lines (b :: ls))).
  rewrite string_app_assoc. by rewrite string_app_cons.
Qed.

Lemma prefix_before_newline sub : ∀ a b,
  one_line sub → String.prefix sub (a +:+ String newline b) = true →
  String.prefix sub a = true.
Proof.
  induction sub as [|x sub IH]; intros a b Hsub; [by destruct a|].
  apply one_line_cons in Hsub as [Hx Hsub].
  destruct a as [|c a].
  - rewrite string_app_nil_l, prefix_cons. by destruct (ascii_dec x newline).
  - rewrite string_app_cons, !prefix_cons.
    destruct (ascii_dec x c); [by apply IH | done].
Qed.

(** A text without a line break that occurs in two joined texts occurs
    in one of them. *)
Lemma contains_across_newline sub a b :
  one_line sub → sub ≠ "" →
  contains sub (a +:+ String newline b) = true →
  contains sub a = true ∨ contains sub b = true.
Proof.
  intros Hsub Hne. induction a as [|c a IH].
  - rewrite string_app_nil_l, contains_unfold.
    intros [H|H]%orb_true_iff; [|by right].
    destruct sub as [|x sub]; [done|]. apply one_line_cons in Hsub as [Hx _].
    rewrite prefix_cons in H. by destruct (ascii_dec x newline).
  - rewrite string_app_cons, contains_unfold.
    intros [H|H]%orb_true_iff.
    + left. rewrite <- string_app_cons in H.
      apply prefix_before_newline in H; [|done].
      rewrite contains_unfold. by rewrite H.
    + destruct (IH H) as [Ha|Hb]; [left | by right]. by apply contains_cons.
Qed.

Lemma contains_join_lines sub ls :
  one_line sub → sub ≠ "" →
  contains sub (join_lines ls) = true → ∃ l, l ∈ ls ∧ contains sub l = true.
Proof.
  intros Hsub Hne. induction ls as [|a ls IH].
  - simpl. by destruct sub.
  - destruct ls as [|b ls].
    + simpl. intros H. exists a. split; [by left | done].
    + change (join_lines (a :: b :: ls))
        with (a +:+ String newline (join_lines (b :: ls))).
      intros [H|H]%contains_across_newline; [| |done..].
      * exists a. split; [by left | done].
      * destruct (IH H) as (l & Hl & Hc). exists l. split; [by right | done].
Qed.

Lemma strip_prefix_Some pre : ∀ s r,
  PyStr.strip_prefix pre s = Some r ↔ s = pre +:+ r.
Proof.
  induction pre as [|a pre IH]; intros s r; simpl.
  - split; [by intros [= ->] | by intros ->].
  - destruct s as [|b s].
    + split; [done | intros H; discriminate H].
    + destruct (Ascii.eqb a b) eqn:E.
      * apply Ascii.eqb_eq in E as ->. rewrite IH.
        split; [by intros -> | by intros [= ->]].
      * split; [done|]. intros [= -> _]. by rewrite Ascii.eqb_refl in E.
Qed.

Lemma relative_to_Some base p rel :
  PyStr.relative_to base p = Some rel ↔ p = base +:+ "/" +:+ rel.
Proof. unfold PyStr.relative_to. by rewrite strip_prefix_Some, string_app_assoc. Qed.

Lemma contains_underscore_cons c s :
  contains "_" (String c s) = false ↔ c ≠ "_"%char ∧ contains "_" s = false.
Proof.
  rewrite contains_unfold, prefix_cons, prefix_nil.
  destruct (ascii_dec "_" c) as [<-|Hc].
  - split; [done | by intros [? _]].
  - rewrite orb_false_l. split; [intros H; split; [congruence | done] | by intros [_ H]].
Qed.

Lemma pretty_N_go_no_underscore x : ∀ s,
  contains "_" s = false → contains "_" (pretty_N_go x s) = false.
Proof.
  induction (N.lt_wf_0 x) as [x _ IH]; intros s Hs.
  assert (x = 0 ∨ 0 < x)%N as [->|?] by lia.
  - by rewrite pretty_N_go_0.
  - rewrite pretty_N_go_step by done. apply IH.
    { by apply N.div_lt. }
    apply contains_underscore_cons. split; [|done].
    unfold pretty_N_char. by repeat case_match.
Qed.

Lemma str_of_nat_no_underscore i : contains "_" (Py.str_of_nat i) = false.
Proof.
  unfold Py.str_of_nat, pretty, pretty_nat, pretty, pretty_N.
  case_decide; [done|]. by apply pretty_N_go_no_underscore.
Qed.

(** The number is what follows the last ["_"] of an identifier. *)
Lemma underscore_number_inj s1 : ∀ s2 d1 d2,
  contains "_" d1 = false → contains "_" d2 = false →
  s1 +:+ "_" +:+ d1 = s2 +:+ "_" +:+ d2 → s1 = s2 ∧ d1 = d2.
Proof.
  assert (Hno : ∀ s d d', contains "_" d = false → d ≠ s +:+ "_" +:+ d').
  { intros s d d' Hd ->. rewrite contains_app_r in Hd; [done|].
    by rewrite string_app_cons, contains_unfold, prefix_cons, prefix_nil. }
  induction s1 as [|c s1 IH]; intros [|c' s2] d1 d2 H1 H2;
    rewrite ?string_app_nil_l, ?string_app_cons.
  - intros [= Heq]. change (d1 = d2) in Heq. by subst.
  - intros [= <- Heq]. by apply Hno in Heq.
  - intros [= -> Heq]. symmetry in Heq. by apply Hno in Heq.
  - intros [= -> Heq]. by apply IH in Heq as [-> ->].
Qed.

End StringFacts.

(** ** The crontab ([scheduler.py]) *)

Section CronFacts.

Import PyStr Cli.

(** The flag [skip_next] has no part in the result: the loop keeps the
    lines that mention neither the marker nor the script. *)
Lemma remove_lines_filter lines : ∀ skip_next,
  remove_lines skip_next lines
  = filter (λ line, contains marker line = false ∧ contains script_name line = false)
      lines.
Proof.
  induction lines as [|line rest IH]; intros skip_next; [done|].
  simpl. rewrite filter_cons.
  destruct (contains marker line) eqn:Hm.
  { rewrite decide_False by (by intros [? _]). apply IH. }
  destruct (contains script_name line) eqn:Hs.
  - rewrite decide_False by (by intros [_ ?]). destruct skip_next; simpl; apply IH.
  - rewrite decide_True by done. rewrite andb_false_r. simpl. by rewrite IH.
Qed.

Lemma entry_names_script expression script_dir executable :
  contains script_name (generate_cron_entry expression script_dir executable) = true.
Proof.
  unfold generate_cron_entry.
  do 6 apply contains_app_r. apply contains_app_l.
  apply contains_app_r. by apply contains_app_r.
Qed.

Lemma installed_lines_names_script entry :
  contains script_name entry = true →
  contains script_name (installed_lines entry) = true.
Proof.
  intros H. unfold installed_lines.
  apply contains_app_r, contains_app_l. by apply contains_cons.
Qed.

Lemma filter_all {A} (P : A → Prop) `{∀ x, Decision (P x)} (l : list A) :
  Forall P l → filter P l = l.
Proof.
  induction 1 as [|x l Hx _ IH]; [done|].
  rewrite filter_cons, decide_True by done. by rewrite IH.
Qed.

Local Abbreviation kept_line :=
  (λ line : string, contains marker line = false ∧ contains script_name line = false).

(** X8.  [remove_cron] drops every line that mentions the marker or the
    script, whether [install_cron] wrote it or not: the crontab it
    installs is the old one without these lines and no longer names the
    script. *)
Theorem remove_cron_drops_every_mention host c :
  posix host = true → crontab_starts host = true → crontab_accepts host = true →
  ∃ c', remove_cron host (Some c) = (true, Some c')
        ∧ c' = join_lines (filter kept_line (split_lines c))
        ∧ contains script_name c' = false
        ∧ contains marker c' = false.
Proof.
  intros Hp Hs Ha. unfold remove_cron. rewrite Hp, Hs, Ha. simpl.
  rewrite remove_lines_filter. eexists. split; [done|]. split; [done|].
  split.
  - destruct (contains script_name (join_lines _)) eqn:Hc; [|done].
    apply contains_join_lines in Hc as (l & [[_ Hl] _]%list_elem_of_filter & Hc);
      [congruence | by vm_compute | done].
  - destruct (contains marker (join_lines _)) eqn:Hc; [|done].
    apply contains_join_lines in Hc as (l & [[Hl _] _]%list_elem_of_filter & Hc);
      [congruence | by vm_compute | done].
Qed.

(** X9.  A second [install_cron] changes nothing: once a call has
    returned [True] the crontab names the script, so every later call
    returns [True] without writing, whatever entry the configuration
    gives by then. *)
Theorem install_cron_is_idempotent host host' expression expression' script_dir executable c :
  let entry := generate_cron_entry expression script_dir executable in
  let entry' := generate_cron_entry expression' script_dir executable in
  (install_cron host entry c).1 = true →
  posix host' = true → crontab_starts host' = true →
  install_cron host' entry' (install_cron host entry c).2
  = (true, (install_cron host entry c).2).
Proof.
  intros entry entry'. unfold install_cron at 1 3 4.
  destruct (posix host); simpl; [|done].
  destruct (crontab_starts host); simpl; [|done].
  destruct (contains script_name (default "" c)) eqn:Hc; simpl.
  - intros _ Hp Hs. unfold install_cron. rewrite Hp, Hs. simpl. by rewrite Hc.
  - destruct (crontab_accepts host); simpl; [|done].
    intros _ Hp Hs. unfold install_cron. rewrite Hp, Hs. simpl.
    rewrite contains_app_r; [done|].
    apply installed_lines_names_script, entry_names_script.
Qed.

(** X10.  [remove_cron] after [install_cron] does not give the crontab
    back as it was: the two lines that were added are gone, the line
    break that ended them stays.  A host without crontab has one of a
    single empty line afterwards. *)
Theorem remove_cron_after_install host expression script_dir executable c :
  let entry := generate_cron_entry expression script_dir executable in
  posix host = true → crontab_starts host = true → crontab_accepts host = true →
  one_line entry →
  contains script_name (default "" c) = false →
  contains marker (default "" c) = false →
  install_cron host entry c = (true, Some (default "" c +:+ installed_lines entry))
  ∧ remove_cron host (install_cron host entry c).2
    = (true, Some (default "" c +:+ String newline "")).
Proof.
  intros entry Hp Hs Ha Hone Hscript Hmarker.
  assert (Hi : install_cron host entry c
               = (true, Some (default "" c +:+ installed_lines entry))).
  { unfold install_cron. rewrite Hp, Hs, Ha. simpl. by rewrite Hscript. }
  split; [done|]. rewrite Hi. simpl.
  unfold remove_cron. rewrite Hp, Hs, Ha. simpl.
  rewrite remove_lines_filter. do 2 f_equal.
  assert (Hl : installed_lines entry
               = String newline (("# " +:+ marker)
                   +:+ String newline (entry +:+ String newline ""))) by reflexivity.
  rewrite Hl, !split_lines_app.
  rewrite (split_lines_one_line ("# " +:+ marker)) by (by vm_compute).
  rewrite (split_lines_one_line entry) by done.
  rewrite !filter_app, filter_all.
  - assert (filter kept_line ["# " +:+ marker] = []
                    ∧ filter kept_line [entry] = []
                    ∧ filter kept_line (split_lines "") = [""]) as (-> & -> & ->).
    { split; [|split].
      - rewrite filter_cons, decide_False; [done|]. intros [Hm _]. by vm_compute in Hm.
      - rewrite filter_cons, decide_False; [done|]. intros [_ He].
        unfold entry in He. by rewrite entry_names_script in He.
      - by vm_compute. }
    simpl. rewrite join_lines_snoc by apply split_lines_not_nil.
    by rewrite join_split_lines.
  - apply Forall_forall. intros line Hin. split.
    + destruct (contains marker line) eqn:E; [|done].
      by rewrite (contains_line _ _ _ Hin E) in Hmarker.
    + destruct (contains script_name line) eqn:E; [|done].
      by rewrite (contains_line _ _ _ Hin E) in Hscript.
Qed.

End CronFacts.

Lemma remove_cron_sample :
  ∃ c', Cli.remove_cron Fixtures.host_ok
          (Some (Fixtures.crontab_before +:+ "17 * * * * python3 /opt/other/update_index.py"))
        = (true, Some c')
        ∧ PyStr.contains Cli.script_name c' = false.
Proof.
  destruct (remove_cron_drops_every_mention Fixtures.host_ok
              (Fixtures.crontab_before +:+ "17 * * * * python3 /opt/other/update_index.py")
              eq_refl eq_refl eq_refl) as (c' & H1 & _ & H2 & _).
  by exists c'.
Defined.

Lemma install_cron_twice_sample :
  Cli.install_cron Fixtures.host_ok (Cli.generate_cron_entry (Some "*/5 * * * *") "/srv/task6" "/usr/bin/python3")
    (Cli.install_cron Fixtures.host_ok Fixtures.cron_entry (Some Fixtures.crontab_before)).2
  = (true, (Cli.install_cron Fixtures.host_ok Fixtures.cron_entry (Some Fixtures.crontab_before)).2).
Proof.
  apply (install_cron_is_idempotent Fixtures.host_ok Fixtures.host_ok None
           (Some "*/5 * * * *") "/srv/task6" "/usr/bin/python3"
           (Some Fixtures.crontab_before)); reflexivity.
Defined.

Lemma remove_cron_after_install_sample :
  Cli.remove_cron Fixtures.host_ok
    (Cli.install_cron Fixtures.host_ok Fixtures.cron_entry (Some Fixtures.crontab_before)).2
  = (true, Some (Fixtures.crontab_before +:+ String PyStr.newline "")).
Proof.
  apply (remove_cron_after_install Fixtures.host_ok None "/srv/task6" "/usr/bin/python3"
           (Some Fixtures.crontab_before)); reflexivity.
Defined.

(** ** The interval loop left alone *)

Section QuietWorker.

Import Scheduler.

Lemma exec_app acts acts' : ∀ s,
  exec (acts ++ acts') s
  = ((exec acts' (exec acts s).1).1,
     (exec acts s).2 ++ (exec acts' (exec acts s).1).2).
Proof.
  induction acts as [|[r|] rest IH]; intros s.
  - simpl. by destruct (exec acts' s).
  - rewrite <- app_comm_cons, !exec_worker, IH. simpl. by rewrite app_assoc.
  - simpl. apply IH.
Qed.

Lemma run_quiet_add n n' s :
  run_quiet (n + n') s
  = ((run_quiet n' (run_quiet n s).1).1,
     (run_quiet n s).2 ++ (run_quiet n' (run_quiet n s).1).2).
Proof. unfold run_quiet. by rewrite replicate_add, exec_app. Qed.

Lemma run_quiet_S n s :
  run_quiet (S n) s
  = ((run_quiet n (worker_step false s).1).1,
     (worker_step false s).2 ++ (run_quiet n (worker_step false s).1).2).
Proof. unfold run_quiet. simpl replicate. apply exec_worker. Qed.

(** The [for] loop left alone: [k] increments of one second, then back
    to the [while] test. *)
Lemma sleep_loop_quiet k : ∀ s,
  running s = true → at_point s = AtFor k →
  run_quiet (2 * k + 1) s = (goto s AtWhile, replicate k (Slept 1)).
Proof.
  induction k as [|k IH]; intros [r n pt]; cbn [running at_point]; intros -> ->.
  - reflexivity.
  - replace (2 * S k + 1) with (S (S (2 * k + 1))) by lia.
    rewrite !run_quiet_S. do 2 (cbn [worker_step at_point running fst snd interval_seconds];
          unfold goto).
    cbn [at_point running interval_seconds].
    rewrite (IH {| running := true; interval_seconds := n; at_point := AtFor k |})
      by done.
    reflexivity.
Qed.

Lemma slept_app evs evs' : slept (evs ++ evs') = slept evs + slept evs'.
Proof.
  induction evs as [|[| | |n] evs IH]; simpl; try done. rewrite IH. lia.
Qed.

Lemma slept_replicate k : slept (replicate k (Slept 1)) = k.
Proof. induction k as [|k IH]; simpl; [done | by rewrite IH]. Qed.

Lemma cycles_started_replicate k : cycles_started (replicate k (Slept 1)) = 0.
Proof. induction k as [|k IH]; [done|]. exact IH. Qed.

Lemma quiet_cycle s :
  running s = true → at_point s = AtWhile →
  run_quiet (2 * interval_seconds s + 3) s
  = (s, CycleStarted :: CycleFinished :: replicate (interval_seconds s) (Slept 1)).
Proof.
  destruct s as [r n pt]; cbn [running at_point interval_seconds]; intros -> ->.
  replace (2 * n + 3) with (S (S (2 * n + 1))) by lia.
  rewrite !run_quiet_S. do 2 (cbn [worker_step at_point running fst snd interval_seconds];
          unfold goto).
    cbn [at_point running interval_seconds].
  rewrite (sleep_loop_quiet n
             {| running := true; interval_seconds := n; at_point := AtFor n |})
    by done.
  reflexivity.
Qed.

(** X11.  Left alone, the worker is periodic: one cycle takes
    [2 * interval_seconds + 3] steps, starts the update script once,
    sleeps [interval_seconds] increments of one second and is then back
    at the [while] test in the state it started from.  So after [m]
    periods it has started [m] cycles and slept [m * interval_seconds]
    seconds. *)
Theorem quiet_worker_is_periodic m s :
  running s = true → at_point s = AtWhile →
  let period := 2 * interval_seconds s + 3 in
  run_quiet period s
  = (s, CycleStarted :: CycleFinished :: replicate (interval_seconds s) (Slept 1))
  ∧ (run_quiet (m * period) s).1 = s
  ∧ cycles_started (run_quiet (m * period) s).2 = m
  ∧ slept (run_quiet (m * period) s).2 = m * interval_seconds s.
Proof.
  intros Hr Hp period. split; [by apply quiet_cycle|].
  induction m as [|m (IH1 & IH2 & IH3)]; [done|].
  replace (S m * period) with (m * period + period) by lia.
  rewrite run_quiet_add. simpl. rewrite IH1.
  unfold period at 1 3 5. rewrite quiet_cycle by done. simpl.
  split; [done|]. rewrite cycles_started_app, slept_app, IH2, IH3. simpl.
  rewrite slept_replicate.
  change (cycles_started (CycleStarted :: CycleFinished
                          :: replicate (interval_seconds s) (Slept 1)))
    with (S (cycles_started (replicate (interval_seconds s) (Slept 1)))).
  rewrite cycles_started_replicate. lia.
Qed.

End QuietWorker.

Lemma quiet_worker_sample :
  let s := {| Scheduler.running := true; Scheduler.interval_seconds := 120;
              Scheduler.at_point := Scheduler.AtWhile |} in
  (Scheduler.run_quiet (3 * 243) s).1 = s
  ∧ Scheduler.cycles_started (Scheduler.run_quiet (3 * 243) s).2 = 3
  ∧ Scheduler.slept (Scheduler.run_quiet (3 * 243) s).2 = 360.
Proof.
  intros s.
  destruct (quiet_worker_is_periodic 3 s eq_refl eq_refl) as (_ & H1 & H2 & H3).
  by split; [|split].
Defined.

(** ** The full build ([build_index.py]) *)

Section LoadFacts.

Import KnowledgeBase.

Variable Splitter : nat → nat → list string → string → list string.

Local Abbreviation loaded fs base entries :=
  (λ d : Document,
     ∃ rel raw,
       (base +:+ "/" +:+ rel, true) ∈ entries
       ∧ Py.endswith (PathLib.name (base +:+ "/" +:+ rel)) ".txt" = true
       ∧ fs_read fs (base +:+ "/" +:+ rel) = Some raw
       ∧ Py.strip raw ≠ ""
       ∧ d = kb_document base rel (Py.strip raw)).

Local Abbreviation reported fs base entries :=
  (λ q : string,
     (q, true) ∈ entries
     ∧ Py.endswith (PathLib.name q) ".txt" = true
     ∧ (fs_read fs q = None
        ∨ ∃ raw, fs_read fs q = Some raw ∧ Py.strip raw ≠ ""
                 ∧ PyStr.relative_to base q = None)).

Lemma elem_of_load_entries fs base entries :
  (∀ d, d ∈ (load_entries fs base entries).1 ↔ loaded fs base entries d)
  ∧ (∀ q, LoadError q ∈ (load_entries fs base entries).2 ↔ reported fs base entries q).
Proof.
  induction entries as [|[q is_file] rest [IHd IHl]].
  - split; [intros d | intros q]; simpl.
    + split; [by intros ?%elem_of_nil | by intros (? & ? & ?%elem_of_nil & _)].
    + split; [by intros ?%elem_of_nil | by intros [?%elem_of_nil _]].
  - assert (Hd : ∀ d, loaded fs base ((q, is_file) :: rest) d
                      ↔ (is_file = true ∧ Py.endswith (PathLib.name q) ".txt" = true
                         ∧ ∃ rel raw, q = base +:+ "/" +:+ rel ∧ fs_read fs q = Some raw
                                      ∧ Py.strip raw ≠ ""
                                      ∧ d = kb_document base rel (Py.strip raw))
                        ∨ loaded fs base rest d).
    { intros d. split.
      - intros (rel & raw & [[= <- <-]|Hin]%elem_of_cons & He & Hr & Hs & ->).
        + left. split; [done|]. split; [done|]. by exists rel, raw.
        + right. by exists rel, raw.
      - intros [(-> & He & rel & raw & -> & Hr & Hs & ->) | (rel & raw & Hin & H)].
        + exists rel, raw. split; [by left | done].
        + exists rel, raw. split; [by right | done]. }
    assert (Hl : ∀ p, reported fs base ((q, is_file) :: rest) p
                      ↔ (p = q ∧ is_file = true
                         ∧ Py.endswith (PathLib.name q) ".txt" = true
                         ∧ (fs_read fs q = None
                            ∨ ∃ raw, fs_read fs q = Some raw ∧ Py.strip raw ≠ ""
                                     ∧ PyStr.relative_to base q = None))
                        ∨ reported fs base rest p).
    { intros p. split.
      - intros ([[= -> <-]|Hin]%elem_of_cons & He & H); [left | right]; done.
      - intros [(-> & -> & He & H) | (Hin & H)].
        + split; [by left | done].
        + split; [by right | done]. }
    simpl. destruct (load_entries fs base rest) as [docs lg]. simpl in IHd, IHl.
    split; [intros d; rewrite Hd | intros p; rewrite Hl]; clear Hd Hl.
    + destruct (Py.endswith (PathLib.name q) ".txt") eqn:He, is_file; simpl;
        try (rewrite IHd; split; [by right | by intros [(? & ? & _)|?]]).
      destruct (fs_read fs q) as [raw|] eqn:Hr; simpl.
      2: { rewrite IHd. split; [by right|]. by intros [(_ & _ & ? & ? & _ & ? & _)|?]. }
      case_bool_decide as Hs; simpl.
      { rewrite IHd. split; [by right|].
        intros [(_ & _ & rel & raw' & _ & [= <-] & Hn & _)|?]; done. }
      destruct (PyStr.relative_to base q) as [rel|] eqn:Hrel; simpl.
      * apply relative_to_Some in Hrel as ->. rewrite elem_of_cons, IHd. split.
        -- intros [->|?]; [left | by right].
           split; [done|]. split; [done|]. by exists rel, raw.
        -- intros [(_ & _ & rel' & raw' & Heq & [= <-] & _ & ->)|?]; [left | by right].
           apply String.app_inj in Heq. by apply (String.app_inj "/") in Heq as ->.
      * rewrite IHd. split; [by right|].
        intros [(_ & _ & rel' & raw' & Heq & _)|?]; [|done].
        apply relative_to_Some in Heq. congruence.
    + destruct (Py.endswith (PathLib.name q) ".txt") eqn:He, is_file; simpl;
        try (rewrite IHl; split; [by right | by intros [(_ & ? & ? & _)|?]]).
      destruct (fs_read fs q) as [raw|] eqn:Hr; simpl.
      2: { rewrite elem_of_cons, IHl. split.
           - intros [[= ->]|?]; [left | by right]. by repeat split; try left.
           - intros [(-> & _)|?]; [by left | by right]. }
      case_bool_decide as Hs; simpl.
      { rewrite IHl. split; [by right|].
        intros [(_ & _ & _ & [?|(raw' & [= <-] & ? & _)])|?]; done. }
      destruct (PyStr.relative_to base q) as [rel|] eqn:Hrel; simpl.
      * rewrite IHl. split; [by right|].
        intros [(_ & _ & _ & [?|(raw' & _ & _ & ?)])|?]; done.
      * rewrite elem_of_cons, IHl. split.
        -- intros [[= ->]|?]; [left | by right].
           repeat split; try done. right. by exists raw.
        -- intros [(-> & _)|?]; [by left | by right].
Qed.

(** X12.  [load_documents] loads exactly the regular [.txt] files below
    the knowledge base that can be read and hold more than white space,
    each with its stripped text; it reports the ones that cannot be
    loaded and goes on with the rest.  A loaded document is never empty,
    its [file_size] is the length of the stripped text, not of the file,
    and its [file_path] is the path that was walked. *)
Theorem load_documents_loads_exactly fs base entries :
  fs_walk fs base = Some entries →
  (∀ d, d ∈ (load_documents fs base).1 ↔ loaded fs base entries d)
  ∧ (∀ q, LoadError q ∈ (load_documents fs base).2 ↔ reported fs base entries q)
  ∧ Forall (λ d, page_content d ≠ ""
                 ∧ metadata d !! "file_size" = Some (VInt (Py.len (page_content d)))
                 ∧ ∃ q, (q, true) ∈ entries
                        ∧ metadata d !! "file_path" = Some (VStr q))
      (load_documents fs base).1.
Proof.
  intros Hw. unfold load_documents. rewrite Hw.
  destruct (elem_of_load_entries fs base entries) as [Hd Hl].
  split; [done|]. split; [done|].
  apply Forall_forall. intros d (rel & raw & Hin & _ & _ & Hs & ->)%Hd.
  split; [done|]. split.
  - unfold kb_document; simpl. do 4 (rewrite lookup_insert_ne by done).
    by rewrite lookup_singleton_eq.
  - exists (base +:+ "/" +:+ rel). split; [done|].
    unfold kb_document; simpl. do 3 (rewrite lookup_insert_ne by done).
    by rewrite lookup_insert_eq.
Qed.

Lemma load_entries_documents fs base entries :
  Forall (λ d, ∃ rel content, d = kb_document base rel content)
    (load_entries fs base entries).1.
Proof.
  apply Forall_forall. intros d Hd.
  apply (elem_of_load_entries fs base entries) in Hd as (rel & raw & _ & _ & _ & _ & ->).
  eauto.
Qed.

Lemma kb_split_documents_texts base docs :
  Forall (λ d, ∃ rel content, d = kb_document base rel content) docs →
  ∃ chunks,
    kb_split_documents Splitter docs = inr chunks
    ∧ page_content <$> chunks
      = docs ≫= (λ d, filter (λ t, (10 ≤ Z.of_nat (Py.len (Py.strip t)))%Z)
                        (Splitter 2000 200 separators (page_content d))).
Proof.
  induction 1 as [|d docs (rel & content & ->) _ (chunks & Hrest & Htexts)].
  - by exists [].
  - destruct (kb_split_document_docs Splitter base rel content) as (pieces & Hp & Hd).
    eexists. simpl. rewrite Hd, Hrest. simpl. split; [done|].
    by rewrite fmap_app, tag_chunks_texts, Hp, Htexts.
Qed.

(** X13.  The full build cannot fail on a missing [filename]: whatever
    the knowledge base holds, [split_documents] returns, and the fragments
    it keeps are, file after file in the order of loading, the pieces of
    the splitter that have at least 10 characters once stripped. *)
Theorem full_build_cuts_every_loaded_file fs base :
  ∃ chunks,
    kb_split_documents Splitter (load_documents fs base).1 = inr chunks
    ∧ page_content <$> chunks
      = (load_documents fs base).1
          ≫= (λ d, filter (λ t, (10 ≤ Z.of_nat (Py.len (Py.strip t)))%Z)
                     (Splitter 2000 200 separators (page_content d))).
Proof.
  apply (kb_split_documents_texts base). unfold load_documents.
  destruct (fs_walk fs base) as [entries|]; [apply load_entries_documents | constructor].
Qed.

End LoadFacts.

Lemma load_documents_sample :
  (KnowledgeBase.load_documents Fixtures.kb_fs "knowledge_base").1
  = [kb_document "knowledge_base" "heroes/xarn.txt" "Xarn Velgor commands the Synth Flux."]
  ∧ (KnowledgeBase.load_documents Fixtures.kb_fs "knowledge_base").2
    = [KnowledgeBase.LoadError "knowledge_base/locked.txt"]
  ∧ Forall (λ d, page_content d ≠ "")
      (KnowledgeBase.load_documents Fixtures.kb_fs "knowledge_base").1.
Proof.
  split; [by vm_compute|]. split; [by vm_compute|].
  destruct (load_documents_loads_exactly Fixtures.kb_fs "knowledge_base" _ eq_refl)
    as (_ & _ & H).
  eapply Forall_impl; [exact H|]. by intros d [? _].
Defined.

(** ** The simple manager ([update_index_simple.py]) *)

Section SimpleFacts.

Import Simple.

Variable md5_hexdigest : string → string.

Local Abbreviation run := (Simple.run_update md5_hexdigest).
Local Abbreviation scan env m :=
  (scan_folders md5_hexdigest (env_fs env) (processed_files_cache m)
     (local_folders (config m))).

Lemma copy_one_copies env st f :
  copies env f = true →
  ∃ raw, fs_read (env_fs env) f.1 = Some raw
    ∧ copy_one env st f
      = {| cs_cache := <[ f.1 := f.2 ]> (cs_cache st);
           cs_incoming := <[ PathLib.name f.1 := Py.strip raw ]> (cs_incoming st);
           cs_copied := cs_copied st + 1;
           cs_log := cs_log st ++ [LogCopied f.1 (PathLib.name f.1)] |}.
Proof.
  unfold copies, copy_one. destruct (fs_read (env_fs env) f.1) as [raw|]; [|done].
  intros [Hs Hw]%andb_true_iff. exists raw. split; [done|].
  apply negb_true_iff in Hs. by rewrite Hs, Hw.
Qed.

Lemma copy_one_skips env st f :
  copies env f = false →
  cs_cache (copy_one env st f) = cs_cache st
  ∧ cs_incoming (copy_one env st f) = cs_incoming st
  ∧ cs_copied (copy_one env st f) = cs_copied st.
Proof.
  unfold copies, copy_one. destruct (fs_read (env_fs env) f.1) as [raw|]; [|done].
  destruct (bool_decide (Py.strip raw = "")); simpl; [done|].
  by intros ->.
Qed.

Lemma copy_all_copied env found : ∀ st,
  cs_copied (copy_all env st found)
  = cs_copied st + length (filter (λ f, copies env f = true) found).
Proof.
  induction found as [|f rest IH]; intros st; simpl; [lia|].
  rewrite IH, filter_cons. destruct (copies env f) eqn:Hf.
  - destruct (copy_one_copies env st f Hf) as (raw & _ & ->).
    rewrite decide_True by done. simpl. lia.
  - destruct (copy_one_skips env st f Hf) as (_ & _ & ->).
    by rewrite decide_False by done.
Qed.

(** The cache changes at the keys of the copied files only, and every
    copied file is in it afterwards. *)
Lemma copy_all_cache env found : ∀ st k,
  cs_cache (copy_all env st found) !! k
  = match last (filter (λ f, copies env f = true ∧ f.1 = k) found) with
    | Some f => Some f.2
    | None => cs_cache st !! k
    end.
Proof.
  induction found as [|f rest IH]; intros st k; simpl; [done|].
  rewrite IH, filter_cons. destruct (copies env f) eqn:Hf.
  - destruct (copy_one_copies env st f Hf) as (raw & _ & ->). simpl.
    destruct (decide (f.1 = k)) as [<-|Hk].
    + rewrite decide_True by done. rewrite last_cons.
      destruct (last _); [done|]. by rewrite lookup_insert_eq.
    + rewrite decide_False by (by intros [_ ?]).
      destruct (last _); [done|]. by rewrite lookup_insert_ne.
  - destruct (copy_one_skips env st f Hf) as (-> & _ & _).
    by rewrite decide_False by (by intros [? _]).
Qed.

(** In [knowledge_base/incoming] the last file copied under a name is
    the one that stays. *)
Lemma copy_all_incoming env found : ∀ st name,
  cs_incoming (copy_all env st found) !! name
  = match last (filter (λ f, copies env f = true ∧ PathLib.name f.1 = name) found) with
    | Some f => Py.strip <$> fs_read (env_fs env) f.1
    | None => cs_incoming st !! name
    end.
Proof.
  induction found as [|f rest IH]; intros st name; simpl; [done|].
  rewrite IH, filter_cons. destruct (copies env f) eqn:Hf.
  - destruct (copy_one_copies env st f Hf) as (raw & Hr & ->). simpl.
    destruct (decide (PathLib.name f.1 = name)) as [<-|Hk].
    + rewrite decide_True by done. rewrite last_cons.
      destruct (last _); [done|]. by rewrite lookup_insert_eq, Hr.
    + rewrite decide_False by (by intros [_ ?]).
      destruct (last _); [done|]. by rewrite lookup_insert_ne.
  - destruct (copy_one_skips env st f Hf) as (_ & -> & _).
    by rewrite decide_False by (by intros [? _]).
Qed.

(** X14.  Every file the loop copies is counted and entered in the
    cache, but [knowledge_base/incoming] is flat: a file is stored under
    its name alone, so of the copied files that share a name only the
    last one is there afterwards. *)
Theorem copy_keeps_last_of_a_name env m pre g post st :
  copy_files_to_knowledge_base env m (pre ++ g :: post) = inr st →
  copies env g = true →
  Forall (λ h, copies env h = true → PathLib.name h.1 ≠ PathLib.name g.1) post →
  cs_copied st = length (filter (λ f, copies env f = true) (pre ++ g :: post))
  ∧ Forall (λ f, copies env f = true → is_Some (cs_cache st !! f.1)) (pre ++ g :: post)
  ∧ cs_incoming st !! PathLib.name g.1 = Py.strip <$> fs_read (env_fs env) g.1.
Proof.
  intros Hst Hg Hpost.
  assert (st = copy_all env (copy_start m) (pre ++ g :: post)) as ->.
  { unfold copy_files_to_knowledge_base in Hst.
    destruct (pre ++ g :: post) eqn:E; [by destruct pre|].
    destruct (env_mkdir_ok env); [|done]. by injection Hst as <-. }
  split; [by rewrite copy_all_copied|]. split.
  - apply Forall_forall. intros f Hin Hf. rewrite copy_all_cache.
    destruct (last _) as [f'|] eqn:Hl; [by eexists|].
    apply last_None in Hl.
    assert (f ∈ filter (λ f0, copies env f0 = true ∧ f0.1 = f.1) (pre ++ g :: post))
      as Hf' by (by apply list_elem_of_filter).
    rewrite Hl in Hf'. by apply elem_of_nil in Hf'.
  - rewrite copy_all_incoming, filter_app, filter_cons, decide_True by done.
    assert (filter (λ f, copies env f = true ∧ PathLib.name f.1 = PathLib.name g.1) post
            = []) as ->.
    { clear Hst. induction Hpost as [|h post Hh _ IH]; [done|].
      rewrite filter_cons, decide_False; [done|]. intros [Hc Hn]. by apply Hh. }
    by rewrite last_snoc.
Qed.

Lemma run_update_scan_failed env m e :
  scan env m = inl e →
  run env m = (m, {| files_processed := 0; files_copied := 0; index_updated := false;
                     errors := 1; new_files := [] |}).
Proof. intros Hs. unfold Simple.run_update. by rewrite Hs. Qed.

Lemma run_update_nothing_found env m lg :
  scan env m = inr ([], lg) → run env m = (m, stats_init).
Proof. intros Hs. unfold Simple.run_update. by rewrite Hs. Qed.

Lemma run_update_copied env m found lg :
  scan env m = inr (found, lg) → found ≠ [] → env_mkdir_ok env = true →
  let st := copy_all env (copy_start m) found in
  let built := bool_decide (0 < cs_copied st) && env_build_ok env in
  run env m
  = ({| config := config m;
        processed_files_cache := cs_cache st;
        incoming := cs_incoming st;
        cache_file :=
          if env_save_ok env then Some (cs_cache st)
          else if env_save_tears env then None else cache_file m |},
     {| files_processed := length found;
        files_copied := cs_copied st;
        index_updated := built;
        errors := if built then 0 else 1;
        new_files := found.*1 |}).
Proof.
  intros Hs Hne Hmk. unfold Simple.run_update, copy_files_to_knowledge_base.
  rewrite Hs, Hmk. by destruct found.
Qed.

Lemma run_update_mkdir_failed env m found lg :
  scan env m = inr (found, lg) → found ≠ [] → env_mkdir_ok env = false →
  run env m = (m, {| files_processed := 0; files_copied := 0; index_updated := false;
                     errors := 1; new_files := [] |}).
Proof.
  intros Hs Hne Hmk. unfold Simple.run_update, copy_files_to_knowledge_base.
  rewrite Hs, Hmk. by destruct found.
Qed.

Lemma copied_positive env found :
  0 < length (filter (λ f, copies env f = true) found)
  ↔ Exists (λ f, copies env f = true) found.
Proof.
  induction found as [|f rest IH]; simpl.
  - split; [lia | by intros ?%Exists_nil].
  - rewrite filter_cons, Exists_cons. destruct (decide (copies env f = true)); simpl.
    + split; [by left | lia].
    + rewrite IH. split; [by right | by intros [?|?]].
Qed.

(** X15.  A run of the simple manager reports at most one error, and
    none exactly when the scan went through and either found nothing or
    at least one file was copied and the full build succeeded.  It never
    copies more files than it found, and it reports the index as updated
    only after copying something. *)
Theorem simple_run_reports env m :
  let stats := (run env m).2 in
  errors stats ≤ 1
  ∧ (errors stats = 0 ↔
       ∃ found lg, scan env m = inr (found, lg)
         ∧ (found = []
            ∨ (env_mkdir_ok env = true
               ∧ Exists (λ f, copies env f = true) found
               ∧ env_build_ok env = true)))
  ∧ files_copied stats ≤ files_processed stats
  ∧ (index_updated stats = true → errors stats = 0 ∧ 0 < files_copied stats).
Proof.
  cbv zeta.
  destruct (scan env m) as [e|[found lg]] eqn:Hs.
  { rewrite (run_update_scan_failed env m e Hs). simpl.
    split; [lia|]. split; [|split; [lia | done]].
    split; [done | by intros (? & ? & ? & _)]. }
  destruct (decide (found = [])) as [->|Hne].
  { rewrite (run_update_nothing_found env m lg Hs). simpl.
    split; [lia|]. split; [|split; [lia | done]].
    split; [|done]. intros _. exists [], lg. split; [done | by left]. }
  destruct (env_mkdir_ok env) eqn:Hmk.
  2: { rewrite (run_update_mkdir_failed env m found lg Hs Hne Hmk). simpl.
       split; [lia|]. split; [|split; [lia | done]].
       split; [done|]. intros (f' & lg' & [= <- <-] & [?|(? & _)]); done. }
  rewrite (run_update_copied env m found lg Hs Hne Hmk). simpl.
  rewrite copy_all_copied. simpl.
  pose proof (length_filter (λ f, copies env f = true) found) as Hle.
  pose proof (copied_positive env found) as Hpos.
  split; [destruct (_ && _); lia|]. split; [|split; [lia|]].
  - split.
    + intros Hz. exists found, lg. split; [done|]. right.
      destruct (bool_decide _) eqn:Hb in Hz; simpl in Hz; [|done].
      apply bool_decide_eq_true in Hb.
      destruct (env_build_ok env); [|done]. split; [done|]. split; [by apply Hpos | done].
    + intros (f' & lg' & [= <- <-] & [?|(_ & Hex & ->)]); [done|].
      rewrite bool_decide_eq_true_2 by (by apply Hpos). done.
  - intros [Hb ->]%andb_true_iff. rewrite Hb. simpl. split; [done|].
    by apply bool_decide_eq_true in Hb.
Qed.

(** X16.  A failed build is forgotten.  The cache is written whether or
    not the build succeeded, so when every file that was found has been
    copied and the build then fails, the run reports its one error, and
    the next process, reading the cache back, finds nothing to do and
    reports none: the copied files are never built into the index. *)
Theorem failed_build_is_forgotten env1 env2 m found lg :
  scan env1 m = inr (found, lg) → found ≠ [] →
  env_mkdir_ok env1 = true → Forall (λ f, copies env1 f = true) found →
  env_build_ok env1 = false → env_save_ok env1 = true →
  env_fs env2 = env_fs env1 →
  let r1 := run env1 m in
  errors r1.2 = 1 ∧ index_updated r1.2 = false ∧ files_copied r1.2 = length found
  ∧ (run env2 (reload r1.1)).2 = stats_init.
Proof.
  intros Hs Hne Hmk Hall Hb Hsave Hfs. cbv zeta.
  rewrite (run_update_copied env1 m found lg Hs Hne Hmk). simpl.
  rewrite Hb, Hsave, andb_false_r, copy_all_copied. simpl.
  split; [done|]. split; [done|]. split.
  { f_equal. clear Hs Hne. induction Hall as [|f rest Hf _ IH]; [done|].
    by rewrite filter_cons, decide_True, IH. }
  set (cache1 := cs_cache (copy_all env1 (copy_start m) found)).
  set (m2 := reload _).
  assert (Hscan2 : ∃ lg2, scan env2 m2 = inr ([], lg2)).
  { unfold m2, reload; simpl. rewrite Hfs. fold cache1.
    pose proof (scan_folders_filter md5_hexdigest (env_fs env1)
                  (processed_files_cache m) (local_folders (config m))) as H1.
    pose proof (scan_folders_filter md5_hexdigest (env_fs env1)
                  cache1 (local_folders (config m))) as H2.
    rewrite Hs in H1.
    destruct (scan_folders md5_hexdigest (env_fs env1) ∅ (local_folders (config m)))
      as [e|[cands lg0]] eqn:Hc; [done|].
    destruct (scan_folders md5_hexdigest (env_fs env1) cache1
                (local_folders (config m))) as [e|[found2 lg2]]; [done|].
    exists lg2. do 2 f_equal. rewrite H2. clear H2.
    apply scan_folders_hashed in Hc as Hh.
    apply scan_folders_hashed in Hs as Hhf.
    destruct (filter (λ f : string * string, is_new_or_modified cache1 f.1 f.2 = true)
                cands) as [|c rest] eqn:Hf; [done|].
    exfalso.
    assert (c ∈ filter (λ f, is_new_or_modified cache1 f.1 f.2 = true) cands)
      as [Hsel Hin]%list_elem_of_filter by (rewrite Hf; by left).
    assert (Hnot : is_new_or_modified cache1 c.1 c.2 = false); [|congruence].
    apply is_new_or_modified_false. unfold cache1. rewrite copy_all_cache.
    destruct (last _) as [f|] eqn:Hl.
    - apply last_Some_elem_of, list_elem_of_filter in Hl as [[_ Hk] Hinf].
      f_equal. rewrite (proj1 (Forall_forall _ _) Hh c Hin), <- Hk.
      exact (proj1 (Forall_forall _ _) Hhf f Hinf).
    - destruct (is_new_or_modified (processed_files_cache m) c.1 c.2) eqn:Hn.
      + assert (c ∈ found) as Hinf by (rewrite H1; by apply list_elem_of_filter).
        apply last_None in Hl.
        assert (c ∈ filter (λ f, copies env1 f = true ∧ f.1 = c.1) found) as Hc'.
        { apply list_elem_of_filter. split; [|done]. split; [|done].
          exact (proj1 (Forall_forall _ _) Hall c Hinf). }
        rewrite Hl in Hc'. by apply elem_of_nil in Hc'.
      + by apply is_new_or_modified_false in Hn. }
  destruct Hscan2 as [lg2 Hscan2].
  by rewrite (run_update_nothing_found env2 m2 lg2 Hscan2).
Qed.

End SimpleFacts.

Lemma copy_same_name_sample :
  let found := [("docs/guide.txt", "h1"); ("notes/guide.txt", "h2")] in
  let st := Simple.copy_all Fixtures.simple_env
              (Simple.copy_start Fixtures.simple_manager) found in
  Simple.cs_copied st = 2
  ∧ is_Some (Simple.cs_cache st !! "docs/guide.txt")
  ∧ Simple.cs_incoming st !! "guide.txt" = Some "Notes of the same name.".
Proof.
  intros found st.
  destruct (copy_keeps_last_of_a_name Fixtures.simple_env Fixtures.simple_manager
              [("docs/guide.txt", "h1")] ("notes/guide.txt", "h2") [] st
              eq_refl eq_refl (Forall_nil_2 _)) as (Hn & Hc & Hi).
  split; [exact Hn|]. split; [|exact Hi].
  apply Forall_cons in Hc as [Hc _]. by apply Hc.
Defined.

Lemma simple_run_sample :
  Simple.errors
    (Simple.run_update Sample.digest Fixtures.simple_env Fixtures.simple_manager).2 = 0
  ∧ 0 < Simple.files_copied
          (Simple.run_update Sample.digest Fixtures.simple_env
             Fixtures.simple_manager).2.
Proof.
  destruct (simple_run_reports Sample.digest Fixtures.simple_env
              Fixtures.simple_manager) as (_ & _ & _ & H).
  apply H. vm_compute. reflexivity.
Defined.

Lemma failed_build_sample :
  let r1 := Simple.run_update Sample.digest Fixtures.simple_env_build_fails
              Fixtures.simple_manager in
  Simple.errors r1.2 = 1
  ∧ Simple.files_copied r1.2 = 2
  ∧ (Simple.run_update Sample.digest Fixtures.simple_env (Simple.reload r1.1)).2
    = Simple.stats_init.
Proof.
  cbv zeta.
  assert (∃ found lg,
            scan_folders Sample.digest (Simple.env_fs Fixtures.simple_env_build_fails)
              (Simple.processed_files_cache Fixtures.simple_manager)
              (local_folders (Simple.config Fixtures.simple_manager))
            = inr (found, lg)
            ∧ found ≠ []
            ∧ Forall (λ f, Simple.copies Fixtures.simple_env_build_fails f = true) found
            ∧ length found = 2)
    as (found & lg & Hs & Hne & Hall & Hlen).
  { eexists _, _. split; [vm_compute; reflexivity|]. split; [discriminate|].
    split; [|reflexivity]. repeat constructor. }
  destruct (failed_build_is_forgotten Sample.digest Fixtures.simple_env_build_fails
              Fixtures.simple_env Fixtures.simple_manager found lg
              Hs Hne eq_refl Hall eq_refl eq_refl eq_refl) as (He & _ & Hcp & Hnext).
  split; [exact He|]. split; [by rewrite Hcp | exact Hnext].
Defined.

(** ** Identifiers across files *)

Section Identifiers.

Variable Splitter : nat → nat → list string → string → list string.

Lemma chunk_id_pair_inj s1 s2 i j :
  s1 +:+ "_" +:+ Py.str_of_nat i = s2 +:+ "_" +:+ Py.str_of_nat j → s1 = s2 ∧ i = j.
Proof.
  intros [-> Hd]%underscore_number_inj; try apply str_of_nat_no_underscore.
  split; [done|]. by apply str_of_nat_inj.
Qed.

(** X17.  An identifier names a stem and a position, nothing more: two
    fragments, of the same file or of two files, have the same
    [chunk_id] exactly when the stems of their files agree and they stand
    at the same position.  So [guide.txt] and [guide.md], or two files
    named alike in different folders, share their identifiers. *)
Theorem chunk_id_names_stem_and_position env m p q hp hq d1 d2 :
  d1 ∈ (process_file Splitter env m p hp).1 →
  d2 ∈ (process_file Splitter env m q hq).1 →
  chunk_id_of d1 = chunk_id_of d2
  ↔ PathLib.stem p = PathLib.stem q ∧ chunk_index_of d1 = chunk_index_of d2.
Proof.
  destruct (process_file_docs Splitter env m p hp) as (c1 & _ & ->).
  destruct (process_file_docs Splitter env m q hq) as (c2 & _ & ->).
  intros (i & x & _ & _ & ->)%elem_of_tag_chunks (j & y & _ & _ & ->)%elem_of_tag_chunks.
  unfold tagged. rewrite !chunk_id_of_update, !chunk_index_of_update. simpl. split.
  - intros [= [-> ->]%chunk_id_pair_inj]. done.
  - by intros [-> [= ->]].
Qed.

End Identifiers.

Lemma same_stem_sample :
  ∃ d1 d2,
    (process_file Chunker.splitter Fixtures.env_twins Fixtures.manager_twins
       "docs/guide.txt" "h1").1 !! 0 = Some d1
    ∧ (process_file Chunker.splitter Fixtures.env_twins Fixtures.manager_twins
         "notes/guide.txt" "h2").1 !! 0 = Some d2
    ∧ chunk_id_of d1 = chunk_id_of d2.
Proof.
  destruct ((process_file Chunker.splitter Fixtures.env_twins Fixtures.manager_twins
               "docs/guide.txt" "h1").1 !! 0) as [d1|] eqn:H1;
    [|by vm_compute in H1].
  destruct ((process_file Chunker.splitter Fixtures.env_twins Fixtures.manager_twins
               "notes/guide.txt" "h2").1 !! 0) as [d2|] eqn:H2;
    [|by vm_compute in H2].
  exists d1, d2. split; [done|]. split; [done|].
  apply (chunk_id_names_stem_and_position Chunker.splitter Fixtures.env_twins
           Fixtures.manager_twins "docs/guide.txt" "notes/guide.txt" "h1" "h2" d1 d2).
  - by apply list_elem_of_lookup_2 in H1.
  - by apply list_elem_of_lookup_2 in H2.
  - vm_compute in H1. vm_compute in H2. injection H1 as <-. injection H2 as <-.
    split; reflexivity.
Defined.

(** ** Folders listed more than once *)

Section Folders.

Variable Splitter : nat → nat → list string → string → list string.
Variable md5_hexdigest : string → string.

Local Abbreviation run := (run_update Splitter md5_hexdigest).
Local Abbreviation kept := (retained Splitter).
Local Abbreviation listed env m found :=
  ((λ f : string * string, (f.1, length (kept env m f)))
     <$> contributing Splitter env m found).

(** X18.  The folders are scanned one after the other and what they
    yield is put end to end, with no check for files seen before: a
    file that lies below two configured folders is selected once per
    folder, listed once per folder in [new_files], and its fragments are
    written to the store once per folder in the same run. *)
Theorem folders_are_scanned_independently env m l1 l2 f1 lg1 f2 lg2 :
  local_folders (config m) = l1 ++ l2 →
  scan_folders md5_hexdigest (env_fs env) (processed_files_cache m) l1 = inr (f1, lg1) →
  scan_folders md5_hexdigest (env_fs env) (processed_files_cache m) l2 = inr (f2, lg2) →
  scan_for_new_files md5_hexdigest env m = inr (f1 ++ f2, lg1 ++ lg2)
  ∧ new_files (run env m).1.2 = listed env m f1 ++ listed env m f2
  ∧ (env_store_ok env = true →
     chunks_added (run env m).1.2
     = length (f1 ≫= kept env m) + length (f2 ≫= kept env m)).
Proof.
  intros Hl H1 H2.
  assert (Hs : scan_for_new_files md5_hexdigest env m = inr (f1 ++ f2, lg1 ++ lg2)).
  { unfold scan_for_new_files. by rewrite Hl, scan_folders_app, H1, H2. }
  split; [done|].
  destruct (run_update_write Splitter md5_hexdigest env m _ _ Hs) as (Hc & _ & Hn & _).
  split.
  - rewrite Hn. unfold contributing. by rewrite filter_app, fmap_app.
  - intros Hok. rewrite Hc.
    destruct (decide ((f1 ++ f2) ≫= kept env m = [])) as [He|He].
    + rewrite update_vector_db_failed by (by left). simpl.
      by rewrite <- length_app, <- bind_app, He.
    + rewrite update_vector_db_ok by done. simpl.
      by rewrite bind_app, length_app.
Qed.

End Folders.

Lemma folder_listed_twice_sample :
  new_files (Sample.run Sample.env Fixtures.manager_doubled).1.2
  = [("docs/guide.txt", 2); ("docs/guide.txt", 2)]
  ∧ chunks_added (Sample.run Sample.env Fixtures.manager_doubled).1.2 = 4.
Proof.
  assert (∃ f lg,
            scan_folders Sample.digest (env_fs Sample.env)
              (processed_files_cache Fixtures.manager_doubled) [Fixtures.docs_folder]
            = inr (f, lg)
            ∧ ((λ x : string * string,
                  (x.1, length (retained Chunker.splitter Sample.env
                                  Fixtures.manager_doubled x)))
                 <$> contributing Chunker.splitter Sample.env Fixtures.manager_doubled f)
              = [("docs/guide.txt", 2)]
            ∧ length (f ≫= retained Chunker.splitter Sample.env Fixtures.manager_doubled)
              = 2)
    as (f & lg & Hs & Hlisted & Hlen).
  { eexists _, _. split; [vm_compute; reflexivity|]. split; vm_compute; reflexivity. }
  destruct (folders_are_scanned_independently Chunker.splitter Sample.digest
              Sample.env Fixtures.manager_doubled
              [Fixtures.docs_folder] [Fixtures.docs_folder] f lg f lg
              eq_refl Hs Hs) as (_ & Hn & Hc).
  unfold Sample.run. rewrite Hn, (Hc eq_refl), Hlisted, Hlen.
  split; reflexivity.
Defined.
